(** * MARC rover map: the cost-propagation engine of [map.c]

    A shallow embedding of the cost engine of the rover simulator
    ([src/map.c], [include/map.h], [include/loc.h], [include/queue.h]) and
    the properties of its breadth-first relaxation and repair passes.

    Conventions.
    - A C [unsigned int] is a [Z] in [0, 2^32); every addition the code
      performs on one is followed by [u32], its wrap-around.
    - The two heap arrays [soils] and [costs] are lists of rows.  An
      access outside of the allocated extent is undefined behaviour in C;
      here it is the fault [OutOfBounds].
    - The code mutates [costs] and the queue in place; the embedding
      passes both explicitly and returns the updated values.

    The second part of the development covers the rest of the program:
    the moves of the rover ([src/moves.c]), the loader of the map file and
    the display ([src/map.c]). *)

From Stdlib Require Import ZArith Lia Bool.
From stdpp Require Import base tactics option list list_numbers.

Local Open Scope Z_scope.

(** ** Faults and the result monad *)

Inductive fault : Type :=
| OutOfBounds   (* an array access outside of its extent *)
| QueueFull     (* enqueue on a queue holding [size] pending entries *)
| QueueEmpty    (* dequeue on an empty queue *)
| OutOfFuel.    (* the iteration budget of a [while] loop is spent *)

Inductive result (A : Type) : Type :=
| Ok (a : A)
| Fail (f : fault).

Arguments Ok {A} a.
Arguments Fail {A} f.

Definition bind {A B : Type} (r : result A) (k : A -> result B) : result B :=
  match r with
  | Ok a => k a
  | Fail f => Fail f
  end.

Notation "'try' v := r 'in' k" := (bind r (fun v => k))
  (at level 10, v name, r at level 100, k at level 200, only parsing).
Notation "'try' ' pat := r 'in' k" :=
  (bind r (fun v => match v with pat => k end))
  (at level 10, pat pattern, r at level 100, k at level 200, only parsing).

(** A counted [for] loop over the values [l], threading the state [s]. *)
Fixpoint for_each {S A : Type} (body : S -> A -> result S) (l : list A) (s : S)
  : result S :=
  match l with
  | [] => Ok s
  | a :: l' => try s' := body s a in for_each body l' s'
  end.

(** ** Machine integers *)

Definition u32 (z : Z) : Z := z mod 2 ^ 32.

(** Conversion of an [unsigned int] to [int] (two's complement). *)
Definition int_of_u32 (z : Z) : Z := if z <? 2 ^ 31 then z else z - 2 ^ 32.

(** ** loc.h *)

Record position_s : Type := mk_position { x : Z; y : Z }.

Global Instance position_eq_dec : EqDecision position_s.
Proof. solve_decision. Defined.

(** [_direction_vectors]: the first component is added to [x], the second
    to [y]. *)
Definition _direction_vectors : list (Z * Z) :=
  [(-1, 0); (1, 0); (0, -1); (0, 1)].

Definition POSITION_IS_VALID (position : position_s) (map_width map_height : Z)
  : bool :=
  (x position <? map_width) && (y position <? map_height).

(** ** map.h *)

Definition COST_UNDEF : Z := 0xFFFFFFFF.

Inductive soil_e : Type :=
| BASE_STATION
| PLAIN
| ERG
| REG
| CREVASSE.

Global Instance soil_eq_dec : EqDecision soil_e.
Proof. solve_decision. Defined.

Definition _soil_cost (s : soil_e) : Z :=
  match s with
  | BASE_STATION => 0
  | PLAIN => 1
  | ERG => 2
  | REG => 4
  | CREVASSE => 10000
  end.

Record map_s : Type := mk_map {
  width : Z;
  height : Z;
  soils : list (list soil_e);
  costs : list (list Z)
}.

(** The map after a store sequence left its cost array as [c]. *)
Definition with_costs (m : map_s) (c : list (list Z)) : map_s :=
  {| width := width m; height := height m; soils := soils m; costs := c |}.

(** ** Array accesses *)

Definition array_get {A : Type} (a : list A) (i : Z) : result A :=
  if i <? 0 then Fail OutOfBounds
  else match a !! Z.to_nat i with
       | Some v => Ok v
       | None => Fail OutOfBounds
       end.

Definition array_set {A : Type} (a : list A) (i : Z) (v : A) : result (list A) :=
  if (0 <=? i) && (i <? Z.of_nat (length a))
  then Ok (<[Z.to_nat i := v]> a)
  else Fail OutOfBounds.

(** [a[p.y][p.x]] *)
Definition grid_get {A : Type} (a : list (list A)) (p : position_s) : result A :=
  try row := array_get a (y p) in array_get row (x p).

(** [a[p.y][p.x] = v] *)
Definition grid_set {A : Type} (a : list (list A)) (p : position_s) (v : A)
  : result (list (list A)) :=
  try row := array_get a (y p) in
  try row' := array_set row (x p) v in
  array_set a (y p) row'.

(** ** queue.h *)

(** Modelled from the spec: [queue.c] is missing; only the declarations of
    [queue.h] and the calls in [map.c] are available.  The spec gives a
    ring of coordinates sized to the capacity with head and tail cursors,
    emptiness decided by comparing the cursors, and enqueue past capacity
    a precondition violation.  The cursors count the dequeues ([first])
    and enqueues ([last]) performed so far and index the ring modulo
    [size].

    [history] is a ghost field: the log of every coordinate ever passed to
    [enqueue], oldest first.  No operation reads it. *)
Record t_queue : Type := mk_queue {
  values : list position_s;
  size : Z;
  last : Z;
  first : Z;
  history : list position_s
}.

Definition createQueue (sz : Z) : t_queue :=
  {| values := replicate (Z.to_nat sz) (mk_position 0 0);
     size := sz; last := 0; first := 0; history := [] |}.

Definition enqueue (q : t_queue) (value : position_s) : result t_queue :=
  if last q - first q <? size q then
    try values' := array_set (values q) (last q mod size q) value in
    Ok {| values := values'; size := size q;
          last := last q + 1; first := first q;
          history := history q ++ [value] |}
  else Fail QueueFull.

Definition dequeue (q : t_queue) : result (position_s * t_queue) :=
  if first q =? last q then Fail QueueEmpty
  else
    try value := array_get (values q) (first q mod size q) in
    Ok (value, {| values := values q; size := size q;
                  last := last q; first := first q + 1;
                  history := history q |}).

(** The coordinates enqueued and not yet dequeued, oldest first. *)
Definition pending (q : t_queue) : list position_s :=
  drop (Z.to_nat (first q)) (history q).

(** ** map.c *)

(** One pass of the inner scan of [_get_base_station_pos] over row [cy]:
    [Some p] when the scan returns from the function at [p]. *)
Fixpoint scan_row (soils : list (list soil_e)) (cy : Z) (xs : list Z)
  : result (option position_s) :=
  match xs with
  | [] => Ok None
  | cx :: xs' =>
      try s := grid_get soils (mk_position cx cy) in
      if decide (s = BASE_STATION) then Ok (Some (mk_position cx cy))
      else scan_row soils cy xs'
  end.

Fixpoint scan_rows (soils : list (list soil_e)) (map_width : Z) (ys : list Z)
  : result (option position_s) :=
  match ys with
  | [] => Ok None
  | cy :: ys' =>
      try r := scan_row soils cy (seqZ 0 map_width) in
      match r with
      | Some p => Ok (Some p)
      | None => scan_rows soils map_width ys'
      end
  end.

Definition _get_base_station_pos (m : map_s) : result position_s :=
  try r := scan_rows (soils m) (width m) (seqZ 0 (height m)) in
  match r with
  | Some p => Ok p
  | None => Ok (mk_position 0xFFFFFFFF 0xFFFFFFFF)
  end.

(** The state of the neighbour loop of [_compute_cell_cost]: [cost_min],
    the cost array and the queue behind the pointer (if not null). *)
Definition scan_state : Type := Z * list (list Z) * option t_queue.

(** The body of the neighbour loop for one direction vector. *)
Definition visit_neighbour (map_width map_height : Z) (position : position_s)
  (st : scan_state) (direction_vector : Z * Z) : result scan_state :=
  let '(cost_min, costs, queue) := st in
  let compute_pos :=
    {| x := u32 (x position + fst direction_vector);
       y := u32 (y position + snd direction_vector) |} in
  if POSITION_IS_VALID compute_pos map_width map_height then
    try compute_pos_cost := grid_get costs compute_pos in
    if compute_pos_cost <? cost_min then Ok (compute_pos_cost, costs, queue)
    else
      match queue with
      | Some q =>
          if compute_pos_cost =? COST_UNDEF then
            try q' := enqueue q compute_pos in
            try costs' := grid_set costs compute_pos (COST_UNDEF - 1) in
            Ok (cost_min, costs', Some q')
          else Ok st
      | None => Ok st
      end
  else Ok st.

Definition _compute_cell_cost (m : map_s) (position : position_s)
  (queue : option t_queue) : result (Z * map_s * option t_queue) :=
  try soil := grid_get (soils m) position in
  let soil_current_cost := u32 (_soil_cost soil) in
  try '(cost_min, costs', queue') :=
    for_each (visit_neighbour (width m) (height m) position)
             _direction_vectors (0xFFFFFFFF, costs m, queue) in
  Ok (if soil_current_cost =? 0 then 0 else u32 (cost_min + soil_current_cost),
      with_costs m costs', queue').

(** The body of the two nested loops of [_remove_false_costs] at one cell. *)
Definition repair_cell (m : map_s) (p : position_s) : result map_s :=
  try soil := grid_get (soils m) p in
  if decide (soil = CREVASSE) then Ok m
  else
    try c := grid_get (costs m) p in
    if 10000 <? c then
      try '(v, m', _) := _compute_cell_cost m p None in
      try costs' := grid_set (costs m') p v in
      Ok (with_costs m' costs')
    else Ok m.

Definition _remove_false_costs (m : map_s) : result map_s :=
  for_each
    (fun m1 cy =>
       for_each (fun m2 cx => repair_cell m2 (mk_position cx cy))
                (seqZ 0 (width m)) m1)
    (seqZ 0 (height m)) m.

(** The [while] loop of [_compute_costs]; [fuel] bounds the number of
    iterations.  The final queue is returned for observation: its cursor
    [first] is the number of dequeues performed. *)
Fixpoint propagate (fuel : nat) (m : map_s) (queue : t_queue)
  : result (map_s * t_queue) :=
  if first queue =? last queue then Ok (m, queue)
  else
    match fuel with
    | O => Fail OutOfFuel
    | S fuel' =>
        try '(current_pos, queue1) := dequeue queue in
        try '(c, m1, queue2) := _compute_cell_cost m current_pos (Some queue1) in
        try costs' := grid_set (costs m1) current_pos c in
        propagate fuel' (with_costs m1 costs') (default queue1 queue2)
    end.

Definition _compute_costs (fuel : nat) (m : map_s) : result (map_s * t_queue) :=
  try base_station_pos := _get_base_station_pos m in
  let queue := createQueue (int_of_u32 (u32 (width m * height m))) in
  if (x base_station_pos =? 0xFFFFFFFF) || (y base_station_pos =? 0xFFFFFFFF)
  then Ok (m, queue)
  else
    try queue' := enqueue queue base_station_pos in
    propagate fuel m queue'.

(** [map_from_file] after the file has been read: [_map_fill_from_file]
    has stored the terrain and filled the cost array with [0xFF] bytes;
    then come the two passes. *)
Definition initial_map (map_height map_width : Z) (terrain : list (list soil_e))
  : map_s :=
  {| width := map_width; height := map_height; soils := terrain;
     costs := replicate (Z.to_nat map_height)
                (replicate (Z.to_nat map_width) COST_UNDEF) |}.

Definition map_from_file (fuel : nat) (map_height map_width : Z)
  (terrain : list (list soil_e)) : result map_s :=
  try '(m, _) := _compute_costs fuel (initial_map map_height map_width terrain) in
  _remove_false_costs m.


(** ** Specification vocabulary *)

Definition PENDING : Z := COST_UNDEF - 1.

(** The cell reached from [p] by the direction vector [d], as the
    neighbour loop computes it. *)
Definition neighbour (p : position_s) (d : Z * Z) : position_s :=
  {| x := u32 (x p + fst d); y := u32 (y p + snd d) |}.

Definition in_bounds (w h : Z) (p : position_s) : Prop :=
  (0 <= x p < w) /\ (0 <= y p < h).

(** [a] has [h] rows of [w] cells. *)
Definition grid_dims {A : Type} (a : list (list A)) (w h : Z) : Prop :=
  length a = Z.to_nat h /\ Forall (fun row => length row = Z.to_nat w) a.

(** A map as [_map_fill_from_file] allocates it: the dimensions are
    [unsigned int]s and both arrays have [height] rows of [width] cells. *)
Record map_wf (m : map_s) : Prop := {
  wf_width : 0 <= width m < 2 ^ 32;
  wf_height : 0 <= height m < 2 ^ 32;
  wf_soils : grid_dims (soils m) (width m) (height m);
  wf_costs : grid_dims (costs m) (width m) (height m)
}.

(** The representation invariant of the queue: the ring holds the pending
    part of the history. *)
Record queue_wf (q : t_queue) : Prop := {
  qwf_size : 0 < size q;
  qwf_values : length (values q) = Z.to_nat (size q);
  qwf_first : 0 <= first q <= last q;
  qwf_room : last q - first q <= size q;
  qwf_last : last q = Z.of_nat (length (history q));
  qwf_ring : forall i, first q <= i < last q ->
             values q !! Z.to_nat (i mod size q) = history q !! Z.to_nat i
}.

(** The possible effects of one turn of the neighbour loop on its state. *)
Inductive visit_outcome (w h : Z) (p : position_s) (d : Z * Z)
  : scan_state -> scan_state -> Prop :=
| visit_outside st :
    POSITION_IS_VALID (neighbour p d) w h = false ->
    visit_outcome w h p d st st
| visit_lower cost_min c oq v :
    POSITION_IS_VALID (neighbour p d) w h = true ->
    grid_get c (neighbour p d) = Ok v ->
    v < cost_min ->
    visit_outcome w h p d (cost_min, c, oq) (v, c, oq)
| visit_mark cost_min c q q' c' :
    POSITION_IS_VALID (neighbour p d) w h = true ->
    grid_get c (neighbour p d) = Ok COST_UNDEF ->
    cost_min <= COST_UNDEF ->
    enqueue q (neighbour p d) = Ok q' ->
    grid_set c (neighbour p d) PENDING = Ok c' ->
    visit_outcome w h p d (cost_min, c, Some q) (cost_min, c', Some q')
| visit_keep cost_min c oq v :
    POSITION_IS_VALID (neighbour p d) w h = true ->
    grid_get c (neighbour p d) = Ok v ->
    cost_min <= v ->
    oq = None \/ v <> COST_UNDEF ->
    visit_outcome w h p d (cost_min, c, oq) (cost_min, c, oq).

(** What the neighbour loop over the directions [ds] does: it takes
    [cost_min] and the cost array from [(cost_min, c)] to [(cost_min', c')]
    and marks the cells [new], in this order. *)
Record scan_post (w h : Z) (p : position_s) (ds : list (Z * Z))
  (cost_min : Z) (c : list (list Z)) (oq : option t_queue)
  (cost_min' : Z) (c' : list (list Z)) (oq' : option t_queue)
  (new : list position_s) : Prop := {
  sp_le : cost_min' <= cost_min;
  sp_lower_bound : forall d v,
    d ∈ ds -> POSITION_IS_VALID (neighbour p d) w h = true ->
    grid_get c (neighbour p d) = Ok v -> cost_min' <= v;
  sp_attained :
    cost_min' = cost_min \/
    exists d, d ∈ ds /\ POSITION_IS_VALID (neighbour p d) w h = true /\
              grid_get c (neighbour p d) = Ok cost_min';
  sp_new : forall r, r ∈ new ->
    exists d, d ∈ ds /\ r = neighbour p d /\
              POSITION_IS_VALID r w h = true /\ grid_get c r = Ok COST_UNDEF;
  sp_new_nodup : NoDup new;
  sp_marked : forall r, r ∈ new -> grid_get c' r = Ok PENDING;
  sp_frame : forall r, r ∉ new -> grid_get c' r = grid_get c r;
  sp_queue :
    match oq with
    | None => oq' = None /\ new = [] /\ c' = c
    | Some q =>
        exists q', oq' = Some q' /\ history q' = history q ++ new /\
                   first q' = first q /\ size q' = size q /\
                   last q' = last q + Z.of_nat (length new)
    end;
  sp_all_marked : forall d,
    is_Some oq -> cost_min <= COST_UNDEF ->
    d ∈ ds -> POSITION_IS_VALID (neighbour p d) w h = true ->
    grid_get c (neighbour p d) = Ok COST_UNDEF -> neighbour p d ∈ new;
  sp_dims : forall w' h', grid_dims c w' h' -> grid_dims c' w' h'
}.

(** The cells of a [w] by [h] grid in row-major order ([y] outer, [x]
    inner): the order of the two nested loops of the scans. *)
Definition row_major (w h : Z) : list position_s :=
  seqZ 0 h ≫= (fun cy => (fun cx => mk_position cx cy) <$> seqZ 0 w).

(** The value [_compute_cell_cost] returns for terrain [s] once the loop
    has left [cost_min]. *)
Definition cell_cost (s : soil_e) (cost_min : Z) : Z :=
  if u32 (_soil_cost s) =? 0 then 0 else u32 (cost_min + u32 (_soil_cost s)).

(** The scan of [_get_base_station_pos] over an explicit list of cells. *)
Fixpoint scan_cells (soils : list (list soil_e)) (l : list position_s)
  : result (option position_s) :=
  match l with
  | [] => Ok None
  | p :: l' =>
      try s := grid_get soils p in
      if decide (s = BASE_STATION) then Ok (Some p) else scan_cells soils l'
  end.

(** [o] is the first origin-terrain cell of [m] in row-major order. *)
Definition first_origin (m : map_s) (o : position_s) : Prop :=
  exists before after,
    row_major (width m) (height m) = before ++ o :: after /\
    grid_get (soils m) o = Ok BASE_STATION /\
    forall r, r ∈ before -> grid_get (soils m) r <> Ok BASE_STATION.

Definition no_origin (m : map_s) : Prop :=
  forall r, in_bounds (width m) (height m) r ->
            grid_get (soils m) r <> Ok BASE_STATION.

Definition manhattan (p r : position_s) : Z :=
  Z.abs (x p - x r) + Z.abs (y p - y r).

(** The cost array as [_map_fill_from_file] leaves it. *)
Definition costs_undefined (m : map_s) : Prop :=
  forall r, in_bounds (width m) (height m) r ->
            grid_get (costs m) r = Ok COST_UNDEF.

(** The cell count fits the [int] capacity of the queue. *)
Definition cells_fit (m : map_s) : Prop := width m * height m < 2 ^ 31.

(** Every cost a path through the map can sum up to stays below the two
    sentinels: the data model's "sentinel larger than any real cost". *)
Definition costs_fit (m : map_s) : Prop :=
  10000 * (width m * height m) < COST_UNDEF.

(** One turn of the [while] loop of [_compute_costs]. *)
Definition iteration (m : map_s) (queue : t_queue) : result (map_s * t_queue) :=
  try '(current_pos, queue1) := dequeue queue in
  try '(c, m1, queue2) := _compute_cell_cost m current_pos (Some queue1) in
  try costs' := grid_set (costs m1) current_pos c in
  Ok (with_costs m1 costs', default queue1 queue2).

(** The state the [while] loop has reached after [n] turns, or at its
    exit if it leaves earlier. *)
Fixpoint run_turns (n : nat) (m : map_s) (queue : t_queue)
  : result (map_s * t_queue) :=
  match n with
  | O => Ok (m, queue)
  | S n' =>
      if first queue =? last queue then Ok (m, queue)
      else try '(m', queue') := iteration m queue in run_turns n' m' queue'
  end.

(** The invariant of the [while] loop, as long as every cost written is
    below the two sentinels.  The cells of [history q] before the cursor
    [first q] are settled, the one at the cursor is the next to be
    dequeued, the ones after it are pending. *)
Record bfs_inv (m : map_s) (q : t_queue) : Prop := {
  bi_wf : map_wf m;
  bi_queue : queue_wf q;
  bi_size : size q = width m * height m;
  bi_nodup : NoDup (history q);
  bi_in_bounds : forall r, r ∈ history q -> in_bounds (width m) (height m) r;
  bi_fresh : forall r,
    in_bounds (width m) (height m) r -> r ∉ history q ->
    grid_get (costs m) r = Ok COST_UNDEF;
  bi_pending : forall i r,
    history q !! i = Some r -> first q < Z.of_nat i ->
    grid_get (costs m) r = Ok PENDING;
  bi_settled : forall i r,
    history q !! i = Some r -> Z.of_nat i < first q ->
    exists v, grid_get (costs m) r = Ok v /\ 0 <= v < PENDING;
  bi_parent : forall i r,
    history q !! i = Some r -> first q <= Z.of_nat i ->
    grid_get (soils m) r = Ok BASE_STATION \/
    exists j d, Z.of_nat j < first q /\ d ∈ _direction_vectors /\
                history q !! j = Some (neighbour r d);
  bi_closed : forall i r d,
    history q !! i = Some r -> Z.of_nat i < first q ->
    d ∈ _direction_vectors ->
    POSITION_IS_VALID (neighbour r d) (width m) (height m) = true ->
    neighbour r d ∈ history q
}.

(** The loop invariant when every path cost stays below the sentinels:
    the cell settled by the [i]-th dequeue has a cost of at most
    [10000 * i], and a settled origin-terrain cell has cost 0. *)
Record fit_inv (m : map_s) (q : t_queue) : Prop := {
  fi_inv : bfs_inv m q;
  fi_fit : costs_fit m;
  fi_bound : forall i r v,
    history q !! i = Some r -> Z.of_nat i < first q ->
    grid_get (costs m) r = Ok v -> v <= 10000 * Z.of_nat i;
  fi_base : forall i r,
    history q !! i = Some r -> Z.of_nat i < first q ->
    grid_get (soils m) r = Ok BASE_STATION ->
    grid_get (costs m) r = Ok 0
}.

(** The invariant of the loop of [_compute_costs] that tells what a
    settled cell is to the cells settled after it, a source: the cost of a
    settled cell that is no origin is at least its terrain cost, and at
    most the cost of any neighbour settled before it plus its terrain
    cost. *)
Record source_inv (m : map_s) (q : t_queue) : Prop := {
  so_fit : fit_inv m q;
  so_floor : forall j r s v,
    history q !! j = Some r -> Z.of_nat j < first q ->
    grid_get (soils m) r = Ok s -> s <> BASE_STATION ->
    grid_get (costs m) r = Ok v -> _soil_cost s <= v;
  so_least : forall i j r d s v vn,
    history q !! j = Some r -> Z.of_nat j < first q ->
    history q !! i = Some (neighbour r d) -> (i < j)%nat ->
    d ∈ _direction_vectors ->
    grid_get (soils m) r = Ok s -> s <> BASE_STATION ->
    grid_get (costs m) r = Ok v ->
    grid_get (costs m) (neighbour r d) = Ok vn ->
    v <= vn + _soil_cost s
}.

(** The cost of [p] is the cost of one of its bounds-valid neighbours
    plus the terrain cost of [p]: what the cost of a cell that is terrain
    to cross, and not a source, looks like. *)
Definition derived_from_neighbour (m : map_s) (p : position_s) : Prop :=
  exists d s v vn,
    d ∈ _direction_vectors /\
    POSITION_IS_VALID (neighbour p d) (width m) (height m) = true /\
    grid_get (soils m) p = Ok s /\ grid_get (costs m) p = Ok v /\
    grid_get (costs m) (neighbour p d) = Ok vn /\
    v = u32 (vn + _soil_cost s).

(** [o] is the only origin cell of [m] and every other cell is plain. *)
Definition plain_around (m : map_s) (o : position_s) : Prop :=
  grid_get (soils m) o = Ok BASE_STATION /\
  forall r, in_bounds (width m) (height m) r -> r <> o ->
            grid_get (soils m) r = Ok PLAIN.

(** The loop invariant on such a map: the cells are enqueued in the order
    of their Manhattan distance to the origin, the cells up to the
    distance of the cell at the cursor are all enqueued, and a settled cell
    holds its distance. *)
Record plain_inv (o : position_s) (m : map_s) (q : t_queue) : Prop := {
  pi_inv : bfs_inv m q;
  pi_cells : cells_fit m;
  pi_plain : plain_around m o;
  pi_origin : history q !! 0%nat = Some o;
  pi_cost : forall i r,
    history q !! i = Some r -> Z.of_nat i < first q ->
    grid_get (costs m) r = Ok (manhattan o r);
  pi_sorted : forall i j r r',
    history q !! i = Some r -> history q !! j = Some r' -> (i <= j)%nat ->
    manhattan o r <= manhattan o r';
  pi_span : forall p r,
    history q !! Z.to_nat (first q) = Some p -> r ∈ history q ->
    manhattan o r <= manhattan o p + 1;
  pi_level : forall p r,
    history q !! Z.to_nat (first q) = Some p ->
    in_bounds (width m) (height m) r -> manhattan o r <= manhattan o p ->
    r ∈ history q
}.

(** *** A long strip

    Where path costs reach the sentinels: a map of one row, with the
    origin at its left end. *)

(** The cumulative terrain cost of entering the cells [l] in turn. *)
Definition path_cost (l : list soil_e) : Z :=
  foldr (fun s a => _soil_cost s + a) 0 l.

(** Cell number [i] of row 0. *)
Definition cell (i : nat) : position_s := mk_position (Z.of_nat i) 0.

(** The row made of an origin, the terrain [ts], a dune and a plain
    cell. *)
Definition strip_row (ts : list soil_e) : list soil_e :=
  BASE_STATION :: ts ++ [ERG; PLAIN].

Definition strip_map (ts : list soil_e) : map_s :=
  initial_map 1 (Z.of_nat (length (strip_row ts))) [strip_row ts].

(** 429496 crevasses followed by 7293 plain cells: a path cost of
    [0xFFFFFFFD]. *)
Definition long_strip : list soil_e :=
  replicate (Z.to_nat 429496) CREVASSE ++ replicate (Z.to_nat 7293) PLAIN.

(** The state of the loop on [strip_map ts] after [k] turns, while the
    path costs are below the sentinels: the cells 0 to [k] have been
    enqueued in this order, and the cells before [k] hold the path cost
    from the origin. *)
Record strip_inv (ts : list soil_e) (m : map_s) (q : t_queue) (k : nat)
  : Prop := {
  si_inv : bfs_inv m q;
  si_soils : soils m = [strip_row ts];
  si_width : width m = Z.of_nat (length (strip_row ts));
  si_height : height m = 1;
  si_first : first q = Z.of_nat k;
  si_history : history q = cell <$> seq 0 (S k);
  si_cost : forall i, (i < k)%nat ->
            grid_get (costs m) (cell i) = Ok (path_cost (take i ts))
}.

(** The state of the loop on [strip_map ts] once the dune behind [ts],
    reached at path cost [0xFFFFFFFD], has been dequeued and given the
    cost [0xFFFFFFFD + 2]: the value of [COST_UNDEF]. *)
Record strip_dune_state (ts : list soil_e) (m : map_s) (q : t_queue)
  : Prop := {
  sd_wf : map_wf m;
  sd_soils : soils m = [strip_row ts];
  sd_width : width m = Z.of_nat (length (strip_row ts));
  sd_height : height m = 1;
  sd_queue : queue_wf q;
  sd_size : size q = Z.of_nat (length (strip_row ts));
  sd_history : history q = cell <$> seq 0 (length ts + 3);
  sd_first : first q = Z.of_nat (length ts + 2);
  sd_last : last q = Z.of_nat (length ts + 3);
  sd_before : grid_get (costs m) (cell (length ts)) = Ok 0xFFFFFFFD;
  sd_dune : grid_get (costs m) (cell (length ts + 1)) = Ok COST_UNDEF
}.

(** The state one turn later: the last cell has been dequeued and has
    enqueued the dune a second time. *)
Record strip_plain_state (ts : list soil_e) (m : map_s) (q : t_queue)
  : Prop := {
  sp_wf : map_wf m;
  sp_soils : soils m = [strip_row ts];
  sp_width : width m = Z.of_nat (length (strip_row ts));
  sp_height : height m = 1;
  sp_queue_wf : queue_wf q;
  sp_history :
    history q = (cell <$> seq 0 (length ts + 3)) ++ [cell (length ts + 1)];
  sp_first : first q = Z.of_nat (length ts + 3);
  sp_last : last q = Z.of_nat (length ts + 4);
  sp_before : grid_get (costs m) (cell (length ts)) = Ok 0xFFFFFFFD;
  sp_plain : grid_get (costs m) (cell (length ts + 2)) = Ok 0
}.

(** * The rest of the program

    The rover's moves ([src/moves.c], with the orientation and the
    localisation of [include/loc.h]), the loader of the map file and the
    display ([src/map.c]). *)

(** ** loc.h: orientation and localisation *)

Inductive orientation_e : Type :=
| NORTH
| EAST
| SOUTH
| WEST.

Global Instance orientation_eq_dec : EqDecision orientation_e.
Proof. solve_decision. Defined.

(** The value of an enumerator, and the enumerator of a value in
    [0, 3]. *)
Definition orientation_value (o : orientation_e) : Z :=
  match o with
  | NORTH => 0
  | EAST => 1
  | SOUTH => 2
  | WEST => 3
  end.

Definition orientation_of_value (v : Z) : option orientation_e :=
  match v with
  | 0 => Some NORTH
  | 1 => Some EAST
  | 2 => Some SOUTH
  | 3 => Some WEST
  | _ => None
  end.

Record localisation_s : Type := mk_localisation {
  pos : position_s;
  ori : orientation_e
}.

Definition LOCALISATION_INIT (pos_x pos_y : Z) (orientation : orientation_e)
  : localisation_s :=
  {| pos := {| x := pos_x; y := pos_y |}; ori := orientation |}.

Definition LEFT (position : position_s) : position_s :=
  {| x := u32 (x position - 1); y := y position |}.

Definition RIGHT (position : position_s) : position_s :=
  {| x := u32 (x position + 1); y := y position |}.

Definition UP (position : position_s) : position_s :=
  {| x := x position; y := u32 (y position - 1) |}.

Definition DOWN (position : position_s) : position_s :=
  {| x := x position; y := u32 (y position + 1) |}.

(** ** moves.c *)

(** [moves.h] is not among the sources.  [t_move] has the seven
    enumerators that the [case] labels of [moves.c] name. *)
Inductive t_move : Type :=
| F_10
| F_20
| F_30
| B_10
| T_LEFT
| T_RIGHT
| U_TURN.

(** [rst] is declared without a value and the [default] branch of the
    [switch] leaves it so: for a move that is not a turn the sum reads an
    indeterminate [rst], and there is no result to speak of ([None]). *)
Definition rotate (ori : orientation_e) (move : t_move) : option orientation_e :=
  let rst :=
    match move with
    | T_LEFT => Some 3
    | T_RIGHT => Some 1
    | U_TURN => Some 2
    | _ => None
    end in
  match rst with
  | Some rst => orientation_of_value ((orientation_value ori + rst) mod 4)
  | None => None
  end.

Definition translate (loc : localisation_s) (move : t_move) : localisation_s :=
  let res := pos loc in
  let res :=
    match move with
    | F_10 =>
        match ori loc with
        | NORTH => {| x := x res; y := u32 (y (pos loc) - 1) |}
        | EAST => {| x := u32 (x (pos loc) + 1); y := y res |}
        | SOUTH => {| x := x res; y := u32 (y (pos loc) + 1) |}
        | WEST => {| x := u32 (x (pos loc) - 1); y := y res |}
        end
    | F_20 =>
        match ori loc with
        | NORTH => {| x := x res; y := u32 (y (pos loc) - 2) |}
        | EAST => {| x := u32 (x (pos loc) + 2); y := y res |}
        | SOUTH => {| x := x res; y := u32 (y (pos loc) + 2) |}
        | WEST => {| x := u32 (x (pos loc) - 2); y := y res |}
        end
    | F_30 =>
        match ori loc with
        | NORTH => {| x := x res; y := u32 (y (pos loc) - 3) |}
        | EAST => {| x := u32 (x (pos loc) + 3); y := y res |}
        | SOUTH => {| x := x res; y := u32 (y (pos loc) + 3) |}
        | WEST => {| x := u32 (x (pos loc) - 3); y := y res |}
        end
    | B_10 =>
        match ori loc with
        | NORTH => {| x := x res; y := u32 (y (pos loc) + 1) |}
        | EAST => {| x := u32 (x (pos loc) - 1); y := y res |}
        | SOUTH => {| x := x res; y := u32 (y (pos loc) - 1) |}
        | WEST => {| x := u32 (x (pos loc) + 1); y := y res |}
        end
    | _ => res
    end in
  LOCALISATION_INIT (x res) (y res) (ori loc).

(** [move] stores the result of [rotate] in [new_loc.ori] and then assigns
    the whole of [new_loc] from [translate]: the first store is overwritten
    before anything reads it, and the value returned is that of
    [translate] for every move. *)
Definition move (loc : localisation_s) (move : t_move) : localisation_s :=
  let new_loc_ori := rotate (ori loc) move in
  let new_loc := translate loc move in
  new_loc.

(** [*p_loc = move( *p_loc, m)] *)
Definition updateLocalisation (p_loc : localisation_s) (m : t_move)
  : localisation_s :=
  move p_loc m.

(** ** map.c: reading the map file *)

(** What the next conversion [fscanf(file, "%u", &v)] meets in the
    stream, blanks skipped: digits, which write the number [v], or text
    that is no number. *)
Inductive token : Type :=
| Number (v : Z)
| Junk.

(** An open stream, by what is left to read. *)
Definition FILE : Type := list token.

(** The outcome of one [fscanf(file, "%u", &v)]: a value is stored and the
    stream moves past it; or the text does not match and stays in the
    stream; or the stream is at its end.  What is stored is an
    [unsigned int]: the number read when it is below [2^32].  A number
    that does not fit is reduced modulo [2^32], which is what the C
    library leaves for a number that an [unsigned long] holds; the C
    standard does not define the conversion of such a number. *)
Inductive scanned : Type :=
| Converted (v : Z) (rest : FILE)
| No_match
| End_of_file.

Definition fscanf_u (file : FILE) : scanned :=
  match file with
  | [] => End_of_file
  | Number v :: rest => Converted (u32 v) rest
  | Junk :: _ => No_match
  end.

(** The value [fscanf] returns: the number of conversions, or [EOF]. *)
Definition fscanf_result (s : scanned) : Z :=
  match s with
  | Converted _ _ => 1
  | No_match => 0
  | End_of_file => -1
  end.

(** The variable behind the pointer passed to [fscanf], after the call. *)
Definition stored (variable : Z) (s : scanned) : Z :=
  match s with
  | Converted v _ => v
  | _ => variable
  end.

(** The stream after the call. *)
Definition stream_after (file : FILE) (s : scanned) : FILE :=
  match s with
  | Converted _ rest => rest
  | _ => file
  end.

(** The messages of the loader on [stderr]. *)
Inductive diagnostic : Type :=
| Map_cannot_be_read
| Invalid_map_dimensions
| Map_allocation_error
| Invalid_Map_size
| Map_formatting_error
| Failed_to_load_map_data.

(** [struct map] while the loader builds it: the two arrays are pointers,
    null until [_map_fill_from_file] has succeeded, and a soil is the
    [unsigned int] taken from the file, an enumerator of [soil_e] or
    not. *)
Record file_map : Type := mk_file_map {
  fm_width : Z;
  fm_height : Z;
  fm_soils : option (list (list Z));
  fm_costs : option (list (list Z))
}.

(** [_2d_array_allocation] for elements of the size of an [unsigned int]:
    an array of [dim_y] row pointers, none of them null, each to a row of
    [dim_x] cells.  [available] tells whether the heap grants the request;
    when it does not, its first [malloc] fails.  A request for no byte is
    granted like any other.  Fresh memory holds indeterminate values, 0
    stands for them: the loader stores every cell before anything reads
    it. *)
Definition _2d_array_allocation (available : bool) (dim_y dim_x : Z)
  : option (list (list Z)) :=
  if available
  then Some (replicate (Z.to_nat dim_y) (replicate (Z.to_nat dim_x) 0))
  else None.

(** The loop of [_cleanup_ptr_2d_array_free] over the row pointers from
    [current] on: it frees the rows and stops at a null row pointer.  The
    array has no such entry, and none behind its last row pointer: there
    the loop reads outside of the array. *)
Fixpoint free_rows (rows : list (list Z)) : result unit :=
  match rows with
  | [] => Fail OutOfBounds
  | row :: rows' => free_rows rows'
  end.

(** [ptr] is the variable the cleanup is attached to: null, or an array
    of row pointers. *)
Definition _cleanup_ptr_2d_array_free (ptr : option (list (list Z)))
  : result unit :=
  match ptr with
  | None => Ok tt
  | Some rows => free_rows rows
  end.

(** The inner reading loop of [_map_fill_from_file], over the columns [xs]
    of row [cy]: [inl d] when the function prints [d] and returns -1. *)
Fixpoint read_row (soils : list (list Z)) (cy : Z) (xs : list Z) (file : FILE)
  : result (diagnostic + list (list Z) * FILE) :=
  match xs with
  | [] => Ok (inr (soils, file))
  | cx :: xs' =>
      match fscanf_u file with
      | End_of_file => Ok (inl Invalid_Map_size)
      | No_match => Ok (inl Map_formatting_error)
      | Converted value_current file' =>
          try soils' := grid_set soils (mk_position cx cy) value_current in
          read_row soils' cy xs' file'
      end
  end.

Fixpoint read_rows (soils : list (list Z)) (map_width : Z) (ys : list Z)
  (file : FILE) : result (diagnostic + list (list Z) * FILE) :=
  match ys with
  | [] => Ok (inr (soils, file))
  | cy :: ys' =>
      try r := read_row soils cy (seqZ 0 map_width) file in
      match r with
      | inl d => Ok (inl d)
      | inr (soils', file') => read_rows soils' map_width ys' file'
      end
  end.

(** [memset(row, c, n)] on a row of [unsigned int]s, for [n] a multiple of
    their size: each of the first [n / 4] is made of four bytes [c]. *)
Definition memset (row : list Z) (c : Z) (n : Z) : result (list Z) :=
  if n / 4 <=? Z.of_nat (length row)
  then Ok (replicate (Z.to_nat (n / 4)) (c * 0x01010101)
           ++ drop (Z.to_nat (n / 4)) row)
  else Fail OutOfBounds.

(** What happens at a [return] of [_map_fill_from_file]: the cleanups
    attached to [costs] and to [soils] run, in this order, on what the two
    variables hold. *)
Definition leave {A : Type} (soils costs : option (list (list Z))) (value : A)
  : result A :=
  try freed_costs := _cleanup_ptr_2d_array_free costs in
  try freed_soils := _cleanup_ptr_2d_array_free soils in
  Ok value.

(** [inl d]: the function prints [d] and returns -1, the map is as it was;
    [inr map']: it returns 0 and has set the two arrays of the map, its
    own two variables being null by then. *)
Definition _map_fill_from_file (map : file_map) (file : FILE)
  (soils_available costs_available : bool) : result (diagnostic + file_map) :=
  let map_height := fm_height map in
  let map_width := fm_width map in
  match _2d_array_allocation soils_available map_height map_width with
  | None => leave None None (inl Map_allocation_error)
  | Some soils =>
      match _2d_array_allocation costs_available map_height map_width with
      | None => leave (Some soils) None (inl Map_allocation_error)
      | Some costs =>
          try r := read_rows soils map_width (seqZ 0 map_height) file in
          match r with
          | inl d => leave (Some soils) (Some costs) (inl d)
          | inr (soils', _) =>
              try costs' :=
                for_each
                  (fun costs i =>
                     try row := array_get costs i in
                     try row' := memset row 0xFF (map_width * 4) in
                     array_set costs i row')
                  (seqZ 0 map_height) costs in
              leave None None
                (inr {| fm_width := map_width; fm_height := map_height;
                        fm_soils := Some soils'; fm_costs := Some costs' |})
          end
      end
  end.

(** [map_from_file] up to the call of [_compute_costs]; [file] is [None]
    when [fopen] fails.  [inl (log, map)]: the function returns [map]
    early, having printed [log]; [inr map]: the map is loaded and the two
    passes are next. *)
Definition map_from_file_read (file : option FILE)
  (soils_available costs_available : bool)
  : result (list diagnostic * file_map + file_map) :=
  let map := {| fm_width := 0; fm_height := 0; fm_soils := None; fm_costs := None |} in
  match file with
  | None => Ok (inl ([Map_cannot_be_read], map))
  | Some file =>
      let s := fscanf_u file in
      let map := {| fm_width := fm_width map; fm_height := stored (fm_height map) s;
                    fm_soils := fm_soils map; fm_costs := fm_costs map |} in
      let file := stream_after file s in
      if fscanf_result s =? 0 then Ok (inl ([Invalid_map_dimensions], map))
      else
        let s := fscanf_u file in
        let map := {| fm_width := stored (fm_width map) s; fm_height := fm_height map;
                      fm_soils := fm_soils map; fm_costs := fm_costs map |} in
        let file := stream_after file s in
        if fscanf_result s =? 0 then Ok (inl ([Invalid_map_dimensions], map))
        else
          try r := _map_fill_from_file map file soils_available costs_available in
          match r with
          | inl d => Ok (inl ([d; Failed_to_load_map_data], map))
          | inr map' => Ok (inr map')
          end
  end.

(** ** map.c: the display *)

(** The table [display] of [map_display], as bytes. *)
Definition display : list (list Z) :=
  [[32; 32; 32]; [45; 45; 45]; [126; 126; 126]; [94; 94; 94]; [219; 219; 219]].

(** The body of the inner loop of [map_display]: the three bytes written
    for column [cx] of display row [cy]. *)
Definition display_cell (map_soil : list (list Z)) (cy cx : Z) : result (list Z) :=
  try soil_current := grid_get map_soil (mk_position cx (cy / 3)) in
  if 4 <? soil_current then Ok [63; 63; 63]
  else if (soil_current =? 0) && (cy mod 3 =? 1) then Ok [32; 66; 32]
  else array_get display soil_current.

(** [map_display]: the bytes written to the standard output.  A null
    [soils] is an array without cells. *)
Definition map_display (map : file_map) : result (list Z) :=
  let map_display_width := fm_width map in
  let map_display_height := u32 (fm_height map * 3) in
  let map_soil := default [] (fm_soils map) in
  for_each
    (fun out cy =>
       try out' :=
         for_each
           (fun out cx =>
              try bytes := display_cell map_soil cy cx in Ok (out ++ bytes))
           (seqZ 0 map_display_width) out in
       Ok (out' ++ [10]))
    (seqZ 0 map_display_height) [].

(** ** Specification vocabulary for the rest of the program *)

(** The direction vector of [_direction_vectors] that points where a
    rover of orientation [o] faces. *)
Definition facing (o : orientation_e) : Z * Z :=
  match o with
  | NORTH => (0, -1)
  | EAST => (1, 0)
  | SOUTH => (0, 1)
  | WEST => (-1, 0)
  end.

Definition opposite (o : orientation_e) : orientation_e :=
  match o with
  | NORTH => SOUTH
  | EAST => WEST
  | SOUTH => NORTH
  | WEST => EAST
  end.

Definition is_turn (m : t_move) : Prop := m = T_LEFT \/ m = T_RIGHT \/ m = U_TURN.

(** The coordinates are [unsigned int]s. *)
Definition localisation_wf (loc : localisation_s) : Prop :=
  0 <= x (pos loc) < 2 ^ 32 /\ 0 <= y (pos loc) < 2 ^ 32.

(** The signed length of the step a move makes along the orientation. *)
Definition step_length (m : t_move) : Z :=
  match m with
  | F_10 => 1
  | F_20 => 2
  | F_30 => 3
  | B_10 => -1
  | _ => 0
  end.

(** Where the move leads on the unbounded integer plane. *)
Definition target (loc : localisation_s) (m : t_move) : position_s :=
  {| x := x (pos loc) + step_length m * fst (facing (ori loc));
     y := y (pos loc) + step_length m * snd (facing (ori loc)) |}.

(** The enumerator of [soil_e] of a value. *)
Definition soil_of_value (v : Z) : option soil_e :=
  match v with
  | 0 => Some BASE_STATION
  | 1 => Some PLAIN
  | 2 => Some ERG
  | 3 => Some REG
  | 4 => Some CREVASSE
  | _ => None
  end.

Definition soil_value (s : soil_e) : Z :=
  match s with
  | BASE_STATION => 0
  | PLAIN => 1
  | ERG => 2
  | REG => 3
  | CREVASSE => 4
  end.

(** The map the cost engine works on, when the two arrays are there and
    every soil is an enumerator. *)
Definition typed_map (fm : file_map) : option map_s :=
  soils ← fm_soils fm;
  costs ← fm_costs fm;
  terrain ← mapM (mapM soil_of_value) soils;
  Some {| width := fm_width fm; height := fm_height fm;
          soils := terrain; costs := costs |}.

(** The first [k] rows of [w] values cut from [vs]. *)
Fixpoint rows_of {A : Type} (w : nat) (k : nat) (vs : list A) : list (list A) :=
  match k with
  | O => []
  | S k' => take w vs :: rows_of w k' (drop w vs)
  end.


(** The three bytes [map_display] writes for a soil, on the middle line
    of the three of a map row or on another. *)
Definition glyph (middle : bool) (soil : Z) : list Z :=
  if 4 <? soil then [63; 63; 63]
  else if (soil =? 0) && middle then [32; 66; 32]
  else default [] (display !! Z.to_nat soil).

(** One line of the display of a map row. *)
Definition display_line (middle : bool) (row : list Z) : list Z :=
  (row ≫= glyph middle) ++ [10].

(** The display of a soil array: three lines a row. *)
Definition render (soils : list (list Z)) : list Z :=
  soils ≫= (fun row =>
    display_line false row ++ display_line true row ++ display_line false row).


(** The bytes of [l] that are the letter B. *)
Definition letters_B (l : list Z) : list Z := filter (fun b => b = 66) l.

(** The cells of [row] that hold the value of [BASE_STATION]. *)
Definition base_stations (row : list Z) : list Z := filter (fun v => v = 0) row.

(** What the loop of [_compute_costs] relies on to stay inside the arrays,
    whatever the costs are: the coordinates waiting in the queue are cells
    of the map. *)
Record safe_inv (m : map_s) (q : t_queue) : Prop := {
  sf_wf : map_wf m;
  sf_queue : queue_wf q;
  sf_pending : forall i r,
    history q !! i = Some r -> first q <= Z.of_nat i ->
    in_bounds (width m) (height m) r
}.

(** [route w h soils p c]: a walk along bounds-valid neighbour steps leads
    from an origin-terrain cell to [p], and the terrain costs of the cells
    it enters add up to [c]. *)
Inductive route (w h : Z) (soils : list (list soil_e)) : position_s -> Z -> Prop :=
| route_origin p :
    in_bounds w h p -> grid_get soils p = Ok BASE_STATION ->
    route w h soils p 0
| route_enter r c d s :
    route w h soils r c -> d ∈ _direction_vectors ->
    POSITION_IS_VALID (neighbour r d) w h = true ->
    grid_get soils (neighbour r d) = Ok s ->
    route w h soils (neighbour r d) (c + _soil_cost s).

(** The invariant of the loop of [_compute_costs] that keeps track of
    where the costs come from: the cost of a settled cell is the cost of a
    walk from an origin-terrain cell, and, unless the cell is one itself,
    the cost of a neighbour settled before it plus its own terrain cost. *)
Record route_inv (m : map_s) (q : t_queue) : Prop := {
  ri_fit : fit_inv m q;
  ri_route : forall i r v,
    history q !! i = Some r -> Z.of_nat i < first q ->
    grid_get (costs m) r = Ok v ->
    route (width m) (height m) (soils m) r v;
  ri_parent : forall i r s v,
    history q !! i = Some r -> Z.of_nat i < first q ->
    grid_get (soils m) r = Ok s -> s <> BASE_STATION ->
    grid_get (costs m) r = Ok v ->
    exists j d vn,
      Z.of_nat j < first q /\ d ∈ _direction_vectors /\
      history q !! j = Some (neighbour r d) /\
      grid_get (costs m) (neighbour r d) = Ok vn /\ v = vn + _soil_cost s
}.

(** A cost array in which every cost is accounted for: each is the cost
    of a walk from an origin-terrain cell, an origin-terrain cell costs 0,
    and any other cell costs at least what one of its neighbours costs
    plus its own terrain. *)
Record justified (m : map_s) : Prop := {
  ju_wf : map_wf m;
  ju_fit : costs_fit m;
  ju_route : forall r,
    in_bounds (width m) (height m) r ->
    exists v, grid_get (costs m) r = Ok v /\
              v <= 10000 * (width m * height m - 1) /\
              route (width m) (height m) (soils m) r v;
  ju_base : forall r,
    grid_get (soils m) r = Ok BASE_STATION -> grid_get (costs m) r = Ok 0;
  ju_parent : forall r s v,
    grid_get (soils m) r = Ok s -> s <> BASE_STATION ->
    grid_get (costs m) r = Ok v ->
    exists d vn,
      d ∈ _direction_vectors /\
      POSITION_IS_VALID (neighbour r d) (width m) (height m) = true /\
      grid_get (costs m) (neighbour r d) = Ok vn /\ vn + _soil_cost s <= v
}.

(** * Properties *)

(** ** The result monad *)

Lemma bind_Ok {A B : Type} (r : result A) (k : A -> result B) (b : B) :
  bind r k = Ok b <-> exists a, r = Ok a /\ k a = Ok b.
Proof.
  destruct r as [a|f]; simpl; split.
  - eauto.
  - intros (a' & [= <-] & H); exact H.
  - discriminate.
  - intros (a' & [=] & _).
Qed.

Ltac inv_bind H :=
  let a := fresh "a" in
  let Ha := fresh "Ha" in
  apply bind_Ok in H; destruct H as (a & Ha & H).

(** ** Arrays *)

Section arrays.
Context {A : Type}.
Implicit Types (a : list A).

Lemma array_get_Ok a i v :
  array_get a i = Ok v <-> 0 <= i /\ a !! Z.to_nat i = Some v.
Proof.
  unfold array_get. destruct (Z.ltb_spec i 0).
  - split; [discriminate | lia].
  - destruct (a !! Z.to_nat i) eqn:E; split.
    + intros [= ->]. done.
    + intros [_ [= ->]]. done.
    + discriminate.
    + intros [_ [=]].
Qed.

Lemma array_set_Ok a i v a' :
  array_set a i v = Ok a' <->
  0 <= i < Z.of_nat (length a) /\ a' = <[Z.to_nat i := v]> a.
Proof.
  unfold array_set.
  destruct (Z.leb_spec 0 i), (Z.ltb_spec i (Z.of_nat (length a))); simpl;
    split; try discriminate; try lia; try (intros [= <-]; split; [lia|done]).
  intros [_ ->]; done.
Qed.

End arrays.

Section grids.
Context {A : Type}.
Implicit Types (g : list (list A)) (p r : position_s).

Lemma grid_get_Ok g p v :
  grid_get g p = Ok v <->
  0 <= x p /\ 0 <= y p /\
  exists row, g !! Z.to_nat (y p) = Some row /\ row !! Z.to_nat (x p) = Some v.
Proof.
  unfold grid_get. rewrite bind_Ok. split.
  - intros (row & (Hy & Hrow)%array_get_Ok & (Hx & Hv)%array_get_Ok). eauto 6.
  - intros (Hx & Hy & row & Hrow & Hv).
    exists row. split; apply array_get_Ok; done.
Qed.

Lemma grid_set_Ok g p v g' :
  grid_set g p v = Ok g' <->
  0 <= x p /\ 0 <= y p /\
  exists row, g !! Z.to_nat (y p) = Some row /\
              x p < Z.of_nat (length row) /\
              g' = <[Z.to_nat (y p) := <[Z.to_nat (x p) := v]> row]> g.
Proof.
  unfold grid_set. rewrite bind_Ok. split.
  - intros (row & (Hy & Hrow)%array_get_Ok & H).
    apply bind_Ok in H as (row' & (Hx & ->)%array_set_Ok & (Hy' & ->)%array_set_Ok).
    split; [lia|]. split; [lia|]. exists row. split; [done|]. split; [lia|done].
  - intros (Hx & Hy & row & Hrow & Hlen & ->).
    exists row. split; [by apply array_get_Ok|]. apply bind_Ok. eexists.
    split; apply array_set_Ok; (split; [|done]); [lia|].
    apply lookup_lt_Some in Hrow. lia.
Qed.

Lemma grid_get_in_bounds g w h p v :
  grid_dims g w h -> grid_get g p = Ok v -> in_bounds w h p.
Proof.
  intros [Hh Hw] (Hx & Hy & row & Hrow & Hv)%grid_get_Ok.
  pose proof (lookup_lt_Some _ _ _ Hrow) as Hlt.
  rewrite Forall_forall in Hw.
  pose proof (Hw row (list_elem_of_lookup_2 _ _ _ Hrow)) as Hlen.
  pose proof (lookup_lt_Some _ _ _ Hv) as Hlt'.
  unfold in_bounds. lia.
Qed.

Lemma grid_get_is_Ok g w h p :
  grid_dims g w h -> in_bounds w h p -> exists v, grid_get g p = Ok v.
Proof.
  intros [Hh Hw] [Hx Hy].
  destruct (lookup_lt_is_Some_2 g (Z.to_nat (y p))) as [row Hrow]; [lia|].
  rewrite Forall_forall in Hw.
  pose proof (Hw row (list_elem_of_lookup_2 _ _ _ Hrow)) as Hlen.
  destruct (lookup_lt_is_Some_2 row (Z.to_nat (x p))) as [v Hv]; [lia|].
  exists v. apply grid_get_Ok. split; [lia|]. split; [lia|]. eauto.
Qed.

Lemma grid_set_is_Ok g w h p v :
  grid_dims g w h -> in_bounds w h p -> exists g', grid_set g p v = Ok g'.
Proof.
  intros [Hh Hw] [Hx Hy].
  destruct (lookup_lt_is_Some_2 g (Z.to_nat (y p))) as [row Hrow]; [lia|].
  rewrite Forall_forall in Hw.
  pose proof (Hw row (list_elem_of_lookup_2 _ _ _ Hrow)) as Hlen.
  eexists. apply grid_set_Ok.
  split; [lia|]. split; [lia|]. exists row. split; [done|]. split; [lia|done].
Qed.

Lemma grid_set_dims g w h p v g' :
  grid_dims g w h -> grid_set g p v = Ok g' -> grid_dims g' w h.
Proof.
  intros [Hh Hw] (Hx & Hy & row & Hrow & Hlen & ->)%grid_set_Ok.
  split; [by rewrite length_insert|].
  apply Forall_insert; [done|]. rewrite length_insert.
  rewrite Forall_forall in Hw. apply Hw. by eapply list_elem_of_lookup_2.
Qed.

Lemma grid_get_set_eq g p v g' :
  grid_set g p v = Ok g' -> grid_get g' p = Ok v.
Proof.
  intros (Hx & Hy & row & Hrow & Hlen & ->)%grid_set_Ok.
  apply grid_get_Ok. split; [done|]. split; [done|].
  exists (<[Z.to_nat (x p) := v]> row). split.
  - apply list_lookup_insert_eq. by eapply lookup_lt_Some.
  - apply list_lookup_insert_eq. lia.
Qed.

Lemma grid_get_set_ne g p v g' r :
  grid_set g p v = Ok g' -> r <> p -> grid_get g' r = grid_get g r.
Proof.
  intros (Hx & Hy & row & Hrow & Hlen & ->)%grid_set_Ok Hne.
  unfold grid_get, array_get.
  destruct (Z.ltb_spec (y r) 0); [done|].
  destruct (decide (Z.to_nat (y r) = Z.to_nat (y p))) as [Hy'|Hy'].
  - rewrite Hy', list_lookup_insert_eq by (by eapply lookup_lt_Some).
    rewrite Hrow. simpl.
    destruct (Z.ltb_spec (x r) 0); [done|].
    rewrite list_lookup_insert_ne; [done|].
    intros Hx'. apply Hne. destruct r, p; simpl in *. f_equal; lia.
  - by rewrite list_lookup_insert_ne.
Qed.
End grids.

(** ** The queue *)

Lemma mod_ring_ne (s a b : Z) : 0 < s -> 0 < b - a < s -> a mod s <> b mod s.
Proof.
  intros Hs Hab Heq.
  assert ((b - a) mod s = 0) as H0.
  { rewrite Zminus_mod, Heq, Z.sub_diag. by apply Z.mod_0_l, Z.neq_sym, Z.lt_neq. }
  rewrite Z.mod_small in H0; lia.
Qed.

Lemma createQueue_wf (sz : Z) : 0 < sz -> queue_wf (createQueue sz).
Proof.
  intros Hsz. split; simpl; try lia.
  by rewrite length_replicate.
Qed.

Lemma enqueue_Ok (q q' : t_queue) (v : position_s) :
  enqueue q v = Ok q' ->
  history q' = history q ++ [v] /\ first q' = first q /\
  size q' = size q /\ last q' = last q + 1.
Proof.
  unfold enqueue. destruct (_ <? _); [|discriminate].
  intros H. inv_bind H. by injection H as <-.
Qed.

Lemma enqueue_wf (q : t_queue) (v : position_s) :
  queue_wf q -> last q - first q < size q ->
  exists q', enqueue q v = Ok q' /\ queue_wf q'.
Proof.
  intros [Hs Hv Hf Hr Hl Hring] Hroom. unfold enqueue.
  destruct (Z.ltb_spec (last q - first q) (size q)); [|lia].
  pose proof (Z.mod_pos_bound (last q) (size q) Hs) as Hmod.
  eexists. split.
  { apply bind_Ok. eexists. split; [|done].
    apply array_set_Ok. split; [lia|done]. }
  split; simpl; try lia.
  - by rewrite length_insert.
  - rewrite length_app. simpl. lia.
  - intros i Hi. destruct (decide (i = last q)) as [->|Hne].
    + rewrite list_lookup_insert_eq by lia.
      rewrite lookup_app_r by lia.
      replace (Z.to_nat (last q) - length (history q))%nat with 0%nat by lia.
      done.
    + rewrite list_lookup_insert_ne.
      * rewrite Hring by lia. rewrite lookup_app_l by lia. done.
      * intros Heq. apply (mod_ring_ne (size q) i (last q)); [lia|lia|].
        pose proof (Z.mod_pos_bound i (size q) Hs). lia.
Qed.

Lemma dequeue_Ok (q q' : t_queue) (p : position_s) :
  dequeue q = Ok (p, q') ->
  history q' = history q /\ first q' = first q + 1 /\
  size q' = size q /\ last q' = last q /\ values q' = values q.
Proof.
  unfold dequeue. destruct (_ =? _); [discriminate|].
  intros H. inv_bind H. by injection H as <- <-.
Qed.

Lemma dequeue_wf (q : t_queue) :
  queue_wf q -> first q <> last q ->
  exists p q', dequeue q = Ok (p, q') /\ queue_wf q' /\
               history q !! Z.to_nat (first q) = Some p.
Proof.
  intros [Hs Hv Hf Hr Hl Hring] Hne. unfold dequeue.
  destruct (Z.eqb_spec (first q) (last q)); [done|].
  destruct (lookup_lt_is_Some_2 (history q) (Z.to_nat (first q))) as [p Hp]; [lia|].
  pose proof (Z.mod_pos_bound (first q) (size q) Hs) as Hmod.
  exists p. eexists. split; [|split; [|done]].
  { apply bind_Ok. exists p. split; [|done].
    apply array_get_Ok. split; [lia|]. rewrite Hring by lia. done. }
  split; simpl; try lia. intros i Hi. apply Hring. lia.
Qed.

(** ** The neighbour loop *)

Lemma visit_neighbour_Ok w h p st d st' :
  visit_neighbour w h p st d = Ok st' <-> visit_outcome w h p d st st'.
Proof.
  split.
  - destruct st as [[cost_min c] oq]. unfold visit_neighbour.
    change {| x := u32 (x p + fst d); y := u32 (y p + snd d) |}
      with (neighbour p d).
    destruct (POSITION_IS_VALID _ _ _) eqn:Hvalid.
    2:{ intros [= <-]. by constructor. }
    intros H. inv_bind H. rename a into v.
    destruct (Z.ltb_spec v cost_min).
    { injection H as <-. by constructor. }
    destruct oq as [q|].
    2:{ injection H as <-. eapply visit_keep; eauto. }
    destruct (Z.eqb_spec v COST_UNDEF) as [->|Hne].
    2:{ injection H as <-. eapply visit_keep; eauto. }
    inv_bind H. inv_bind H. injection H as <-. by eapply visit_mark.
  - intros [[[cost_min c] oq] Hv
           | cost_min c oq v Hv Hg Hlt
           | cost_min c q q' c' Hv Hg Hle Henq Hset
           | cost_min c oq v Hv Hg Hle Hkeep];
      unfold visit_neighbour;
      change {| x := u32 (x p + fst d); y := u32 (y p + snd d) |}
        with (neighbour p d);
      rewrite Hv; [done|..]; rewrite Hg; simpl.
    + by destruct (Z.ltb_spec v cost_min); [|lia].
    + destruct (Z.ltb_spec COST_UNDEF cost_min); [lia|]. simpl.
      rewrite Henq. simpl. unfold PENDING in Hset. rewrite Hset. done.
    + destruct (Z.ltb_spec v cost_min); [lia|].
      destruct oq as [q|]; [|done].
      destruct (Z.eqb_spec v COST_UNDEF); [|done].
      destruct Hkeep; done.
Qed.

Lemma for_each_cons {S A : Type} (body : S -> A -> result S) a l s s' :
  for_each body (a :: l) s = Ok s' <->
  exists s1, body s a = Ok s1 /\ for_each body l s1 = Ok s'.
Proof. simpl. apply bind_Ok. Qed.

Lemma for_each_app {S A : Type} (body : S -> A -> result S) l1 l2 s :
  for_each body (l1 ++ l2) s =
  bind (for_each body l1 s) (for_each body l2).
Proof.
  revert s. induction l1 as [|a l1 IH]; intros s; simpl; [done|].
  destruct (body s a); simpl; [apply IH|done].
Qed.

Lemma scan_neighbours_post w h p ds cost_min c oq cost_min' c' oq' :
  NoDup (neighbour p <$> ds) ->
  for_each (visit_neighbour w h p) ds (cost_min, c, oq) = Ok (cost_min', c', oq') ->
  exists new, scan_post w h p ds cost_min c oq cost_min' c' oq' new.
Proof.
  revert cost_min c oq. induction ds as [|d ds IH]; intros cost_min c oq Hnd Hrun.
  { injection Hrun as <- <- <-. exists []. split.
    - done.
    - by intros d v Hd%elem_of_nil.
    - by left.
    - by intros r Hr%elem_of_nil.
    - constructor.
    - by intros r Hr%elem_of_nil.
    - done.
    - destruct oq as [q|]; [|done]. exists q. rewrite app_nil_r. simpl.
      split; [done|]. split; [done|]. split; [done|]. split; [done|]. lia.
    - by intros d _ _ Hd%elem_of_nil.
    - done. }
  rewrite fmap_cons in Hnd. apply NoDup_cons in Hnd as [Hfresh Hnd].
  apply for_each_cons in Hrun as ([[cost_min1 c1] oq1] & Hvisit & Hrun).
  destruct (IH _ _ _ Hnd Hrun) as [new' Hpost]. clear IH Hrun.
  apply visit_neighbour_Ok in Hvisit.
  assert (forall d', d' ∈ ds -> neighbour p d' <> neighbour p d) as Hother.
  { intros d' Hd' Heq. apply Hfresh. rewrite <- Heq.
    apply list_elem_of_fmap. eauto. }
  destruct Hpost as [Hle Hlb Hatt Hnew Hnodup Hmarked Hframe Hqueue Hall Hdims].
  inversion Hvisit as
      [st Hv
      | cm0 c0 oq0 v Hv Hg Hlt
      | cm0 c0 q q1 c0' Hv Hg Hcm Henq Hset
      | cm0 c0 oq0 v Hv Hg Hcm Hkeep]; subst; clear Hvisit.
  - (* the neighbour is outside of the map *)
    exists new'. split; try done.
    + intros d' v [->|Hd']%elem_of_cons Hv' Hg; [congruence|eauto].
    + destruct Hatt as [?|(d' & ? & ? & ?)]; [by left|right].
      exists d'. split; [by apply elem_of_cons; right|done].
    + intros r Hr. destruct (Hnew r Hr) as (d' & ? & ? & ? & ?).
      exists d'. split; [by apply elem_of_cons; right|done].
    + intros d' Hq Hcm [->|Hd']%elem_of_cons Hv' Hg; [congruence|eauto].
  - (* its cost lowers [cost_min] *)
    exists new'. split; try done.
    + lia.
    + intros d' v' [->|Hd']%elem_of_cons Hv' Hg'; [|eauto].
      rewrite Hg in Hg'. injection Hg' as <-. done.
    + destruct Hatt as [->|(d' & ? & ? & ?)]; right.
      * exists d. split; [by apply elem_of_cons; left|done].
      * exists d'. split; [by apply elem_of_cons; right|done].
    + intros r Hr. destruct (Hnew r Hr) as (d' & ? & ? & ? & ?).
      exists d'. split; [by apply elem_of_cons; right|done].
    + intros d' Hq Hcm [->|Hd']%elem_of_cons Hv' Hg'.
      * rewrite Hg in Hg'. injection Hg' as ->. lia.
      * apply Hall; try done. lia.
  - (* it is undefined: enqueued and marked *)
    assert (forall r, r <> neighbour p d -> grid_get c1 r = grid_get c r) as Hc1.
    { intros r Hr. by eapply grid_get_set_ne. }
    assert (neighbour p d ∉ new') as Hnotin.
    { intros Hin. destruct (Hnew _ Hin) as (d' & Hd' & Heq & _).
      by eapply Hother. }
    exists (neighbour p d :: new'). split.
    + done.
    + intros d' v' [->|Hd']%elem_of_cons Hv' Hg'.
      * rewrite Hg in Hg'. injection Hg' as <-. lia.
      * eapply Hlb; try done. rewrite Hc1; [done|by apply Hother].
    + destruct Hatt as [->|(d' & Hd' & ? & Hg')]; [by left|right].
      exists d'. split; [by apply elem_of_cons; right|]. split; [done|].
      rewrite <- Hc1; [done|by apply Hother].
    + intros r [->|Hr]%elem_of_cons.
      * exists d. split; [by apply elem_of_cons; left|done].
      * destruct (Hnew r Hr) as (d' & Hd' & -> & ? & Hg').
        exists d'. split; [by apply elem_of_cons; right|].
        split; [done|]. split; [done|].
        rewrite <- Hc1; [done|by apply Hother].
    + by constructor.
    + intros r [->|Hr]%elem_of_cons; [|by apply Hmarked].
      rewrite Hframe by done. by eapply grid_get_set_eq.
    + intros r [Hne Hr]%not_elem_of_cons. rewrite Hframe by done. by apply Hc1.
    + destruct Hqueue as (q' & -> & Hhist & Hfirst & Hsize & Hlast).
      apply enqueue_Ok in Henq as (Hh1 & Hf1 & Hs1 & Hl1).
      exists q'. split; [done|].
      rewrite Hhist, Hh1, <- app_assoc, Hfirst, Hsize, Hlast. simpl.
      split; [done|]. split; [done|]. split; [done|]. lia.
    + intros d' Hq Hcm' [->|Hd']%elem_of_cons Hv' Hg'.
      * by apply elem_of_cons; left.
      * apply elem_of_cons; right. apply Hall; try done.
        rewrite Hc1; [done|by apply Hother].
    + intros w' h' Hd. eapply Hdims, grid_set_dims; done.
  - (* it is left alone *)
    exists new'. split; try done.
    + intros d' v' [->|Hd']%elem_of_cons Hv' Hg'; [|eauto].
      rewrite Hg in Hg'. injection Hg' as <-. lia.
    + destruct Hatt as [?|(d' & ? & ? & ?)]; [by left|right].
      exists d'. split; [by apply elem_of_cons; right|done].
    + intros r Hr. destruct (Hnew r Hr) as (d' & ? & ? & ? & ?).
      exists d'. split; [by apply elem_of_cons; right|done].
    + intros d' Hq Hcm' [->|Hd']%elem_of_cons Hv' Hg'; [|eauto].
      rewrite Hg in Hg'. injection Hg' as ->.
      destruct Hkeep as [->|?]; [by destruct Hq|done].
Qed.

(** ** Neighbours and validity *)

Ltac solve_u32 :=
  unfold u32 in *; simpl in *; Z.div_mod_to_equations; lia.

Lemma u32_range z : 0 <= u32 z < 2 ^ 32.
Proof. unfold u32. apply Z.mod_pos_bound. lia. Qed.

Lemma u32_small z : 0 <= z < 2 ^ 32 -> u32 z = z.
Proof. intros. unfold u32. by apply Z.mod_small. Qed.

Lemma soil_cost_range s : 0 <= _soil_cost s <= 10000.
Proof. destruct s; simpl; lia. Qed.

Lemma u32_soil_cost s : u32 (_soil_cost s) = _soil_cost s.
Proof. apply u32_small. pose proof (soil_cost_range s). lia. Qed.

Lemma soil_cost_zero s : _soil_cost s = 0 <-> s = BASE_STATION.
Proof. destruct s; simpl; split; (done || lia). Qed.

Lemma position_eq p r : x p = x r -> y p = y r -> p = r.
Proof. destruct p, r; simpl; congruence. Qed.

Lemma valid_in_bounds w h p d :
  POSITION_IS_VALID (neighbour p d) w h = true -> in_bounds w h (neighbour p d).
Proof.
  unfold POSITION_IS_VALID. intros [Hx Hy]%andb_true_iff.
  apply Z.ltb_lt in Hx, Hy. unfold in_bounds.
  pose proof (u32_range (x p + fst d)). pose proof (u32_range (y p + snd d)).
  simpl in *. lia.
Qed.

Lemma in_bounds_valid w h p :
  in_bounds w h p -> POSITION_IS_VALID p w h = true.
Proof.
  intros [Hx Hy]. unfold POSITION_IS_VALID. apply andb_true_iff.
  split; apply Z.ltb_lt; lia.
Qed.

Lemma neighbour_ne p d :
  0 <= x p < 2 ^ 32 -> 0 <= y p < 2 ^ 32 ->
  d ∈ _direction_vectors -> neighbour p d <> p.
Proof.
  intros Hx Hy Hd Heq. apply (f_equal x) in Heq as Hx'.
  apply (f_equal y) in Heq as Hy'. clear Heq. unfold neighbour in *.
  repeat (apply elem_of_cons in Hd as [->|Hd]); [..|by apply elem_of_nil in Hd];
    solve_u32.
Qed.

Lemma neighbours_NoDup p :
  0 <= x p < 2 ^ 32 -> 0 <= y p < 2 ^ 32 ->
  NoDup (neighbour p <$> _direction_vectors).
Proof.
  intros Hx Hy. unfold _direction_vectors. rewrite !fmap_cons, fmap_nil.
  repeat (apply NoDup_cons; split); [..|constructor];
    rewrite ?not_elem_of_cons; repeat split; try apply not_elem_of_nil;
    intros Heq; apply (f_equal x) in Heq as Hx'; apply (f_equal y) in Heq as Hy';
    clear Heq; unfold neighbour in *; solve_u32.
Qed.

(** A step that would leave the grid through row 0 or column 0 wraps to a
    coordinate that no [unsigned int] dimension exceeds. *)
Lemma underflow_rejected w h p d :
  0 <= w < 2 ^ 32 -> 0 <= h < 2 ^ 32 ->
  0 <= x p < 2 ^ 32 -> 0 <= y p < 2 ^ 32 ->
  d ∈ _direction_vectors ->
  x p + fst d < 0 \/ y p + snd d < 0 ->
  (x (neighbour p d) = 0xFFFFFFFF \/ y (neighbour p d) = 0xFFFFFFFF) /\
  POSITION_IS_VALID (neighbour p d) w h = false.
Proof.
  intros Hw Hh Hx Hy Hd Hunder.
  assert (x (neighbour p d) = 0xFFFFFFFF \/ y (neighbour p d) = 0xFFFFFFFF) as H.
  { unfold neighbour.
    repeat (apply elem_of_cons in Hd as [->|Hd]); [..|by apply elem_of_nil in Hd];
      simpl in *; try lia.
    - left. replace (x p) with 0 by lia. done.
    - right. replace (y p) with 0 by lia. done. }
  split; [done|]. unfold POSITION_IS_VALID. apply andb_false_iff.
  destruct H as [-> | ->]; [left|right]; apply Z.ltb_ge; lia.
Qed.

(** ** [_compute_cell_cost] *)

Lemma compute_cell_cost_Ok m p oq v m' oq' :
  _compute_cell_cost m p oq = Ok (v, m', oq') <->
  exists s cost_min c',
    grid_get (soils m) p = Ok s /\
    for_each (visit_neighbour (width m) (height m) p) _direction_vectors
             (0xFFFFFFFF, costs m, oq) = Ok (cost_min, c', oq') /\
    v = cell_cost s cost_min /\ m' = with_costs m c'.
Proof.
  unfold _compute_cell_cost. rewrite bind_Ok. split.
  - intros (s & Hs & H). inv_bind H. destruct a as [[cost_min c'] oq1].
    injection H as <- <- <-. exists s, cost_min, c'. done.
  - intros (s & cost_min & c' & Hs & Hrun & -> & ->).
    exists s. split; [done|]. rewrite Hrun. done.
Qed.

Lemma with_costs_id m : with_costs m (costs m) = m.
Proof. by destruct m. Qed.

(** Without a queue, or when no neighbour is undefined, the loop changes
    nothing but [cost_min]. *)
Lemma scan_neighbours_pure w h p ds cost_min c oq :
  grid_dims c w h ->
  (oq = None \/
   forall d, d ∈ ds -> POSITION_IS_VALID (neighbour p d) w h = true ->
             grid_get c (neighbour p d) <> Ok COST_UNDEF) ->
  exists cost_min',
    for_each (visit_neighbour w h p) ds (cost_min, c, oq) = Ok (cost_min', c, oq).
Proof.
  intros Hdims. revert cost_min.
  induction ds as [|d ds IH]; intros cost_min Hpure; [by eexists|].
  assert (exists cost_min1,
    visit_neighbour w h p (cost_min, c, oq) d = Ok (cost_min1, c, oq))
    as [cost_min1 Hvisit].
  { destruct (POSITION_IS_VALID (neighbour p d) w h) eqn:Hvalid.
    2:{ exists cost_min. apply visit_neighbour_Ok. by constructor. }
    destruct (grid_get_is_Ok c w h (neighbour p d) Hdims) as [v Hv];
      [by apply valid_in_bounds|].
    destruct (Z.lt_ge_cases v cost_min).
    { exists v. apply visit_neighbour_Ok. by constructor. }
    exists cost_min. apply visit_neighbour_Ok.
    eapply visit_keep; [done|done|lia|].
    destruct Hpure as [->|Hpure]; [by left|right].
    intros ->. eapply Hpure; [|done..]. by apply elem_of_cons; left. }
  destruct (IH cost_min1) as [cost_min' Hrun].
  { destruct Hpure as [->|Hpure]; [by left|right].
    intros d' Hd'. apply Hpure. by apply elem_of_cons; right. }
  exists cost_min'. apply for_each_cons. eauto.
Qed.

Lemma map_wf_position m p :
  map_wf m -> in_bounds (width m) (height m) p ->
  0 <= x p < 2 ^ 32 /\ 0 <= y p < 2 ^ 32.
Proof. intros [Hw Hh _ _] [Hx Hy]. lia. Qed.

Lemma map_wf_with_costs m c :
  map_wf m -> grid_dims c (width m) (height m) -> map_wf (with_costs m c).
Proof. intros [Hw Hh Hs _] Hc. by split. Qed.

Lemma compute_cell_cost_pure m p oq s :
  map_wf m -> in_bounds (width m) (height m) p ->
  grid_get (soils m) p = Ok s ->
  (oq = None \/
   forall d, d ∈ _direction_vectors ->
             POSITION_IS_VALID (neighbour p d) (width m) (height m) = true ->
             grid_get (costs m) (neighbour p d) <> Ok COST_UNDEF) ->
  exists cost_min,
    _compute_cell_cost m p oq = Ok (cell_cost s cost_min, m, oq) /\
    (forall d v, d ∈ _direction_vectors ->
       POSITION_IS_VALID (neighbour p d) (width m) (height m) = true ->
       grid_get (costs m) (neighbour p d) = Ok v -> cost_min <= v) /\
    (cost_min = COST_UNDEF \/
     exists d, d ∈ _direction_vectors /\
       POSITION_IS_VALID (neighbour p d) (width m) (height m) = true /\
       grid_get (costs m) (neighbour p d) = Ok cost_min).
Proof.
  intros Hwf Hp Hs Hpure.
  destruct (map_wf_position m p Hwf Hp) as [Hx Hy].
  destruct (scan_neighbours_pure (width m) (height m) p _direction_vectors
              0xFFFFFFFF (costs m) oq (wf_costs m Hwf) Hpure) as [cost_min Hrun].
  destruct (scan_neighbours_post _ _ _ _ _ _ _ _ _ _
              (neighbours_NoDup p Hx Hy) Hrun) as [new Hpost].
  exists cost_min. split; [|split].
  - apply compute_cell_cost_Ok. exists s, cost_min, (costs m).
    by rewrite with_costs_id.
  - apply Hpost.
  - apply Hpost.
Qed.

(** The loop never leaves the arrays: it can only stop on a full queue. *)
Lemma scan_neighbours_fault w h p ds cost_min c oq f :
  grid_dims c w h ->
  (forall q, oq = Some q -> queue_wf q) ->
  for_each (visit_neighbour w h p) ds (cost_min, c, oq) = Fail f ->
  f = QueueFull.
Proof.
  revert cost_min c oq.
  induction ds as [|d ds IH]; intros cost_min c oq Hdims Hq; [done|].
  change (for_each (visit_neighbour w h p) (d :: ds) (cost_min, c, oq))
    with (bind (visit_neighbour w h p (cost_min, c, oq) d)
               (for_each (visit_neighbour w h p) ds)).
  destruct (visit_neighbour w h p (cost_min, c, oq) d) as [st1|f1] eqn:Hvisit.
  - simpl. destruct st1 as [[cost_min1 c1] oq1].
    apply visit_neighbour_Ok in Hvisit.
    inversion Hvisit as
      [st Hv
      | cm0 c0 oq0 v Hv Hg Hlt
      | cm0 c0 q q1 c0' Hv Hg Hcm Henq Hset
      | cm0 c0 oq0 v Hv Hg Hcm Hkeep]; subst; clear Hvisit;
      try by apply IH.
    apply IH; [by eapply grid_set_dims|].
    intros q' [= <-].
    destruct (enqueue_wf q (neighbour p d) (Hq q eq_refl)) as (q2 & Henq' & Hwf).
    { unfold enqueue in Henq. destruct (Z.ltb_spec (last q - first q) (size q));
        [done|discriminate]. }
    congruence.
  - simpl. intros [= <-]. unfold visit_neighbour in Hvisit.
    change {| x := u32 (x p + fst d); y := u32 (y p + snd d) |}
      with (neighbour p d) in Hvisit.
    destruct (POSITION_IS_VALID _ _ _) eqn:Hvalid; [|done].
    apply valid_in_bounds in Hvalid.
    destruct (grid_get_is_Ok c w h _ Hdims Hvalid) as [v Hv].
    rewrite Hv in Hvisit. simpl in Hvisit.
    destruct (v <? cost_min); [done|].
    destruct oq as [q|]; [|done].
    destruct (v =? COST_UNDEF); [|done].
    unfold enqueue in Hvisit.
    destruct (Z.ltb_spec (last q - first q) (size q)); [|by injection Hvisit].
    destruct (enqueue_wf q (neighbour p d) (Hq q eq_refl)) as (q2 & Henq' & Hwf);
      [done|].
    unfold enqueue in Henq'.
    destruct (Z.ltb_spec (last q - first q) (size q)); [|lia].
    inv_bind Henq'. rewrite Ha in Hvisit. simpl in Hvisit.
    destruct (grid_set_is_Ok c w h (neighbour p d) (COST_UNDEF - 1) Hdims Hvalid)
      as [c' Hset].
    rewrite Hset in Hvisit. done.
Qed.

Ltac solve_dims :=
  split; [reflexivity | repeat constructor].

Ltac solve_map_wf :=
  split; simpl; [lia | lia | solve_dims | solve_dims].

Ltac each_direction d Hd :=
  repeat (apply elem_of_cons in Hd as [->|Hd]); [..|by apply elem_of_nil in Hd].

(** C9.  On a well-formed map and for an in-bounds position, no access of
    [_compute_cell_cost] to [soils] or [costs] leaves the arrays (with a
    queue it can only stop on a full queue, without one it returns), the
    arrays keep their extent, and the neighbour of a cell of row 0 or
    column 0 obtained by stepping off the grid has a coordinate
    [0xFFFFFFFF], which [POSITION_IS_VALID] rejects. *)
Theorem compute_cell_cost_in_bounds m p oq :
  map_wf m -> in_bounds (width m) (height m) p ->
  (forall q, oq = Some q -> queue_wf q) ->
  _compute_cell_cost m p oq <> Fail OutOfBounds /\
  (oq = None -> exists v, _compute_cell_cost m p oq = Ok (v, m, None)) /\
  (forall v m' oq', _compute_cell_cost m p oq = Ok (v, m', oq') -> map_wf m') /\
  (forall d, d ∈ _direction_vectors ->
     x p + fst d < 0 \/ y p + snd d < 0 ->
     (x (neighbour p d) = 0xFFFFFFFF \/ y (neighbour p d) = 0xFFFFFFFF) /\
     POSITION_IS_VALID (neighbour p d) (width m) (height m) = false).
Proof.
  intros Hwf Hp Hq.
  destruct (map_wf_position m p Hwf Hp) as [Hx Hy].
  destruct (grid_get_is_Ok (soils m) _ _ p (wf_soils m Hwf) Hp) as [s Hs].
  split; [|split; [|split]].
  - unfold _compute_cell_cost. rewrite Hs. cbn [bind].
    destruct (for_each (visit_neighbour (width m) (height m) p)
                _direction_vectors (0xFFFFFFFF, costs m, oq))
      as [[[cost_min c'] oq']|f] eqn:Hrun; [done|].
    cbn [bind]. apply scan_neighbours_fault in Hrun as ->; [done|apply Hwf|done].
  - intros ->.
    destruct (compute_cell_cost_pure m p None s Hwf Hp Hs) as (cost_min & H & _);
      [by left|eauto].
  - intros v m' oq' (s' & cost_min & c' & _ & Hrun & _ & ->)%compute_cell_cost_Ok.
    apply map_wf_with_costs; [done|].
    destruct (scan_neighbours_post _ _ _ _ _ _ _ _ _ _
                (neighbours_NoDup p Hx Hy) Hrun) as [new Hpost].
    apply Hpost, Hwf.
  - intros d Hd Hunder. apply underflow_rejected; try done; apply Hwf.
Qed.

(** C2.  For a cell of nonzero terrain cost [t] whose bounds-valid
    neighbours all hold the undefined sentinel, [_compute_cell_cost]
    returns [0xFFFFFFFF + t] reduced modulo [2^32], that is [t - 1]: a
    value below the crevasse threshold, not a very large one. *)
Theorem undefined_neighbours_cost m p s :
  map_wf m -> in_bounds (width m) (height m) p ->
  grid_get (soils m) p = Ok s -> _soil_cost s <> 0 ->
  (forall d, d ∈ _direction_vectors ->
     POSITION_IS_VALID (neighbour p d) (width m) (height m) = true ->
     grid_get (costs m) (neighbour p d) = Ok COST_UNDEF) ->
  _compute_cell_cost m p None = Ok (u32 (COST_UNDEF + _soil_cost s), m, None) /\
  u32 (COST_UNDEF + _soil_cost s) = _soil_cost s - 1 /\
  _soil_cost s - 1 < 10000 /\
  (forall oq v m' oq',
     _compute_cell_cost m p oq = Ok (v, m', oq') -> v = _soil_cost s - 1).
Proof.
  intros Hwf Hp Hs Ht Hundef.
  destruct (map_wf_position m p Hwf Hp) as [Hx Hy].
  pose proof (soil_cost_range s) as Hrange.
  assert (u32 (COST_UNDEF + _soil_cost s) = _soil_cost s - 1) as Hwrap.
  { unfold COST_UNDEF. solve_u32. }
  assert (forall cost_min,
            cost_min <= COST_UNDEF ->
            (forall d v, d ∈ _direction_vectors ->
               POSITION_IS_VALID (neighbour p d) (width m) (height m) = true ->
               grid_get (costs m) (neighbour p d) = Ok v -> cost_min <= v) ->
            (cost_min = COST_UNDEF \/
             exists d, d ∈ _direction_vectors /\
               POSITION_IS_VALID (neighbour p d) (width m) (height m) = true /\
               grid_get (costs m) (neighbour p d) = Ok cost_min) ->
            cell_cost s cost_min = _soil_cost s - 1) as Hcell.
  { intros cost_min _ _ Hatt.
    assert (cost_min = COST_UNDEF) as ->.
    { destruct Hatt as [?|(d & Hd & Hv & Hg)]; [done|].
      rewrite (Hundef d Hd Hv) in Hg. by injection Hg. }
    unfold cell_cost. rewrite u32_soil_cost.
    destruct (Z.eqb_spec (_soil_cost s) 0); [done|]. done. }
  split; [|split; [done|split; [lia|]]].
  - destruct (compute_cell_cost_pure m p None s Hwf Hp Hs) as
      (cost_min & Hrun & Hlb & Hatt); [by left|].
    rewrite Hrun, Hwrap. f_equal. f_equal. f_equal. apply Hcell; [|done..].
    destruct Hatt as [->|(d & Hd & Hv & Hg)]; [done|].
    rewrite (Hundef d Hd Hv) in Hg. injection Hg as <-. done.
  - intros oq v m' oq' (s' & cost_min & c' & Hs' & Hrun & -> & _)%compute_cell_cost_Ok.
    rewrite Hs in Hs'. injection Hs' as <-.
    destruct (scan_neighbours_post _ _ _ _ _ _ _ _ _ _
                (neighbours_NoDup p Hx Hy) Hrun) as [new Hpost].
    apply Hcell; apply Hpost.
Qed.

Lemma undefined_neighbours_cost_witness :
  _compute_cell_cost (initial_map 1 3 [[PLAIN; PLAIN; PLAIN]]) (mk_position 1 0) None
  = Ok (0, initial_map 1 3 [[PLAIN; PLAIN; PLAIN]], None).
Proof.
  refine (proj1 (undefined_neighbours_cost
                   (initial_map 1 3 [[PLAIN; PLAIN; PLAIN]]) (mk_position 1 0) PLAIN
                   _ _ _ _ _)).
  - solve_map_wf.
  - unfold in_bounds; simpl; lia.
  - reflexivity.
  - simpl; lia.
  - intros d Hd Hv. each_direction d Hd; (reflexivity || discriminate Hv).
Defined.

(** C10.  A neighbour holding the pending sentinel [COST_UNDEF - 1] enters
    the minimum like a known cost: for a cell of nonzero terrain cost [t]
    with at least one bounds-valid neighbour, all of them pending,
    [_compute_cell_cost] enqueues nothing and returns [0xFFFFFFFE + t]
    reduced modulo [2^32], which is [COST_UNDEF] for [t = 1] and [t - 2]
    for [t >= 2]. *)
Theorem pending_neighbours_cost m p s oq :
  map_wf m -> in_bounds (width m) (height m) p ->
  grid_get (soils m) p = Ok s -> _soil_cost s <> 0 ->
  (exists d, d ∈ _direction_vectors /\
     POSITION_IS_VALID (neighbour p d) (width m) (height m) = true) ->
  (forall d, d ∈ _direction_vectors ->
     POSITION_IS_VALID (neighbour p d) (width m) (height m) = true ->
     grid_get (costs m) (neighbour p d) = Ok (COST_UNDEF - 1)) ->
  _compute_cell_cost m p oq = Ok (u32 (0xFFFFFFFE + _soil_cost s), m, oq) /\
  (_soil_cost s = 1 -> u32 (0xFFFFFFFE + _soil_cost s) = COST_UNDEF) /\
  (2 <= _soil_cost s -> u32 (0xFFFFFFFE + _soil_cost s) = _soil_cost s - 2).
Proof.
  intros Hwf Hp Hs Ht (d0 & Hd0 & Hv0) Hpending.
  pose proof (soil_cost_range s) as Hrange.
  split; [|split].
  - destruct (compute_cell_cost_pure m p oq s Hwf Hp Hs) as
      (cost_min & Hrun & Hlb & Hatt).
    { right. intros d Hd Hv. by rewrite (Hpending d Hd Hv). }
    rewrite Hrun. f_equal. f_equal. f_equal.
    assert (cost_min = 0xFFFFFFFE) as ->.
    { destruct Hatt as [->|(d & Hd & Hv & Hg)].
      - pose proof (Hlb d0 _ Hd0 Hv0 (Hpending d0 Hd0 Hv0)).
        unfold COST_UNDEF in *. lia.
      - rewrite (Hpending d Hd Hv) in Hg. by injection Hg. }
    unfold cell_cost. rewrite u32_soil_cost.
    destruct (Z.eqb_spec (_soil_cost s) 0); done.
  - intros ->. reflexivity.
  - intros Hge. solve_u32.
Qed.

Lemma pending_neighbours_cost_witness :
  _compute_cell_cost
    {| width := 3; height := 1; soils := [[BASE_STATION; PLAIN; ERG]];
       costs := [[0xFFFFFFFE; 7; 0xFFFFFFFE]] |}
    (mk_position 1 0) None
  = Ok (COST_UNDEF,
        {| width := 3; height := 1; soils := [[BASE_STATION; PLAIN; ERG]];
           costs := [[0xFFFFFFFE; 7; 0xFFFFFFFE]] |}, None).
Proof.
  refine (proj1 (pending_neighbours_cost
                   {| width := 3; height := 1;
                      soils := [[BASE_STATION; PLAIN; ERG]];
                      costs := [[0xFFFFFFFE; 7; 0xFFFFFFFE]] |}
                   (mk_position 1 0) PLAIN None _ _ _ _ _ _)).
  - solve_map_wf.
  - unfold in_bounds; simpl; lia.
  - reflexivity.
  - simpl; lia.
  - exists (1, 0). split; [|reflexivity].
    apply elem_of_cons; right. apply elem_of_cons; left. reflexivity.
  - intros d Hd Hv. each_direction d Hd; (reflexivity || discriminate Hv).
Defined.

(** ** Row-major enumeration *)

Lemma elem_of_row_major w h p : p ∈ row_major w h <-> in_bounds w h p.
Proof.
  unfold row_major, in_bounds. rewrite list_elem_of_bind. split.
  - intros (cy & (cx & -> & Hcx%elem_of_seqZ)%list_elem_of_fmap & Hcy%elem_of_seqZ).
    simpl. lia.
  - intros [Hx Hy]. exists (y p). split; [|apply elem_of_seqZ; lia].
    apply list_elem_of_fmap. exists (x p). split; [by destruct p|].
    apply elem_of_seqZ; lia.
Qed.

Lemma NoDup_row_major w h : NoDup (row_major w h).
Proof.
  unfold row_major. apply NoDup_bind.
  - intros cy1 cy2 p _ _ (? & -> & _)%list_elem_of_fmap (? & [= _ ?] & _)%list_elem_of_fmap.
    done.
  - intros cy _. apply NoDup_fmap_2; [|apply NoDup_seqZ].
    by intros cx1 cx2 [= ?].
  - apply NoDup_seqZ.
Qed.

Lemma length_bind_const {A B : Type} (f : A -> list B) (l : list A) (n : nat) :
  (forall a, length (f a) = n) -> length (l ≫= f) = (length l * n)%nat.
Proof.
  intros Hf. induction l as [|a l IH]; [done|].
  rewrite bind_cons, length_app, Hf, IH. simpl. lia.
Qed.

Lemma length_row_major w h :
  0 <= w -> 0 <= h -> Z.of_nat (length (row_major w h)) = w * h.
Proof.
  intros Hw Hh. unfold row_major.
  rewrite (length_bind_const _ _ (Z.to_nat w)).
  - rewrite length_seqZ. lia.
  - intros cy. by rewrite length_fmap, length_seqZ.
Qed.

(** A duplicate-free list of cells of the grid has at most [w * h]
    elements. *)
Lemma cells_bounded w h (l : list position_s) :
  0 <= w -> 0 <= h -> NoDup l -> (forall p, p ∈ l -> in_bounds w h p) ->
  Z.of_nat (length l) <= w * h.
Proof.
  intros Hw Hh Hnd Hin. rewrite <- length_row_major by done.
  apply Nat2Z.inj_le, submseteq_length, NoDup_submseteq; [done|].
  intros p Hp. by apply elem_of_row_major, Hin.
Qed.

Lemma for_each_bind {S A B : Type} (body : S -> B -> result S)
  (f : A -> list B) (l : list A) (s : S) :
  for_each (fun s1 a => for_each body (f a) s1) l s = for_each body (l ≫= f) s.
Proof.
  revert s. induction l as [|a l IH]; intros s; [done|].
  rewrite bind_cons, for_each_app. simpl.
  destruct (for_each body (f a) s); simpl; [apply IH|done].
Qed.

Lemma for_each_fmap {S A B : Type} (body : S -> B -> result S)
  (f : A -> B) (l : list A) (s : S) :
  for_each (fun s1 a => body s1 (f a)) l s = for_each body (f <$> l) s.
Proof.
  revert s. induction l as [|a l IH]; intros s; [done|].
  simpl. destruct (body s (f a)); simpl; [apply IH|done].
Qed.

Lemma for_each_ext {S A : Type} (body1 body2 : S -> A -> result S) l s :
  (forall s1 a, body1 s1 a = body2 s1 a) ->
  for_each body1 l s = for_each body2 l s.
Proof.
  intros Hext. revert s. induction l as [|a l IH]; intros s; [done|].
  simpl. rewrite Hext. destruct (body2 s a); simpl; [apply IH|done].
Qed.

(** ** The repair pass *)

Lemma remove_false_costs_sweep m :
  _remove_false_costs m = for_each repair_cell (row_major (width m) (height m)) m.
Proof.
  unfold _remove_false_costs, row_major. rewrite <- for_each_bind.
  apply for_each_ext. intros m1 cy. apply for_each_fmap.
Qed.

Lemma repair_cell_spec m p :
  map_wf m -> in_bounds (width m) (height m) p ->
  exists m1 s v0,
    repair_cell m p = Ok m1 /\ map_wf m1 /\
    width m1 = width m /\ height m1 = height m /\ soils m1 = soils m /\
    grid_get (soils m) p = Ok s /\ grid_get (costs m) p = Ok v0 /\
    (forall r, r <> p -> grid_get (costs m1) r = grid_get (costs m) r) /\
    if decide (s <> CREVASSE /\ 10000 < v0)
    then exists v, _compute_cell_cost m p None = Ok (v, m, None) /\
                   grid_get (costs m1) p = Ok v
    else m1 = m.
Proof.
  intros Hwf Hp.
  destruct (grid_get_is_Ok (soils m) _ _ p (wf_soils m Hwf) Hp) as [s Hs].
  destruct (grid_get_is_Ok (costs m) _ _ p (wf_costs m Hwf) Hp) as [v0 Hv0].
  unfold repair_cell. rewrite Hs. cbn [bind].
  destruct (decide (s = CREVASSE)) as [->|Hs'].
  { exists m, CREVASSE, v0. rewrite decide_False by naive_solver. done. }
  rewrite Hv0. cbn [bind]. destruct (Z.ltb_spec 10000 v0).
  2:{ exists m, s, v0. rewrite decide_False by lia. done. }
  destruct (compute_cell_cost_pure m p None s Hwf Hp Hs (or_introl eq_refl))
    as (cost_min & Hv & _).
  set (v := cell_cost s cost_min) in *.
  rewrite Hv. cbn [bind].
  destruct (grid_set_is_Ok (costs m) _ _ p v (wf_costs m Hwf) Hp) as [c' Hc'].
  rewrite Hc'. cbn [bind].
  exists (with_costs m c'), s, v0. rewrite decide_True by done.
  split; [done|]. split.
  { apply map_wf_with_costs; [done|]. eapply grid_set_dims; [apply Hwf|done]. }
  do 5 (split; [done|]). split.
  - intros r Hr. simpl. by eapply grid_get_set_ne.
  - exists v. split; [done|]. simpl. by eapply grid_get_set_eq.
Qed.

Lemma repair_sweep_spec l m :
  map_wf m -> (forall p, p ∈ l -> in_bounds (width m) (height m) p) ->
  exists m',
    for_each repair_cell l m = Ok m' /\ map_wf m' /\
    width m' = width m /\ height m' = height m /\ soils m' = soils m /\
    (forall r, r ∉ l -> grid_get (costs m') r = grid_get (costs m) r).
Proof.
  revert m. induction l as [|p l IH]; intros m Hwf Hl; [by exists m|].
  destruct (repair_cell_spec m p Hwf) as
    (m1 & s & v0 & Hrep & Hwf1 & Hw1 & Hh1 & Hs1 & _ & _ & Hframe & _).
  { apply Hl. by apply elem_of_cons; left. }
  destruct (IH m1 Hwf1) as (m' & Hrun & Hwf' & Hw' & Hh' & Hs' & Hframe').
  { intros r Hr. rewrite Hw1, Hh1. apply Hl. by apply elem_of_cons; right. }
  exists m'. split; [apply for_each_cons; eauto|]. split; [done|].
  split; [congruence|]. split; [congruence|]. split; [congruence|].
  intros r [Hne Hr]%not_elem_of_cons. rewrite Hframe' by done. by apply Hframe.
Qed.

(** C6.  [_remove_false_costs] is one sweep of the cells in row-major
    order.  When the sweep reaches a cell [p] (after the cells [before],
    with the map [mk]) the cost of [p] is still the one it had before the
    pass; if the terrain of [p] is not [CREVASSE] and that cost exceeds
    10000, the pass stores the value of [_compute_cell_cost] called on
    [mk] without a queue (the call changes neither the costs nor any
    queue); otherwise the cost of [p] is left as it was. *)
Theorem remove_false_costs_spec m :
  map_wf m ->
  _remove_false_costs m = for_each repair_cell (row_major (width m) (height m)) m /\
  exists m',
    _remove_false_costs m = Ok m' /\ map_wf m' /\
    width m' = width m /\ height m' = height m /\ soils m' = soils m /\
    forall before p after,
      row_major (width m) (height m) = before ++ p :: after ->
      exists mk s v0,
        for_each repair_cell before m = Ok mk /\
        grid_get (soils m) p = Ok s /\
        grid_get (costs m) p = Ok v0 /\ grid_get (costs mk) p = Ok v0 /\
        if decide (s <> CREVASSE /\ 10000 < v0)
        then exists v, _compute_cell_cost mk p None = Ok (v, mk, None) /\
                       grid_get (costs m') p = Ok v
        else grid_get (costs m') p = Ok v0.
Proof.
  intros Hwf. split; [apply remove_false_costs_sweep|].
  rewrite remove_false_costs_sweep.
  destruct (repair_sweep_spec (row_major (width m) (height m)) m Hwf)
    as (m' & Hrun & Hwf' & Hw' & Hh' & Hs' & _).
  { intros p. apply elem_of_row_major. }
  exists m'. do 5 (split; [done|]).
  intros before p after Hsplit.
  pose proof (NoDup_row_major (width m) (height m)) as Hnd.
  assert (forall r, r ∈ row_major (width m) (height m) ->
                    in_bounds (width m) (height m) r) as Hin.
  { intros r. apply elem_of_row_major. }
  rewrite Hsplit in Hnd, Hin, Hrun.
  apply NoDup_app in Hnd as (_ & Hbefore & [Hafter _]%NoDup_cons).
  destruct (repair_sweep_spec before m Hwf)
    as (mk & Hrunk & Hwfk & Hwk & Hhk & Hsk & Hframek).
  { intros r Hr. apply Hin, elem_of_app. by left. }
  assert (p ∉ before) as Hp.
  { intros Hp. apply (Hbefore p Hp). by apply elem_of_cons; left. }
  rewrite for_each_app, Hrunk in Hrun. cbn [bind] in Hrun.
  apply for_each_cons in Hrun as (m1 & Hrep & Hrun).
  destruct (repair_cell_spec mk p Hwfk) as
    (m1' & s & v0 & Hrep' & Hwf1 & Hw1 & Hh1 & Hs1 & Hs & Hv0 & Hframe1 & Hcase).
  { rewrite Hwk, Hhk. apply Hin, elem_of_app. right. by apply elem_of_cons; left. }
  rewrite Hrep in Hrep'. injection Hrep' as <-.
  destruct (repair_sweep_spec after m1 Hwf1)
    as (m'' & Hrun' & _ & _ & _ & _ & Hframe').
  { intros r Hr. rewrite Hw1, Hwk, Hh1, Hhk.
    apply Hin, elem_of_app. right. by apply elem_of_cons; right. }
  rewrite Hrun in Hrun'. injection Hrun' as <-.
  exists mk, s, v0. split; [done|]. split; [congruence|].
  split; [by rewrite <- Hframek|]. split; [done|].
  rewrite Hframe' by done.
  destruct (decide (s <> CREVASSE /\ 10000 < v0)); [done|by subst m1].
Qed.

(** ** The propagation loop *)

Lemma propagate_unfold fuel m q :
  propagate (S fuel) m q =
  if first q =? last q then Ok (m, q)
  else try '(m', q') := iteration m q in propagate fuel m' q'.
Proof.
  unfold iteration. simpl. destruct (first q =? last q); [done|].
  destruct (dequeue q) as [[p q1]|]; [|done]. cbn [bind].
  destruct (_compute_cell_cost m p (Some q1)) as [[[c m1] q2]|]; [|done].
  cbn [bind]. destruct (grid_set (costs m1) p c); done.
Qed.

Lemma neighbour_sym p d :
  0 <= x p < 2 ^ 32 -> 0 <= y p < 2 ^ 32 -> d ∈ _direction_vectors ->
  exists d', d' ∈ _direction_vectors /\ neighbour (neighbour p d) d' = p.
Proof.
  intros Hx Hy Hd.
  assert (forall d', d' ∈ _direction_vectors ->
            fst d' = - fst d -> snd d' = - snd d ->
            exists d', d' ∈ _direction_vectors /\ neighbour (neighbour p d) d' = p)
    as Hopp.
  { intros d' Hd' Hfst Hsnd. exists d'. split; [done|].
    apply position_eq; unfold neighbour; simpl; rewrite ?Hfst, ?Hsnd.
    - clear Hd Hd'. solve_u32.
    - clear Hd Hd'. solve_u32. }
  each_direction d Hd.
  - apply (Hopp (1, 0)); [|done..]. by apply elem_of_cons; right; left.
  - apply (Hopp (-1, 0)); [|done..]. by left.
  - apply (Hopp (0, 1)); [|done..]. by do 3 (apply elem_of_cons; right); left.
  - apply (Hopp (0, -1)); [|done..]. by do 2 (apply elem_of_cons; right); left.
Qed.

(** With every cell enqueued at most once so far, the neighbour loop
    finds room in the queue for each cell it enqueues. *)
Lemma scan_neighbours_total w h p ds cost_min c q :
  0 <= w -> 0 <= h ->
  grid_dims c w h -> queue_wf q -> size q = w * h ->
  NoDup (history q) ->
  (forall r, r ∈ history q -> in_bounds w h r) ->
  (forall r, r ∈ history q -> r <> p -> grid_get c r <> Ok COST_UNDEF) ->
  (forall d, d ∈ ds -> neighbour p d <> p) ->
  exists cost_min' c' q',
    for_each (visit_neighbour w h p) ds (cost_min, c, Some q)
    = Ok (cost_min', c', Some q') /\ queue_wf q'.
Proof.
  intros Hw Hh. revert cost_min c q.
  induction ds as [|d ds IH];
    intros cost_min c q Hdims Hq Hsize Hnd Hin Hdef Hself; [by eauto|].
  assert (forall d', d' ∈ ds -> neighbour p d' <> p) as Hself'.
  { intros d' Hd'. apply Hself. by apply elem_of_cons; right. }
  assert (forall st1, visit_outcome w h p d (cost_min, c, Some q) st1 ->
            (exists cost_min1, st1 = (cost_min1, c, Some q)) ->
            exists cost_min' c' q',
              for_each (visit_neighbour w h p) (d :: ds) (cost_min, c, Some q)
              = Ok (cost_min', c', Some q') /\ queue_wf q') as Hsame.
  { intros st1 Hout [cost_min1 ->].
    destruct (IH cost_min1 c q) as (cost_min' & c' & q' & Hrun & Hq'); try done.
    exists cost_min', c', q'. split; [|done].
    apply for_each_cons. eexists. split; [by apply visit_neighbour_Ok|done]. }
  destruct (POSITION_IS_VALID (neighbour p d) w h) eqn:Hvalid.
  2:{ eapply Hsame; [by constructor|eauto]. }
  pose proof (valid_in_bounds _ _ _ _ Hvalid) as Hbounds.
  destruct (grid_get_is_Ok c w h _ Hdims Hbounds) as [v Hv].
  destruct (Z.lt_ge_cases v cost_min).
  { eapply Hsame; [by apply visit_lower|eauto]. }
  destruct (decide (v = COST_UNDEF)) as [->|Hne].
  2:{ eapply Hsame; [eapply visit_keep; eauto; lia|eauto]. }
  assert (neighbour p d ∉ history q) as Hfresh.
  { intros Hel. eapply Hdef; [done| |done]. apply Hself. by left. }
  assert (Z.of_nat (length (history q ++ [neighbour p d])) <= w * h) as Hlen.
  { apply cells_bounded; [done|done|..].
    - apply NoDup_app. split; [done|]. split; [|apply NoDup_singleton].
      intros r Hr ->%list_elem_of_singleton. done.
    - intros r [Hr| ->%list_elem_of_singleton]%elem_of_app; [by apply Hin|done]. }
  rewrite length_app in Hlen. simpl in Hlen.
  destruct (enqueue_wf q (neighbour p d) Hq) as (q1 & Henq & Hq1).
  { destruct Hq. lia. }
  pose proof (enqueue_Ok _ _ _ Henq) as (Hh1 & Hf1 & Hs1 & Hl1).
  destruct (grid_set_is_Ok c w h _ PENDING Hdims Hbounds) as [c1 Hset].
  destruct (IH cost_min c1 q1) as (cost_min' & c' & q' & Hrun & Hq'); try done.
  - by eapply grid_set_dims.
  - congruence.
  - rewrite Hh1. apply NoDup_app. split; [done|]. split; [|apply NoDup_singleton].
    intros r Hr ->%list_elem_of_singleton. done.
  - rewrite Hh1.
    intros r [Hr| ->%list_elem_of_singleton]%elem_of_app; [by apply Hin|done].
  - rewrite Hh1. intros r Hr Hrp.
    destruct (decide (r = neighbour p d)) as [->|Hrn].
    + rewrite (grid_get_set_eq _ _ _ _ Hset). done.
    + rewrite (grid_get_set_ne _ _ _ _ _ Hset Hrn).
      apply elem_of_app in Hr as [Hr| ->%list_elem_of_singleton]; [|done].
      by apply Hdef.
  - exists cost_min', c', q'. split; [|done].
    apply for_each_cons. eexists. split; [|done].
    apply visit_neighbour_Ok. by apply visit_mark.
Qed.

(** One turn of the loop from a state of the invariant: the cell at the
    cursor is dequeued, its undefined neighbours [new] are enqueued and
    marked, and, if the cost computed for it is below the sentinels, the
    invariant holds again. *)
Lemma bfs_iteration m q :
  bfs_inv m q -> first q <> last q ->
  exists p s cost_min c1 q1 q2 new,
    history q !! Z.to_nat (first q) = Some p /\
    grid_get (soils m) p = Ok s /\
    dequeue q = Ok (p, q1) /\
    _compute_cell_cost m p (Some q1)
    = Ok (cell_cost s cost_min, with_costs m c1, Some q2) /\
    scan_post (width m) (height m) p _direction_vectors
              0xFFFFFFFF (costs m) (Some q1) cost_min c1 (Some q2) new /\
    history q2 = history q ++ new /\ first q2 = first q + 1 /\
    last q2 = last q + Z.of_nat (length new) /\
    (forall r, r ∈ new -> r ∉ history q) /\
    exists c2,
      iteration m q = Ok (with_costs m c2, q2) /\
      map_wf (with_costs m c2) /\ queue_wf q2 /\ size q2 = size q /\
      grid_get c2 p = Ok (cell_cost s cost_min) /\
      (forall r, r ∈ new -> grid_get c2 r = Ok PENDING) /\
      (forall r, r <> p -> r ∉ new -> grid_get c2 r = grid_get (costs m) r) /\
      (0 <= cell_cost s cost_min < PENDING -> bfs_inv (with_costs m c2) q2).
Proof.
  intros [Hwf Hq Hsize Hnd Hin Hfresh Hpend Hsettled Hparent Hclosed] Hne.
  destruct (dequeue_wf q Hq Hne) as (p & q1 & Hdeq & Hq1 & Hp).
  pose proof (dequeue_Ok _ _ _ Hdeq) as (Hh1 & Hf1 & Hs1 & Hl1 & _).
  pose proof (qwf_first q Hq) as Hfirst.
  assert (in_bounds (width m) (height m) p) as Hpin.
  { apply Hin. by eapply list_elem_of_lookup_2. }
  destruct (map_wf_position m p Hwf Hpin) as [Hx Hy].
  destruct (grid_get_is_Ok (soils m) _ _ p (wf_soils m Hwf) Hpin) as [s Hs].
  assert (forall r, r ∈ history q -> r <> p ->
                    grid_get (costs m) r <> Ok COST_UNDEF) as Hdef.
  { intros r [i Hi]%list_elem_of_lookup_1 Hrp.
    destruct (Z.lt_trichotomy (Z.of_nat i) (first q)) as [Hlt|[Heq|Hgt]].
    - destruct (Hsettled i r Hi Hlt) as (v & -> & Hv).
      intros [= ->]. unfold PENDING in Hv. lia.
    - rewrite <- Heq, Nat2Z.id in Hp. congruence.
    - rewrite (Hpend i r Hi Hgt). done. }
  destruct (scan_neighbours_total (width m) (height m) p _direction_vectors
              0xFFFFFFFF (costs m) q1) as (cost_min & c1 & q2 & Hrun & Hq2);
    try (rewrite ?Hh1; done); try apply Hwf.
  { congruence. }
  { intros d Hd. by apply neighbour_ne. }
  destruct (scan_neighbours_post _ _ _ _ _ _ _ _ _ _
              (neighbours_NoDup p Hx Hy) Hrun) as [new Hpost].
  pose proof (sp_queue _ _ _ _ _ _ _ _ _ _ _ Hpost)
    as (q2' & [= <-] & Hh2 & Hf2 & Hs2 & Hl2).
  rewrite Hh1 in Hh2. rewrite Hf1 in Hf2. rewrite Hs1 in Hs2. rewrite Hl1 in Hl2.
  assert (forall r, r ∈ new ->
            (r ∉ history q) /\ r <> p /\ in_bounds (width m) (height m) r /\
            exists d, d ∈ _direction_vectors /\ r = neighbour p d) as Hnew.
  { intros r Hr.
    destruct (sp_new _ _ _ _ _ _ _ _ _ _ _ Hpost r Hr) as (d & Hd & -> & Hv & Hg).
    assert (neighbour p d <> p) as Hnp by by apply neighbour_ne.
    split; [|split; [done|split; [by apply valid_in_bounds|eauto]]].
    intros Hel. by eapply Hdef. }
  exists p, s, cost_min, c1, q1, q2, new.
  split; [done|]. split; [done|]. split; [done|].
  split. { apply compute_cell_cost_Ok. exists s, cost_min, c1. done. }
  split; [done|]. split; [done|]. split; [done|]. split; [done|].
  split. { intros r Hr. by destruct (Hnew r Hr) as [Hnotin _]. }
  set (c := cell_cost s cost_min) in *.
  pose proof (sp_dims _ _ _ _ _ _ _ _ _ _ _ Hpost _ _ (wf_costs m Hwf)) as Hdims1.
  destruct (grid_set_is_Ok c1 _ _ p c Hdims1 Hpin) as [c2 Hset].
  exists c2. split.
  { unfold iteration. rewrite Hdeq. cbn [bind].
    assert (_compute_cell_cost m p (Some q1) = Ok (c, with_costs m c1, Some q2))
      as -> by (apply compute_cell_cost_Ok; exists s, cost_min, c1; done).
    cbn [bind]. simpl. rewrite Hset. done. }
  assert (forall r, r <> p -> r ∉ new ->
                    grid_get c2 r = grid_get (costs m) r) as Hframe.
  { intros r Hrp Hrn. rewrite (grid_get_set_ne _ _ _ _ _ Hset Hrp).
    by apply (sp_frame _ _ _ _ _ _ _ _ _ _ _ Hpost). }
  assert (forall r, r ∈ new -> grid_get c2 r = Ok PENDING) as Hmarked.
  { intros r Hr. destruct (Hnew r Hr) as (_ & Hrp & _).
    rewrite (grid_get_set_ne _ _ _ _ _ Hset Hrp).
    by apply (sp_marked _ _ _ _ _ _ _ _ _ _ _ Hpost). }
  assert (forall i r, history q !! i = Some r -> Z.of_nat i <> first q -> r <> p)
    as Hother.
  { intros i r Hi Hik ->. pose proof (NoDup_lookup _ _ _ _ Hnd Hi Hp). lia. }
  assert (forall r, r ∈ history q -> r ∉ new) as Hold.
  { intros r Hr Hrn. by destruct (Hnew r Hrn) as [Hnotin _]. }
  assert (map_wf (with_costs m c2)) as Hwf2.
  { apply map_wf_with_costs; [done|]. by eapply grid_set_dims. }
  split; [done|]. split; [done|]. split; [congruence|].
  split; [by eapply grid_get_set_eq|]. split; [done|]. split; [done|].
  intros Hgood. split; simpl.
  - done.
  - done.
  - congruence.
  - rewrite Hh2. apply NoDup_app. split; [done|]. split; [done|]. apply Hpost.
  - rewrite Hh2. intros r [Hr|Hr]%elem_of_app; [by apply Hin|by apply Hnew].
  - rewrite Hh2. intros r Hr [Hrh Hrn]%not_elem_of_app.
    rewrite Hframe; [by apply Hfresh| |done].
    intros ->. apply Hrh. by eapply list_elem_of_lookup_2.
  - rewrite Hh2, Hf2. intros i r [Hi|[_ Hi]]%lookup_app_Some Hlt.
    + rewrite Hframe.
      * apply (Hpend i r Hi). lia.
      * apply (Hother i r Hi). lia.
      * apply Hold. by eapply list_elem_of_lookup_2.
    + apply Hmarked. by eapply list_elem_of_lookup_2.
  - rewrite Hh2, Hf2. intros i r [Hi|[Hlen Hi]]%lookup_app_Some Hlt.
    2:{ destruct Hq. lia. }
    destruct (decide (Z.of_nat i = first q)) as [Heq|Hik].
    + rewrite <- Heq, Nat2Z.id in Hp. assert (r = p) as -> by congruence.
      exists c. split; [by eapply grid_get_set_eq|done].
    + rewrite Hframe.
      * apply (Hsettled i r Hi). lia.
      * by apply (Hother i r Hi).
      * apply Hold. by eapply list_elem_of_lookup_2.
  - rewrite Hh2, Hf2. intros i r [Hi|[Hlen Hi]]%lookup_app_Some Hle.
    + destruct (Hparent i r Hi) as [Hbase|(j & d & Hj & Hd & Hjr)]; [lia|by left|].
      right. exists j, d. split; [lia|]. split; [done|].
      by apply lookup_app_l_Some.
    + right. destruct (Hnew r (list_elem_of_lookup_2 _ _ _ Hi))
        as (_ & _ & _ & d & Hd & ->).
      destruct (neighbour_sym p d Hx Hy Hd) as (d' & Hd' & Hsym).
      exists (Z.to_nat (first q)), d'. split; [lia|]. split; [done|].
      rewrite Hsym. by apply lookup_app_l_Some.
  - rewrite Hh2, Hf2. intros i r d [Hi|[Hlen Hi]]%lookup_app_Some Hlt Hd Hv.
    2:{ destruct Hq. lia. }
    apply elem_of_app.
    destruct (decide (Z.of_nat i = first q)) as [Heq|Hik].
    + rewrite <- Heq, Nat2Z.id in Hp. assert (r = p) as -> by congruence.
      destruct (decide (neighbour p d ∈ history q)) as [Hel|Hnel]; [by left|].
      right. apply (sp_all_marked _ _ _ _ _ _ _ _ _ _ _ Hpost); try done.
      apply Hfresh; [by apply valid_in_bounds|done].
    + left. apply (Hclosed i r d Hi); [lia|done..].
Qed.

(** ** Locating the base station *)

Lemma scan_row_cells soils cy xs :
  scan_row soils cy xs = scan_cells soils ((fun cx => mk_position cx cy) <$> xs).
Proof.
  induction xs as [|cx xs IH]; [done|]. simpl. rewrite IH. done.
Qed.

Lemma scan_cells_app soils l1 l2 :
  scan_cells soils (l1 ++ l2) =
  try r := scan_cells soils l1 in
  match r with
  | Some p => Ok (Some p)
  | None => scan_cells soils l2
  end.
Proof.
  induction l1 as [|p l1 IH]; [done|]. simpl.
  destruct (grid_get soils p) as [s|]; [|done]. cbn [bind].
  destruct (decide (s = BASE_STATION)); [done|apply IH].
Qed.

Lemma scan_rows_cells soils w ys :
  scan_rows soils w ys =
  scan_cells soils (ys ≫= (fun cy => (fun cx => mk_position cx cy) <$> seqZ 0 w)).
Proof.
  induction ys as [|cy ys IH]; [done|].
  rewrite bind_cons, scan_cells_app. cbn [scan_rows]. rewrite scan_row_cells.
  destruct (scan_cells soils ((fun cx => mk_position cx cy) <$> seqZ 0 w))
    as [[p|]|]; cbn [bind]; [done|apply IH|done].
Qed.

Lemma scan_cells_spec (soils : list (list soil_e)) w h l :
  grid_dims soils w h -> (forall r, r ∈ l -> in_bounds w h r) ->
  (exists before o after,
     l = before ++ o :: after /\ grid_get soils o = Ok BASE_STATION /\
     (forall r, r ∈ before -> grid_get soils r <> Ok BASE_STATION) /\
     scan_cells soils l = Ok (Some o)) \/
  ((forall r, r ∈ l -> grid_get soils r <> Ok BASE_STATION) /\
   scan_cells soils l = Ok None).
Proof.
  intros Hdims. induction l as [|p l IH]; intros Hl.
  { right. split; [by intros r Hr%elem_of_nil|done]. }
  destruct (grid_get_is_Ok soils w h p Hdims) as [s Hs].
  { apply Hl. by left. }
  simpl. rewrite Hs. cbn [bind].
  destruct (decide (s = BASE_STATION)) as [->|Hne].
  { left. exists [], p, l. split; [done|]. split; [done|].
    split; [by intros r Hr%elem_of_nil|done]. }
  destruct IH as [(before & o & after & -> & Ho & Hbefore & Hscan)|[Hnone Hscan]].
  { intros r Hr. apply Hl. by right. }
  - left. exists (p :: before), o, after. split; [done|]. split; [done|].
    split; [|done]. intros r [->|Hr]%elem_of_cons; [congruence|by apply Hbefore].
  - right. split; [|done].
    intros r [->|Hr]%elem_of_cons; [congruence|by apply Hnone].
Qed.

Lemma get_base_station_pos_spec m :
  map_wf m ->
  (exists o, first_origin m o /\ _get_base_station_pos m = Ok o) \/
  (no_origin m /\
   _get_base_station_pos m = Ok (mk_position 0xFFFFFFFF 0xFFFFFFFF)).
Proof.
  intros Hwf. unfold _get_base_station_pos. rewrite scan_rows_cells.
  fold (row_major (width m) (height m)).
  destruct (scan_cells_spec (soils m) (width m) (height m)
              (row_major (width m) (height m)) (wf_soils m Hwf))
    as [(before & o & after & Hsplit & Ho & Hbefore & ->)|[Hnone ->]].
  { intros r. apply elem_of_row_major. }
  - left. exists o. split; [|done]. exists before, after. done.
  - right. split; [|done]. intros r Hr. by apply Hnone, elem_of_row_major.
Qed.

Lemma first_origin_in_bounds m o :
  first_origin m o -> in_bounds (width m) (height m) o.
Proof.
  intros (before & after & Hsplit & _). apply elem_of_row_major.
  rewrite Hsplit. apply elem_of_app. right. by left.
Qed.

(** ** Running the loop to its end *)

Lemma propagate_run (I : map_s -> t_queue -> Prop) (bound : Z) :
  (forall m q, I m q -> first q <= last q <= bound) ->
  (forall m q, I m q -> first q <> last q ->
     exists m' q', iteration m q = Ok (m', q') /\ I m' q' /\
                   first q' = first q + 1) ->
  forall fuel m q,
    I m q -> bound - first q <= Z.of_nat fuel ->
    exists m' q', propagate fuel m q = Ok (m', q') /\ I m' q' /\
                  first q' = last q'.
Proof.
  intros Hbound Hstep. induction fuel as [|fuel IH]; intros m q HI Hfuel.
  - exists m, q. pose proof (Hbound m q HI). simpl.
    destruct (Z.eqb_spec (first q) (last q)); [done|lia].
  - rewrite propagate_unfold.
    destruct (Z.eqb_spec (first q) (last q)); [by exists m, q|].
    destruct (Hstep m q HI) as (m1 & q1 & -> & HI1 & Hf1); [done|].
    cbn [bind]. apply IH; [done|lia].
Qed.

Lemma bfs_inv_last m q : bfs_inv m q -> first q <= last q <= width m * height m.
Proof.
  intros Hinv. pose proof (bi_queue m q Hinv) as Hq.
  pose proof (bi_wf m q Hinv) as Hwf.
  split; [apply Hq|]. rewrite (qwf_last q Hq).
  apply cells_bounded; [apply Hwf|apply Hwf|apply Hinv|apply Hinv].
Qed.

Lemma int_of_u32_small z : 0 <= z < 2 ^ 31 -> int_of_u32 (u32 z) = z.
Proof.
  intros Hz. rewrite u32_small by lia. unfold int_of_u32.
  destruct (Z.ltb_spec z (2 ^ 31)); lia.
Qed.

Lemma first_origin_found m o :
  map_wf m -> first_origin m o ->
  _get_base_station_pos m = Ok o /\
  (x o =? 0xFFFFFFFF) || (y o =? 0xFFFFFFFF) = false.
Proof.
  intros Hwf Ho. pose proof (first_origin_in_bounds m o Ho) as [Hx Hy].
  split.
  - destruct (get_base_station_pos_spec m Hwf) as [(o' & Ho' & Hget)|[Hnone _]].
    + destruct Ho as (b1 & a1 & H1 & Ho1 & Hb1). destruct Ho' as (b2 & a2 & H2 & Ho2 & Hb2).
      rewrite Hget. f_equal.
      assert ((b2 ++ o' :: a2) !! length b1 = Some o) as Hl1.
      { rewrite <- H2, H1. by rewrite list_lookup_middle. }
      assert ((b1 ++ o :: a1) !! length b2 = Some o') as Hl2.
      { rewrite <- H1, H2. by rewrite list_lookup_middle. }
      destruct (Nat.lt_trichotomy (length b1) (length b2)) as [Hlt|[Heq|Hgt]].
      * exfalso. apply (Hb2 o); [|done].
        rewrite lookup_app_l in Hl1 by done. by eapply list_elem_of_lookup_2.
      * rewrite Heq, list_lookup_middle in Hl1 by done. congruence.
      * exfalso. apply (Hb1 o'); [|done].
        rewrite lookup_app_l in Hl2 by done. by eapply list_elem_of_lookup_2.
    + exfalso. destruct Ho as (_ & _ & _ & Ho & _). by eapply Hnone.
  - destruct Hwf as [Hw Hh _ _]. apply orb_false_iff.
    split; apply Z.eqb_neq; lia.
Qed.

(** The state in which [_compute_costs] enters its loop. *)
Lemma compute_costs_start m o :
  map_wf m -> cells_fit m -> costs_undefined m -> first_origin m o ->
  exists q0,
    enqueue (createQueue (int_of_u32 (u32 (width m * height m)))) o = Ok q0 /\
    (forall fuel, _compute_costs fuel m = propagate fuel m q0) /\
    bfs_inv m q0 /\ history q0 = [o] /\ first q0 = 0 /\ last q0 = 1.
Proof.
  intros Hwf Hcells Hundef Ho.
  pose proof (first_origin_in_bounds m o Ho) as Hin.
  destruct (first_origin_found m o Hwf Ho) as [Hget Hcheck].
  assert (0 < width m * height m) as Hpos.
  { destruct Hin. nia. }
  assert (int_of_u32 (u32 (width m * height m)) = width m * height m) as Hcap.
  { apply int_of_u32_small. unfold cells_fit in Hcells. lia. }
  destruct (enqueue_wf (createQueue (width m * height m)) o) as (q0 & Henq & Hq0).
  { by apply createQueue_wf. }
  { simpl. lia. }
  pose proof (enqueue_Ok _ _ _ Henq) as (Hh0 & Hf0 & Hs0 & Hl0). simpl in *.
  exists q0. split; [by rewrite Hcap|]. split; [|split; [|done]].
  { intros fuel. unfold _compute_costs. rewrite Hget. cbn [bind].
    rewrite Hcheck, Hcap, Henq. done. }
  split.
  - done.
  - done.
  - done.
  - rewrite Hh0. apply NoDup_singleton.
  - rewrite Hh0. by intros r ->%list_elem_of_singleton.
  - intros r Hr _. by apply Hundef.
  - rewrite Hh0, Hf0. intros [|i] r Hi Hlt; [lia|done].
  - rewrite Hf0. lia.
  - rewrite Hh0. intros [|i] r [= <-] _. left.
    by destruct Ho as (_ & _ & _ & Ho & _).
  - rewrite Hf0. lia.
Qed.

(** The minimum found by the neighbour loop of the cell at the cursor,
    when below the sentinels, is the cost of a settled neighbour. *)
Lemma settled_minimum m q p cost_min :
  bfs_inv m q -> history q !! Z.to_nat (first q) = Some p ->
  cost_min < PENDING ->
  (cost_min = COST_UNDEF \/
   exists d, d ∈ _direction_vectors /\
     POSITION_IS_VALID (neighbour p d) (width m) (height m) = true /\
     grid_get (costs m) (neighbour p d) = Ok cost_min) ->
  exists i d,
    Z.of_nat i < first q /\ d ∈ _direction_vectors /\
    history q !! i = Some (neighbour p d) /\
    grid_get (costs m) (neighbour p d) = Ok cost_min /\ 0 <= cost_min.
Proof.
  intros Hinv Hp Hlt [->|(d & Hd & Hv & Hg)]; [unfold PENDING in Hlt; lia|].
  pose proof (bi_queue m q Hinv) as Hq. pose proof (qwf_first q Hq) as Hfirst.
  assert (in_bounds (width m) (height m) p) as Hpin.
  { eapply bi_in_bounds; [done|]. by eapply list_elem_of_lookup_2. }
  destruct (map_wf_position m p (bi_wf m q Hinv) Hpin) as [Hx Hy].
  destruct (decide (neighbour p d ∈ history q)) as [[i Hi]%list_elem_of_lookup_1|Hnel].
  2:{ rewrite (bi_fresh m q Hinv _ (valid_in_bounds _ _ _ _ Hv) Hnel) in Hg.
      injection Hg as <-. unfold PENDING in Hlt. lia. }
  destruct (Z.lt_trichotomy (Z.of_nat i) (first q)) as [Hi'|[Hi'|Hi']].
  - destruct (bi_settled m q Hinv i _ Hi Hi') as (v & Hgv & Hv').
    rewrite Hg in Hgv. injection Hgv as <-.
    exists i, d. split; [done|]. split; [done|]. split; [done|]. split; [done|lia].
  - rewrite <- Hi', Nat2Z.id in Hp. rewrite Hp in Hi. injection Hi as Hi.
    symmetry in Hi. by apply neighbour_ne in Hi.
  - rewrite (bi_pending m q Hinv i _ Hi Hi') in Hg. injection Hg as <-. lia.
Qed.

(** Unless it is an origin, the cell at the cursor has a settled
    neighbour. *)
Lemma settled_parent m q p s :
  bfs_inv m q -> history q !! Z.to_nat (first q) = Some p ->
  grid_get (soils m) p = Ok s -> s <> BASE_STATION ->
  exists j d v,
    Z.of_nat j < first q /\ d ∈ _direction_vectors /\
    history q !! j = Some (neighbour p d) /\
    POSITION_IS_VALID (neighbour p d) (width m) (height m) = true /\
    grid_get (costs m) (neighbour p d) = Ok v /\ 0 <= v < PENDING.
Proof.
  intros Hinv Hp Hs Hne.
  pose proof (bi_queue m q Hinv) as Hq. pose proof (qwf_first q Hq) as Hfirst.
  destruct (bi_parent m q Hinv _ p Hp) as [Hbase|(j & d & Hj & Hd & Hjn)]; [lia|congruence|].
  destruct (bi_settled m q Hinv j _ Hjn Hj) as (v & Hv & Hrange).
  exists j, d, v. split; [done|]. split; [done|]. split; [done|].
  split; [|done]. apply in_bounds_valid. eapply bi_in_bounds; [done|].
  by eapply list_elem_of_lookup_2.
Qed.

Lemma cell_cost_base cost_min : cell_cost BASE_STATION cost_min = 0.
Proof. done. Qed.

Lemma cell_cost_add s cost_min :
  s <> BASE_STATION -> 0 <= cost_min -> cost_min + _soil_cost s < 2 ^ 32 ->
  cell_cost s cost_min = cost_min + _soil_cost s.
Proof.
  intros Hs Hmin Hmax. unfold cell_cost. rewrite u32_soil_cost.
  pose proof (soil_cost_range s).
  destruct (Z.eqb_spec (_soil_cost s) 0) as [H0|_].
  - by apply soil_cost_zero in H0.
  - apply u32_small. lia.
Qed.

Lemma costs_fit_cells m : map_wf m -> costs_fit m -> cells_fit m.
Proof.
  intros [Hw Hh _ _]. unfold costs_fit, cells_fit, COST_UNDEF. nia.
Qed.

Lemma fit_step m q :
  fit_inv m q -> first q <> last q ->
  exists m' q',
    iteration m q = Ok (m', q') /\ fit_inv m' q' /\
    first q' = first q + 1 /\
    soils m' = soils m /\ width m' = width m /\ height m' = height m /\
    exists new, history q' = history q ++ new.
Proof.
  intros [Hinv Hfit Hbound Hbase] Hne.
  destruct (bfs_iteration m q Hinv Hne) as
    (p & s & cost_min & c1 & q1 & q2 & new & Hp & Hs & Hdeq & Hcomp & Hpost
       & Hh2 & Hf2 & Hl2 & Hnewfresh & Hgood).
  pose proof (bi_queue m q Hinv) as Hq. pose proof (qwf_first q Hq) as Hfirst.
  pose proof (bfs_inv_last m q Hinv) as Hlast.
  set (c := cell_cost s cost_min) in *.
  assert (0 <= c <= 10000 * first q /\ (s = BASE_STATION -> c = 0)) as [Hc Hc0].
  { destruct (decide (s = BASE_STATION)) as [->|Hsoil].
    { subst c. rewrite cell_cost_base. split; [lia|done]. }
    split; [|done].
    destruct (settled_parent m q p s Hinv Hp Hs Hsoil)
      as (j & d & v & Hj & Hd & Hjn & Hvalid & Hv & Hvrange).
    pose proof (sp_lower_bound _ _ _ _ _ _ _ _ _ _ _ Hpost d v Hd Hvalid Hv) as Hle.
    destruct (settled_minimum m q p cost_min Hinv Hp) as
      (i & d' & Hi & Hd' & Hin' & Hg' & Hpos); [lia|apply Hpost|].
    pose proof (Hbound i _ _ Hin' Hi Hg') as Hb.
    pose proof (soil_cost_range s) as Hrange.
    unfold costs_fit, COST_UNDEF in Hfit.
    subst c. rewrite cell_cost_add; [lia|done|lia|lia]. }
  destruct Hgood as (c2 & Hiter & _ & _ & _ & Hgp & Hgnew & Hframe & Hinv').
  assert (bfs_inv (with_costs m c2) q2) as Hinv2.
  { apply Hinv'. unfold costs_fit, COST_UNDEF in Hfit.
    unfold PENDING, COST_UNDEF. lia. }
  clear Hinv'. rename Hinv2 into Hinv'.
  exists (with_costs m c2), q2. split; [done|]. split; [|by eauto 10].
  assert (forall i r, (history q ++ new) !! i = Some r -> Z.of_nat i < first q + 1 ->
            (Z.of_nat i = first q /\ r = p) \/
            (Z.of_nat i < first q /\ history q !! i = Some r /\
             grid_get c2 r = grid_get (costs m) r)) as Hcases.
  { intros i r [Hi|[Hlen Hi]]%lookup_app_Some Hlt.
    2:{ destruct Hq. lia. }
    destruct (decide (Z.of_nat i = first q)) as [Heq|Hik].
    - left. split; [done|]. rewrite <- Heq, Nat2Z.id in Hp. congruence.
    - right. split; [lia|]. split; [done|]. apply Hframe.
      + intros ->. pose proof (NoDup_lookup _ _ _ _ (bi_nodup m q Hinv) Hi Hp). lia.
      + intros Hrn. apply (Hnewfresh r Hrn). by eapply list_elem_of_lookup_2. }
  split; simpl.
  - done.
  - done.
  - rewrite Hh2, Hf2. intros i r v Hi Hlt Hv.
    destruct (Hcases i r Hi Hlt) as [[Heq ->]|(Hlt' & Hi' & Hsame)].
    + rewrite Hgp in Hv. injection Hv as <-. lia.
    + rewrite Hsame in Hv. by eapply Hbound.
  - rewrite Hh2, Hf2. intros i r Hi Hlt Hsoil.
    destruct (Hcases i r Hi Hlt) as [[Heq ->]|(Hlt' & Hi' & Hsame)].
    + rewrite Hgp. f_equal. apply Hc0. congruence.
    + rewrite Hsame. by eapply Hbase.
Qed.

(** The loop of [_compute_costs] runs to its end within [width * height]
    turns on a map whose path costs stay below the sentinels. *)
Lemma fit_run m o fuel :
  map_wf m -> costs_fit m -> costs_undefined m -> first_origin m o ->
  width m * height m <= Z.of_nat fuel ->
  exists m' q',
    _compute_costs fuel m = Ok (m', q') /\
    fit_inv m' q' /\ first q' = last q' /\
    soils m' = soils m /\ width m' = width m /\ height m' = height m /\
    history q' !! 0%nat = Some o.
Proof.
  intros Hwf Hfit Hundef Ho Hfuel.
  destruct (compute_costs_start m o Hwf (costs_fit_cells m Hwf Hfit) Hundef Ho)
    as (q0 & _ & Hstart & Hinv0 & Hh0 & Hf0 & Hl0).
  rewrite Hstart.
  destruct (propagate_run
              (fun m' q' => fit_inv m' q' /\ soils m' = soils m /\
                            width m' = width m /\ height m' = height m /\
                            history q' !! 0%nat = Some o)
              (width m * height m)) with (fuel := fuel) (m := m) (q := q0)
    as (m' & q' & Hrun & HI & Hend).
  - intros m1 q1 ([Hinv1 _ _ _] & _ & Hw1 & Hh1 & _).
    rewrite <- Hw1, <- Hh1. by apply bfs_inv_last.
  - intros m1 q1 (Hfit1 & Hs1 & Hw1 & Hh1 & Ho1) Hne.
    destruct (fit_step m1 q1 Hfit1 Hne) as
      (m2 & q2 & Hiter & Hfit2 & Hf2 & Hs2 & Hw2 & Hh2 & new & Hhist).
    exists m2, q2. split; [done|]. split; [|done].
    split; [done|]. split; [congruence|]. split; [congruence|].
    split; [congruence|]. rewrite Hhist. by apply lookup_app_l_Some.
  - split; [|by rewrite Hh0].
    split; [done|done|..].
    + rewrite Hf0. lia.
    + rewrite Hf0. lia.
  - lia.
  - exists m', q'. by destruct HI as (? & ? & ? & ? & ?).
Qed.

(** ** The grid is connected *)

Lemma step_towards w h o r :
  0 <= w < 2 ^ 32 -> 0 <= h < 2 ^ 32 ->
  in_bounds w h o -> in_bounds w h r -> r <> o ->
  exists r' d,
    in_bounds w h r' /\ d ∈ _direction_vectors /\ r = neighbour r' d /\
    manhattan o r' = manhattan o r - 1.
Proof.
  intros Hw Hh [Hox Hoy] [Hrx Hry] Hne.
  assert (forall r' d, d ∈ _direction_vectors ->
            x r = x r' + fst d -> y r = y r' + snd d ->
            r = neighbour r' d) as Hnb.
  { intros r' d _ Hx Hy. apply position_eq; unfold neighbour; simpl;
      rewrite <- ?Hx, <- ?Hy; symmetry; apply u32_small; lia. }
  unfold manhattan, in_bounds.
  destruct (Z.lt_trichotomy (x r) (x o)) as [Hlt|[Heq|Hgt]].
  - exists (mk_position (x r + 1) (y r)), (-1, 0). simpl.
    split; [lia|]. split; [by left|]. split; [apply Hnb; simpl; [by left|lia..]|lia].
  - destruct (Z.lt_trichotomy (y r) (y o)) as [Hlt|[Heq'|Hgt]].
    + exists (mk_position (x r) (y r + 1)), (0, -1). simpl.
      split; [lia|]. split; [by do 2 right; left|].
      split; [apply Hnb; simpl; [by do 2 right; left|lia..]|lia].
    + exfalso. apply Hne. by apply position_eq.
    + exists (mk_position (x r) (y r - 1)), (0, 1). simpl.
      split; [lia|]. split; [by do 3 right; left|].
      split; [apply Hnb; simpl; [by do 3 right; left|lia..]|lia].
  - exists (mk_position (x r - 1) (y r)), (1, 0). simpl.
    split; [lia|]. split; [by right; left|].
    split; [apply Hnb; simpl; [by right; left|lia..]|lia].
Qed.

(** A set of cells that holds one cell and the bounds-valid neighbours of
    each of its cells holds every cell of the grid. *)
Lemma grid_connected w h (P : position_s -> Prop) o :
  0 <= w < 2 ^ 32 -> 0 <= h < 2 ^ 32 ->
  in_bounds w h o -> P o ->
  (forall r d, P r -> in_bounds w h r -> d ∈ _direction_vectors ->
     POSITION_IS_VALID (neighbour r d) w h = true -> P (neighbour r d)) ->
  forall r, in_bounds w h r -> P r.
Proof.
  intros Hw Hh Ho HPo Hclosed r Hr.
  remember (Z.to_nat (manhattan o r)) as n eqn:Hn. revert r Hr Hn.
  induction n as [|n IH]; intros r Hr Hn.
  - assert (r = o) as ->; [|done].
    unfold manhattan in Hn. apply position_eq; lia.
  - destruct (decide (r = o)) as [->|Hne]; [done|].
    destruct (step_towards w h o r Hw Hh Ho Hr Hne) as (r' & d & Hr' & Hd & -> & Hdist).
    apply Hclosed; [|done|done|by apply in_bounds_valid].
    apply IH; [done|lia].
Qed.

Lemma all_reached m q :
  bfs_inv m q -> first q = last q -> history q <> [] ->
  forall r, in_bounds (width m) (height m) r -> r ∈ history q.
Proof.
  intros Hinv Hend Hne.
  destruct (history q) as [|o l] eqn:Hh; [done|].
  pose proof (bi_wf m q Hinv) as Hwf.
  pose proof (qwf_last q (bi_queue m q Hinv)) as Hlast.
  rewrite <- Hh. apply (grid_connected _ _ _ o); try apply Hwf.
  - apply (bi_in_bounds m q Hinv). rewrite Hh. by left.
  - rewrite Hh. by left.
  - intros r d [i Hi]%list_elem_of_lookup_1 Hr Hd Hv.
    apply (bi_closed m q Hinv i r d Hi); [|done..].
    apply lookup_lt_Some in Hi. lia.
Qed.

(** ** The repair pass keeps the costs up to the threshold *)

Lemma repair_sweep_keeps l m m' r v :
  map_wf m -> (forall p, p ∈ l -> in_bounds (width m) (height m) p) ->
  for_each repair_cell l m = Ok m' ->
  grid_get (costs m) r = Ok v -> v <= 10000 ->
  grid_get (costs m') r = Ok v.
Proof.
  revert m. induction l as [|p l IH]; intros m Hwf Hl Hrun Hv Hle.
  { by injection Hrun as <-. }
  apply for_each_cons in Hrun as (m1 & Hrep & Hrun).
  destruct (repair_cell_spec m p Hwf) as
    (m1' & s & v0 & Hrep' & Hwf1 & Hw1 & Hh1 & Hs1 & _ & Hv0 & Hframe & Hcase).
  { apply Hl. by left. }
  rewrite Hrep in Hrep'. injection Hrep' as <-.
  apply (IH m1); try done.
  - intros p' Hp'. rewrite Hw1, Hh1. apply Hl. by right.
  - destruct (decide (r = p)) as [->|Hne]; [|by rewrite Hframe].
    rewrite Hv in Hv0. injection Hv0 as <-.
    rewrite decide_False in Hcase by lia. by subst m1.
Qed.

Lemma remove_false_costs_keeps m m' r v :
  map_wf m -> _remove_false_costs m = Ok m' ->
  grid_get (costs m) r = Ok v -> v <= 10000 ->
  grid_get (costs m') r = Ok v.
Proof.
  intros Hwf. rewrite remove_false_costs_sweep.
  apply repair_sweep_keeps; [done|]. intros p. apply elem_of_row_major.
Qed.

Lemma remove_false_costs_total m :
  map_wf m ->
  exists m', _remove_false_costs m = Ok m' /\ map_wf m' /\
             width m' = width m /\ height m' = height m /\ soils m' = soils m.
Proof.
  intros Hwf. rewrite remove_false_costs_sweep.
  destruct (repair_sweep_spec (row_major (width m) (height m)) m Hwf)
    as (m' & Hrun & Hwf' & Hw' & Hh' & Hs' & _).
  { intros p. apply elem_of_row_major. }
  by exists m'.
Qed.

(** ** The origin keeps cost 0 *)

Lemma iteration_Ok m q m' q' :
  map_wf m -> iteration m q = Ok (m', q') ->
  exists p s cost_min c1 c2 q1 oq2 new,
    dequeue q = Ok (p, q1) /\ in_bounds (width m) (height m) p /\
    grid_get (soils m) p = Ok s /\
    scan_post (width m) (height m) p _direction_vectors
              0xFFFFFFFF (costs m) (Some q1) cost_min c1 oq2 new /\
    grid_set c1 p (cell_cost s cost_min) = Ok c2 /\
    m' = with_costs m c2 /\ q' = default q1 oq2.
Proof.
  intros Hwf Hiter. unfold iteration in Hiter.
  inv_bind Hiter. destruct a as [p q1].
  inv_bind Hiter. destruct a as [[c m1] oq2].
  inv_bind Hiter. injection Hiter as <- <-.
  apply compute_cell_cost_Ok in Ha0 as (s & cost_min & c1 & Hs & Hrun & -> & ->).
  pose proof (grid_get_in_bounds _ _ _ _ _ (wf_soils m Hwf) Hs) as Hp.
  destruct (map_wf_position m p Hwf Hp) as [Hx Hy].
  destruct (scan_neighbours_post _ _ _ _ _ _ _ _ _ _
              (neighbours_NoDup p Hx Hy) Hrun) as [new Hpost].
  exists p, s, cost_min, c1, a, q1, oq2, new. done.
Qed.

Lemma origin_zero_step m q m' q' o :
  map_wf m -> grid_get (soils m) o = Ok BASE_STATION ->
  grid_get (costs m) o = Ok 0 ->
  iteration m q = Ok (m', q') ->
  map_wf m' /\ soils m' = soils m /\ grid_get (costs m') o = Ok 0.
Proof.
  intros Hwf Hso Hco Hiter.
  destruct (iteration_Ok m q m' q' Hwf Hiter) as
    (p & s & cost_min & c1 & c2 & q1 & oq2 & new
       & Hdeq & Hp & Hs & Hpost & Hset & -> & ->).
  split; [|split; [done|]].
  { apply map_wf_with_costs; [done|]. eapply grid_set_dims; [|done].
    apply (sp_dims _ _ _ _ _ _ _ _ _ _ _ Hpost), Hwf. }
  simpl. destruct (decide (o = p)) as [->|Hne].
  - rewrite (grid_get_set_eq _ _ _ _ Hset). f_equal.
    rewrite Hso in Hs. by injection Hs as <-.
  - rewrite (grid_get_set_ne _ _ _ _ _ Hset Hne).
    rewrite (sp_frame _ _ _ _ _ _ _ _ _ _ _ Hpost); [done|].
    intros Hnew.
    destruct (sp_new _ _ _ _ _ _ _ _ _ _ _ Hpost o Hnew) as (d & _ & _ & _ & Hg).
    rewrite Hco in Hg. done.
Qed.

Lemma propagate_origin_zero fuel m q m' q' o :
  map_wf m -> grid_get (soils m) o = Ok BASE_STATION ->
  grid_get (costs m) o = Ok 0 ->
  propagate fuel m q = Ok (m', q') ->
  map_wf m' /\ grid_get (costs m') o = Ok 0.
Proof.
  revert m q. induction fuel as [|fuel IH]; intros m q Hwf Hso Hco Hrun.
  - simpl in Hrun. destruct (first q =? last q); [|done].
    by injection Hrun as <- <-.
  - rewrite propagate_unfold in Hrun.
    destruct (first q =? last q); [by injection Hrun as <- <-|].
    inv_bind Hrun. destruct a as [m1 q1].
    destruct (origin_zero_step m q m1 q1 o Hwf Hso Hco Ha) as (Hwf1 & Hs1 & Hc1).
    apply (IH m1 q1); [done|congruence|done|done].
Qed.

Lemma first_dequeue sz o q0 p q1 :
  enqueue (createQueue sz) o = Ok q0 -> dequeue q0 = Ok (p, q1) -> p = o.
Proof.
  unfold enqueue, dequeue. simpl.
  destruct (0 - 0 <? sz); [|done]. intros Henq. inv_bind Henq.
  injection Henq as <-. simpl.
  apply array_set_Ok in Ha as [Hrange ->]. intros Hdeq. inv_bind Hdeq.
  injection Hdeq as <- _. apply array_get_Ok in Ha as [_ Ha].
  rewrite list_lookup_insert_eq in Ha by lia. by injection Ha.
Qed.

Lemma compute_costs_origin_zero fuel m o m1 q1 :
  map_wf m -> first_origin m o ->
  _compute_costs fuel m = Ok (m1, q1) ->
  map_wf m1 /\ grid_get (costs m1) o = Ok 0.
Proof.
  intros Hwf Ho Hrun.
  destruct (first_origin_found m o Hwf Ho) as [Hget Hcheck].
  assert (grid_get (soils m) o = Ok BASE_STATION) as Hso
    by by destruct Ho as (_ & _ & _ & Ho & _).
  unfold _compute_costs in Hrun. rewrite Hget in Hrun. cbn [bind] in Hrun.
  rewrite Hcheck in Hrun. inv_bind Hrun. rename a into q0.
  pose proof (enqueue_Ok _ _ _ Ha) as (_ & Hf0 & _ & Hl0). simpl in Hf0, Hl0.
  destruct fuel as [|fuel].
  { simpl in Hrun. rewrite Hf0, Hl0 in Hrun. done. }
  rewrite propagate_unfold in Hrun. rewrite Hf0, Hl0 in Hrun. simpl in Hrun.
  inv_bind Hrun. destruct a as [m' q'].
  destruct (iteration_Ok m q0 m' q' Hwf Ha0) as
    (p & s & cost_min & c1 & c2 & q1' & oq2 & new
       & Hdeq & Hp & Hs & Hpost & Hset & -> & ->).
  assert (p = o) as -> by by eapply first_dequeue.
  rewrite Hso in Hs. injection Hs as <-.
  eapply propagate_origin_zero; [| | |done].
  - apply map_wf_with_costs; [done|]. eapply grid_set_dims; [|done].
    apply (sp_dims _ _ _ _ _ _ _ _ _ _ _ Hpost), Hwf.
  - done.
  - simpl. by rewrite (grid_get_set_eq _ _ _ _ Hset).
Qed.

(** C8.  On every well-formed map with an origin cell, whenever the two
    passes complete the cost of the first origin cell in row-major order
    is exactly 0; and they do complete, within [width * height] turns of
    the loop, when the cost array starts undefined and the path costs of
    the map stay below the sentinels. *)
Theorem origin_cost_zero m o :
  map_wf m -> first_origin m o ->
  (forall fuel m1 q1 m2,
     _compute_costs fuel m = Ok (m1, q1) -> _remove_false_costs m1 = Ok m2 ->
     grid_get (costs m2) o = Ok 0) /\
  (costs_undefined m -> costs_fit m ->
   forall fuel, width m * height m <= Z.of_nat fuel ->
     exists m1 q1 m2,
       _compute_costs fuel m = Ok (m1, q1) /\ _remove_false_costs m1 = Ok m2).
Proof.
  intros Hwf Ho. split.
  - intros fuel m1 q1 m2 Hrun Hrep.
    destruct (compute_costs_origin_zero fuel m o m1 q1 Hwf Ho Hrun) as [Hwf1 Hc1].
    by eapply remove_false_costs_keeps.
  - intros Hundef Hfit fuel Hfuel.
    destruct (fit_run m o fuel Hwf Hfit Hundef Ho Hfuel)
      as (m1 & q1 & Hrun & Hinv & _).
    destruct (remove_false_costs_total m1) as (m2 & Hrep & _).
    { apply Hinv. }
    by exists m1, q1, m2.
Qed.

(** ** Manhattan distance on the grid *)

Lemma valid_neighbour_coords w h p d :
  0 <= w < 2 ^ 32 -> 0 <= h < 2 ^ 32 -> in_bounds w h p ->
  d ∈ _direction_vectors -> POSITION_IS_VALID (neighbour p d) w h = true ->
  x (neighbour p d) = x p + fst d /\ y (neighbour p d) = y p + snd d.
Proof.
  intros Hw Hh [Hx Hy] Hd [Hx' Hy']%valid_in_bounds. unfold neighbour in *.
  each_direction d Hd; simpl in *; solve_u32.
Qed.

Lemma neighbour_manhattan w h o p d :
  0 <= w < 2 ^ 32 -> 0 <= h < 2 ^ 32 -> in_bounds w h p ->
  d ∈ _direction_vectors -> POSITION_IS_VALID (neighbour p d) w h = true ->
  manhattan o (neighbour p d) = manhattan o p + 1 \/
  manhattan o (neighbour p d) = manhattan o p - 1.
Proof.
  intros Hw Hh Hp Hd Hv.
  destruct (valid_neighbour_coords w h p d Hw Hh Hp Hd Hv) as [Hx Hy].
  unfold manhattan. rewrite Hx, Hy.
  each_direction d Hd; simpl; lia.
Qed.

Lemma manhattan_bound w h o p :
  in_bounds w h o -> in_bounds w h p -> 0 <= manhattan o p < w * h.
Proof. intros [Hox Hoy] [Hpx Hpy]. unfold manhattan. nia. Qed.

Lemma manhattan_zero o p : manhattan o p = 0 <-> p = o.
Proof.
  unfold manhattan. split.
  - intros H. apply position_eq; lia.
  - intros ->. lia.
Qed.

(** The minimum of the neighbour loop is [b] when some bounds-valid
    neighbour holds [b] and none holds less. *)
Lemma cost_min_exact w h p (c : list (list Z)) cost_min b :
  (forall d v, d ∈ _direction_vectors ->
     POSITION_IS_VALID (neighbour p d) w h = true ->
     grid_get c (neighbour p d) = Ok v -> cost_min <= v) ->
  (cost_min = COST_UNDEF \/
   exists d, d ∈ _direction_vectors /\
     POSITION_IS_VALID (neighbour p d) w h = true /\
     grid_get c (neighbour p d) = Ok cost_min) ->
  b <= COST_UNDEF ->
  (exists d, d ∈ _direction_vectors /\
     POSITION_IS_VALID (neighbour p d) w h = true /\
     grid_get c (neighbour p d) = Ok b) ->
  (forall d v, d ∈ _direction_vectors ->
     POSITION_IS_VALID (neighbour p d) w h = true ->
     grid_get c (neighbour p d) = Ok v -> b <= v) ->
  cost_min = b.
Proof.
  intros Hlb Hatt Hb (d & Hd & Hv & Hg) Hmin.
  pose proof (Hlb d b Hd Hv Hg) as Hle.
  destruct Hatt as [->|(d' & Hd' & Hv' & Hg')]; [lia|].
  pose proof (Hmin d' cost_min Hd' Hv' Hg'). lia.
Qed.

(** On a map that is plain around its origin, a cell other than the
    origin whose neighbours hold their distance to the origin, or more
    than the distance of the cell, is given its own distance. *)
Lemma plain_cell_cost m o p cost_min :
  map_wf m -> cells_fit m ->
  in_bounds (width m) (height m) o -> in_bounds (width m) (height m) p ->
  p <> o ->
  (forall d v, d ∈ _direction_vectors ->
     POSITION_IS_VALID (neighbour p d) (width m) (height m) = true ->
     grid_get (costs m) (neighbour p d) = Ok v -> cost_min <= v) ->
  (cost_min = COST_UNDEF \/
   exists d, d ∈ _direction_vectors /\
     POSITION_IS_VALID (neighbour p d) (width m) (height m) = true /\
     grid_get (costs m) (neighbour p d) = Ok cost_min) ->
  (forall r, in_bounds (width m) (height m) r ->
     manhattan o r < manhattan o p ->
     grid_get (costs m) r = Ok (manhattan o r)) ->
  (forall d v, d ∈ _direction_vectors ->
     POSITION_IS_VALID (neighbour p d) (width m) (height m) = true ->
     grid_get (costs m) (neighbour p d) = Ok v ->
     manhattan o p - 1 <= v) ->
  cell_cost PLAIN cost_min = manhattan o p.
Proof.
  intros Hwf Hcells Ho Hp Hne Hlb Hatt Hcloser Hothers.
  pose proof (manhattan_bound _ _ o p Ho Hp) as Hrange.
  unfold cells_fit in Hcells.
  destruct (step_towards _ _ o p (wf_width m Hwf) (wf_height m Hwf) Ho Hp Hne)
    as (r' & d & Hr' & Hd & Hpr & Hdist).
  destruct (map_wf_position m r' Hwf Hr') as [Hx Hy].
  destruct (neighbour_sym r' d Hx Hy Hd) as (d' & Hd' & Hsym).
  rewrite <- Hpr in Hsym.
  assert (cost_min = manhattan o p - 1) as ->.
  { eapply cost_min_exact; try done.
    - unfold COST_UNDEF. lia.
    - exists d'. split; [done|]. rewrite Hsym.
      split; [by apply in_bounds_valid|]. rewrite <- Hdist. apply Hcloser; [done|lia]. }
  rewrite cell_cost_add; simpl; [lia|done|..].
  - assert (manhattan o p <> 0) by by rewrite manhattan_zero. lia.
  - lia.
Qed.

(** ** The loop on a map that is plain around its origin *)

Lemma plain_step o m q :
  plain_inv o m q -> first q <> last q ->
  exists m' q',
    iteration m q = Ok (m', q') /\ plain_inv o m' q' /\
    first q' = first q + 1.
Proof.
  intros [Hinv Hcells Hplain Horigin Hcost Hsorted Hspan Hlevel] Hne.
  destruct (bfs_iteration m q Hinv Hne) as
    (p & s & cost_min & c1 & q1 & q2 & new & Hp & Hs & Hdeq & Hcomp & Hpost
       & Hh2 & Hf2 & Hl2 & Hnewfresh & Hgood).
  pose proof (bi_wf m q Hinv) as Hwf.
  pose proof (bi_queue m q Hinv) as Hq. pose proof (qwf_first q Hq) as Hfirst.
  pose proof (qwf_last q Hq) as Hlast.
  assert (in_bounds (width m) (height m) p) as Hpin.
  { apply (bi_in_bounds m q Hinv). by eapply list_elem_of_lookup_2. }
  assert (in_bounds (width m) (height m) o) as Hoin.
  { apply (bi_in_bounds m q Hinv). by eapply list_elem_of_lookup_2. }
  destruct (map_wf_position m p Hwf Hpin) as [Hx Hy].
  pose proof (manhattan_bound _ _ o p Hoin Hpin) as Hrange.
  assert (forall i r, history q !! i = Some r ->
            manhattan o r < manhattan o p -> Z.of_nat i < first q) as Hbefore.
  { intros i r Hi Hlt. destruct (Z.lt_ge_cases (Z.of_nat i) (first q)); [done|].
    pose proof (Hsorted (Z.to_nat (first q)) i p r Hp Hi). lia. }
  set (c := cell_cost s cost_min) in *.
  assert (c = manhattan o p) as Hc.
  { destruct (decide (p = o)) as [->|Hpo].
    { destruct Hplain as [Hso _]. rewrite Hso in Hs. injection Hs as <-.
      subst c. rewrite cell_cost_base. symmetry. by apply manhattan_zero. }
    destruct Hplain as [_ Hpl]. rewrite (Hpl p Hpin Hpo) in Hs. injection Hs as <-.
    apply (plain_cell_cost m o p cost_min); try done; try apply Hpost.
    - intros r Hr Hlt.
      destruct (list_elem_of_lookup_1 _ _ (Hlevel p r Hp Hr ltac:(lia))) as [i Hi].
      apply (Hcost i r Hi). by eapply Hbefore.
    - intros d v Hd Hv Hg.
      pose proof (valid_in_bounds _ _ _ _ Hv) as Hnin.
      pose proof (manhattan_bound _ _ o _ Hoin Hnin) as Hnrange.
      unfold cells_fit in Hcells.
      destruct (decide (neighbour p d ∈ history q))
        as [[i Hi]%list_elem_of_lookup_1|Hnel].
      2:{ rewrite (bi_fresh m q Hinv _ Hnin Hnel) in Hg. injection Hg as <-.
          unfold COST_UNDEF. lia. }
      destruct (Z.lt_trichotomy (Z.of_nat i) (first q)) as [Hi'|[Hi'|Hi']].
      + rewrite (Hcost i _ Hi Hi') in Hg. injection Hg as <-.
        destruct (neighbour_manhattan _ _ o p d (wf_width m Hwf) (wf_height m Hwf)
                    Hpin Hd Hv); lia.
      + rewrite <- Hi', Nat2Z.id in Hp. rewrite Hp in Hi. injection Hi as Hi.
        symmetry in Hi. by apply neighbour_ne in Hi.
      + rewrite (bi_pending m q Hinv i _ Hi Hi') in Hg. injection Hg as <-.
        unfold PENDING, COST_UNDEF. lia. }
  destruct Hgood as (c2 & Hiter & _ & _ & _ & Hgp & Hgnew & Hframe & Hinv').
  assert (bfs_inv (with_costs m c2) q2) as Hinv2.
  { apply Hinv'. unfold cells_fit in Hcells. unfold PENDING, COST_UNDEF. lia. }
  clear Hinv'. rename Hinv2 into Hinv'.
  exists (with_costs m c2), q2. split; [done|]. split; [|done].
  assert (forall r, r ∈ new -> manhattan o r = manhattan o p + 1) as Hnewdist.
  { intros r Hr.
    destruct (sp_new _ _ _ _ _ _ _ _ _ _ _ Hpost r Hr) as (d & Hd & -> & Hv & _).
    destruct (neighbour_manhattan _ _ o p d (wf_width m Hwf) (wf_height m Hwf)
                Hpin Hd Hv) as [Hup|Hdown]; [done|].
    exfalso. apply (Hnewfresh _ Hr).
    apply (Hlevel p _ Hp); [by apply valid_in_bounds|lia]. }
  assert (forall r, r ∈ history q ++ new -> manhattan o r <= manhattan o p + 1)
    as Hall.
  { intros r [Hr|Hr]%elem_of_app; [by apply Hspan|]. rewrite Hnewdist; [lia|done]. }
  assert (forall i j r r',
            (history q ++ new) !! i = Some r -> (history q ++ new) !! j = Some r' ->
            (i <= j)%nat -> manhattan o r <= manhattan o r') as Hsorted'.
  { intros i j r r' [Hi|[Hleni Hi]]%lookup_app_Some [Hj|[Hlenj Hj]]%lookup_app_Some Hij.
    - by eapply Hsorted.
    - rewrite (Hnewdist r'); [|by eapply list_elem_of_lookup_2].
      apply Hspan; [done|]. by eapply list_elem_of_lookup_2.
    - apply lookup_lt_Some in Hj. lia.
    - rewrite (Hnewdist r), (Hnewdist r'); [lia|by eapply list_elem_of_lookup_2..]. }
  assert ((history q ++ new) !! Z.to_nat (first q) = Some p) as Hp'
    by by apply lookup_app_l_Some.
  split; simpl.
  - done.
  - done.
  - done.
  - rewrite Hh2. by apply lookup_app_l_Some.
  - rewrite Hh2, Hf2. intros i r [Hi|[Hlen Hi]]%lookup_app_Some Hlt.
    2:{ lia. }
    destruct (decide (Z.of_nat i = first q)) as [Heq|Hik].
    + rewrite <- Heq, Nat2Z.id in Hp. assert (r = p) as -> by congruence.
      rewrite Hgp. by f_equal.
    + rewrite Hframe.
      * apply (Hcost i r Hi). lia.
      * intros ->. pose proof (NoDup_lookup _ _ _ _ (bi_nodup m q Hinv) Hi Hp). lia.
      * intros Hrn. apply (Hnewfresh r Hrn). by eapply list_elem_of_lookup_2.
  - rewrite Hh2. apply Hsorted'.
  - rewrite Hh2, Hf2. intros p' r Hp2 Hr.
    pose proof (Hsorted' (Z.to_nat (first q)) (Z.to_nat (first q + 1)) p p' Hp' Hp2).
    pose proof (Hall r Hr). lia.
  - rewrite Hh2, Hf2. intros p' r Hp2 Hr Hle.
    destruct (Z.le_gt_cases (manhattan o r) (manhattan o p)) as [Hle'|Hgt].
    { apply elem_of_app. left. by apply (Hlevel p r Hp). }
    pose proof (Hall p' (list_elem_of_lookup_2 _ _ _ Hp2)) as Hp'le.
    assert (r <> o) as Hro.
    { intros ->. assert (manhattan o o = 0) by by apply manhattan_zero. lia. }
    destruct (step_towards _ _ o r (wf_width m Hwf) (wf_height m Hwf) Hoin Hr Hro)
      as (r' & d & Hr' & Hd & -> & Hdist).
    destruct (list_elem_of_lookup_1 _ _ (Hlevel p r' Hp Hr' ltac:(lia))) as [i Hi].
    rewrite <- Hh2.
    apply (bi_closed _ _ Hinv' i r' d);
      [rewrite Hh2; by apply lookup_app_l_Some| |done|by apply in_bounds_valid].
    rewrite Hf2. destruct (Z.lt_ge_cases (Z.of_nat i) (first q + 1)); [done|].
    pose proof (Hsorted' (Z.to_nat (first q + 1)) i p' r' Hp2
                  (lookup_app_l_Some _ _ _ _ Hi)). lia.
Qed.

Lemma plain_first_origin m o :
  in_bounds (width m) (height m) o -> plain_around m o -> first_origin m o.
Proof.
  intros Ho [Hso Hpl].
  destruct (list_elem_of_split _ _ (proj2 (elem_of_row_major _ _ o) Ho))
    as (before & after & Hsplit).
  exists before, after. split; [done|]. split; [done|].
  intros r Hr. pose proof (NoDup_row_major (width m) (height m)) as Hnd.
  rewrite Hsplit in Hnd. apply NoDup_app in Hnd as (_ & Hdisj & _).
  rewrite Hpl; [done| |].
  - apply elem_of_row_major. rewrite Hsplit. apply elem_of_app. by left.
  - intros ->. apply (Hdisj o Hr). by left.
Qed.

Lemma plain_run m o fuel :
  map_wf m -> cells_fit m -> costs_undefined m ->
  in_bounds (width m) (height m) o -> plain_around m o ->
  width m * height m <= Z.of_nat fuel ->
  exists m' q',
    _compute_costs fuel m = Ok (m', q') /\
    plain_inv o m' q' /\ first q' = last q' /\
    soils m' = soils m /\ width m' = width m /\ height m' = height m.
Proof.
  intros Hwf Hcells Hundef Ho Hplain Hfuel.
  destruct (compute_costs_start m o Hwf Hcells Hundef
              (plain_first_origin m o Ho Hplain))
    as (q0 & _ & Hstart & Hinv0 & Hh0 & Hf0 & Hl0).
  rewrite Hstart.
  destruct (propagate_run
              (fun m' q' => plain_inv o m' q' /\ soils m' = soils m /\
                            width m' = width m /\ height m' = height m)
              (width m * height m)) with (fuel := fuel) (m := m) (q := q0)
    as (m' & q' & Hrun & HI & Hend).
  - intros m1 q1 ([Hinv1 _ _ _ _ _ _ _] & _ & Hw1 & Hh1).
    rewrite <- Hw1, <- Hh1. by apply bfs_inv_last.
  - intros m1 q1 (Hpl1 & Hs1 & Hw1 & Hh1) Hne.
    destruct (plain_step o m1 q1 Hpl1 Hne) as (m2 & q2 & Hiter & Hpl2 & Hf2).
    exists m2, q2. split; [done|]. split; [|done]. split; [done|].
    destruct (iteration_Ok m1 q1 m2 q2 (bi_wf _ _ (pi_inv _ _ _ Hpl1)) Hiter) as
      (? & ? & ? & ? & ? & ? & ? & ? & _ & _ & _ & _ & _ & -> & _).
    simpl. done.
  - split; [|done]. split; try done.
    + by rewrite Hh0.
    + rewrite Hf0. lia.
    + rewrite Hh0. intros [|i] [|j] r r' [= <-] [= <-] _; lia.
    + rewrite Hh0, Hf0. intros p r Hp ->%list_elem_of_singleton.
      assert (p = o) as -> by (simpl in Hp; congruence). lia.
    + rewrite Hh0, Hf0. intros p r Hp Hr Hle.
      assert (p = o) as -> by (simpl in Hp; congruence).
      apply list_elem_of_singleton, manhattan_zero.
      pose proof (manhattan_bound _ _ o r Ho Hr).
      assert (manhattan o o = 0) by by apply manhattan_zero. lia.
  - lia.
  - exists m', q'. by destruct HI as (? & ? & ? & ?).
Qed.

Lemma repair_cell_manhattan m o p m1 :
  map_wf m -> cells_fit m -> plain_around m o ->
  in_bounds (width m) (height m) o -> in_bounds (width m) (height m) p ->
  (forall r, in_bounds (width m) (height m) r ->
             grid_get (costs m) r = Ok (manhattan o r)) ->
  repair_cell m p = Ok m1 ->
  forall r, in_bounds (width m) (height m) r ->
            grid_get (costs m1) r = Ok (manhattan o r).
Proof.
  intros Hwf Hcells Hplain Ho Hp Hall Hrep.
  destruct (repair_cell_spec m p Hwf Hp) as
    (m1' & s & v0 & Hrep' & Hwf1 & Hw1 & Hh1 & Hs1 & Hs & Hv0 & Hframe & Hcase).
  rewrite Hrep in Hrep'. injection Hrep' as <-.
  destruct (decide (s <> CREVASSE /\ 10000 < v0)) as [[_ Hbig]|_]; [|by subst m1].
  destruct Hcase as (v & Hv & Hgv).
  rewrite (Hall p Hp) in Hv0. injection Hv0 as <-.
  assert (p <> o) as Hpo.
  { intros ->. assert (manhattan o o = 0) by by apply manhattan_zero. lia. }
  destruct Hplain as [_ Hpl]. rewrite (Hpl p Hp Hpo) in Hs. injection Hs as <-.
  destruct (compute_cell_cost_pure m p None PLAIN Hwf Hp (Hpl p Hp Hpo)
              (or_introl eq_refl)) as (cost_min & Hv' & Hlb & Hatt).
  rewrite Hv in Hv'. injection Hv' as ->.
  intros r Hr. destruct (decide (r = p)) as [->|Hne]; [|by rewrite Hframe; auto].
  rewrite Hgv. f_equal.
  apply (plain_cell_cost m o p cost_min); try done.
  - intros r Hr' _. by apply Hall.
  - intros d v Hd Hvalid Hg.
    rewrite (Hall _ (valid_in_bounds _ _ _ _ Hvalid)) in Hg. injection Hg as <-.
    destruct (neighbour_manhattan _ _ o p d (wf_width m Hwf) (wf_height m Hwf)
                Hp Hd Hvalid); lia.
Qed.

Lemma repair_sweep_manhattan l m o m' :
  map_wf m -> cells_fit m -> plain_around m o ->
  in_bounds (width m) (height m) o ->
  (forall p, p ∈ l -> in_bounds (width m) (height m) p) ->
  (forall r, in_bounds (width m) (height m) r ->
             grid_get (costs m) r = Ok (manhattan o r)) ->
  for_each repair_cell l m = Ok m' ->
  forall r, in_bounds (width m) (height m) r ->
            grid_get (costs m') r = Ok (manhattan o r).
Proof.
  revert m. induction l as [|p l IH]; intros m Hwf Hcells Hplain Ho Hl Hall Hrun.
  { by injection Hrun as <-. }
  apply for_each_cons in Hrun as (m1 & Hrep & Hrun).
  destruct (repair_cell_spec m p Hwf) as
    (m1' & s & v0 & Hrep' & Hwf1 & Hw1 & Hh1 & Hs1 & _).
  { apply Hl. by left. }
  rewrite Hrep in Hrep'. injection Hrep' as <-.
  rewrite <- Hw1, <- Hh1. apply (IH m1); try done.
  - unfold cells_fit. by rewrite Hw1, Hh1.
  - unfold plain_around. by rewrite Hs1, Hw1, Hh1.
  - by rewrite Hw1, Hh1.
  - rewrite Hw1, Hh1. intros p' Hp'. apply Hl. by right.
  - rewrite Hw1, Hh1. apply (repair_cell_manhattan m o p m1); try done.
    apply Hl. by left.
Qed.

(** C7 (as amended).  On a well-formed map whose cell count fits the
    queue, with one origin cell and every other cell of plain terrain, the
    two passes complete and leave in every cell its Manhattan distance to
    the origin. *)
Theorem plain_costs_manhattan m o fuel :
  map_wf m -> cells_fit m -> costs_undefined m ->
  in_bounds (width m) (height m) o -> plain_around m o ->
  width m * height m <= Z.of_nat fuel ->
  exists m1 q1 m2,
    _compute_costs fuel m = Ok (m1, q1) /\ _remove_false_costs m1 = Ok m2 /\
    forall r, in_bounds (width m) (height m) r ->
              grid_get (costs m2) r = Ok (manhattan o r).
Proof.
  intros Hwf Hcells Hundef Ho Hplain Hfuel.
  destruct (plain_run m o fuel Hwf Hcells Hundef Ho Hplain Hfuel)
    as (m1 & q1 & Hrun & Hinv & Hend & Hs1 & Hw1 & Hh1).
  pose proof (pi_inv _ _ _ Hinv) as Hbfs.
  pose proof (bi_wf _ _ Hbfs) as Hwf1.
  destruct (remove_false_costs_total m1 Hwf1) as (m2 & Hrep & _).
  exists m1, q1, m2. split; [done|]. split; [done|].
  rewrite remove_false_costs_sweep in Hrep.
  rewrite <- Hw1, <- Hh1.
  eapply repair_sweep_manhattan; try done.
  - apply Hinv.
  - apply Hinv.
  - by rewrite Hw1, Hh1.
  - intros p. apply elem_of_row_major.
  - intros r Hr.
    assert (history q1 <> []) as Hne.
    { intros Hnil. pose proof (pi_origin _ _ _ Hinv) as H0. by rewrite Hnil in H0. }
    destruct (list_elem_of_lookup_1 _ _ (all_reached m1 q1 Hbfs Hend Hne r Hr))
      as [i Hi].
    apply (pi_cost _ _ _ Hinv i r Hi).
    pose proof (lookup_lt_Some _ _ _ Hi).
    pose proof (qwf_last q1 (bi_queue _ _ Hbfs)). lia.
Qed.

(** ** Maps as they are loaded *)

Lemma initial_map_undefined h w terrain : costs_undefined (initial_map h w terrain).
Proof.
  intros r [Hx Hy]. simpl in *. apply grid_get_Ok.
  split; [lia|]. split; [lia|].
  exists (replicate (Z.to_nat w) COST_UNDEF).
  split; apply lookup_replicate_2; lia.
Qed.

Lemma initial_map_wf h w terrain :
  0 <= w < 2 ^ 32 -> 0 <= h < 2 ^ 32 -> grid_dims terrain w h ->
  map_wf (initial_map h w terrain).
Proof.
  intros Hw Hh Hdims. split; simpl; try done.
  split; [by rewrite length_replicate|].
  apply Forall_forall. intros row [-> _]%elem_of_replicate.
  by rewrite length_replicate.
Qed.

(** Without an origin cell [_compute_costs] returns at once: nothing is
    enqueued and no cost is written. *)
Lemma compute_costs_no_origin fuel m :
  map_wf m -> no_origin m ->
  _compute_costs fuel m
  = Ok (m, createQueue (int_of_u32 (u32 (width m * height m)))).
Proof.
  intros Hwf Hnone. unfold _compute_costs.
  destruct (get_base_station_pos_spec m Hwf)
    as [(o & (before & after & Hsplit & Ho & _) & _)|[_ ->]]; [|done].
  exfalso. apply (Hnone o); [|done].
  apply elem_of_row_major. rewrite Hsplit. apply elem_of_app. right. by left.
Qed.

(** C1.  On the 1 by 3 map of plain cells, which has no origin,
    [_compute_costs] performs no propagation (nothing is enqueued, every
    cost stays [COST_UNDEF]); [map_from_file] then runs the repair pass,
    which overwrites the three undefined costs with 0, 1 and 2. *)
Theorem no_origin_costs_overwritten :
  _compute_costs 3 (initial_map 1 3 [[PLAIN; PLAIN; PLAIN]])
  = Ok (initial_map 1 3 [[PLAIN; PLAIN; PLAIN]], createQueue 3) /\
  costs (initial_map 1 3 [[PLAIN; PLAIN; PLAIN]])
  = [[COST_UNDEF; COST_UNDEF; COST_UNDEF]] /\
  map_from_file 3 1 3 [[PLAIN; PLAIN; PLAIN]]
  = Ok {| width := 3; height := 1; soils := [[PLAIN; PLAIN; PLAIN]];
          costs := [[0; 1; 2]] |}.
Proof. split; [|split]; vm_compute; reflexivity. Qed.

(** C5, the claim refuted.  On the 1 by 4 map [origin, crevasse, origin,
    plain] the second origin cell (2,0) ends with cost 0 although neither
    of its neighbours holds 0 (its cost is not that of terrain crossed from
    a neighbour), and the plain cell (3,0) behind it ends with cost 1, that
    is 0 + 1 counted from the second origin, although it is separated from
    the first origin by a crevasse of cost 10000. *)
Lemma second_origin_is_a_source :
  exists m2,
    map_from_file 4 1 4 [[BASE_STATION; CREVASSE; BASE_STATION; PLAIN]] = Ok m2 /\
    costs m2 = [[0; 10000; 0; 1]] /\
    first_origin m2 (mk_position 0 0) /\
    grid_get (soils m2) (mk_position 2 0) = Ok BASE_STATION /\
    ~ derived_from_neighbour m2 (mk_position 2 0) /\
    grid_get (costs m2) (mk_position 3 0) = Ok (0 + _soil_cost PLAIN).
Proof.
  eexists. split; [vm_compute; reflexivity|]. split; [reflexivity|].
  split; [|split; [reflexivity|split; [|reflexivity]]].
  - exists [], [mk_position 1 0; mk_position 2 0; mk_position 3 0].
    split; [vm_compute; reflexivity|]. split; [reflexivity|].
    by intros r Hr%elem_of_nil.
  - intros (d & s & v & vn & Hd & Hv & Hs & Hc & Hn & Heq).
    injection Hs as <-. injection Hc as <-.
    each_direction d Hd; try discriminate Hv; injection Hn as <-; discriminate Heq.
Qed.

(** C7, the claim refuted.  On the 1 by 2 map [origin, dune], which has
    one origin and no crevasse, the dune cell ends with cost 2 while its
    Manhattan distance to the origin is 1. *)
Lemma dune_cost_is_not_distance :
  exists m2,
    map_from_file 2 1 2 [[BASE_STATION; ERG]] = Ok m2 /\
    first_origin m2 (mk_position 0 0) /\
    (forall r, in_bounds 2 1 r -> grid_get (soils m2) r <> Ok CREVASSE) /\
    grid_get (costs m2) (mk_position 1 0) = Ok 2 /\
    manhattan (mk_position 0 0) (mk_position 1 0) = 1.
Proof.
  eexists. split; [vm_compute; reflexivity|]. split; [|split; [|split; reflexivity]].
  - exists [], [mk_position 1 0].
    split; [vm_compute; reflexivity|]. split; [reflexivity|].
    by intros r Hr%elem_of_nil.
  - intros [cx cy] [Hx Hy]. simpl in *.
    assert (cy = 0) as -> by lia.
    assert (cx = 0 \/ cx = 1) as [-> | ->] by lia; discriminate.
Qed.

(** ** Maps whose path costs stay below the sentinels *)

Lemma run_turns_inv (I : map_s -> t_queue -> Prop) :
  (forall m q, I m q -> first q <> last q ->
     exists m' q', iteration m q = Ok (m', q') /\ I m' q') ->
  forall n m q, I m q -> exists m' q', run_turns n m q = Ok (m', q') /\ I m' q'.
Proof.
  intros Hstep. induction n as [|n IH]; intros m q HI; [by exists m, q|].
  simpl. destruct (Z.eqb_spec (first q) (last q)); [by exists m, q|].
  destruct (Hstep m q HI) as (m1 & q1 & -> & HI1); [done|].
  cbn [bind]. by apply IH.
Qed.

(** C3 (as amended).  On a well-formed map with an origin whose path
    costs stay below the sentinels ([10000 * width * height < COST_UNDEF])
    and whose costs start undefined, at every turn of the loop of
    [_compute_costs] the log of all cells enqueued so far has no
    duplicate, every enqueued cell behind the cursor holds the pending
    sentinel, no cell outside of the log holds anything but
    [COST_UNDEF], and the number of pending cells is at most the capacity
    [width * height] of the queue. *)
Theorem enqueued_at_most_once m o n :
  map_wf m -> costs_fit m -> costs_undefined m -> first_origin m o ->
  exists q0 m' q',
    enqueue (createQueue (int_of_u32 (u32 (width m * height m)))) o = Ok q0 /\
    run_turns n m q0 = Ok (m', q') /\
    NoDup (history q') /\
    (forall i r, history q' !! i = Some r -> first q' < Z.of_nat i ->
                 grid_get (costs m') r = Ok (COST_UNDEF - 1)) /\
    (forall r, in_bounds (width m) (height m) r -> r ∉ history q' ->
               grid_get (costs m') r = Ok COST_UNDEF) /\
    size q' = width m * height m /\
    Z.of_nat (length (pending q')) = last q' - first q' /\
    Z.of_nat (length (pending q')) <= size q'.
Proof.
  intros Hwf Hfit Hundef Ho.
  destruct (compute_costs_start m o Hwf (costs_fit_cells m Hwf Hfit) Hundef Ho)
    as (q0 & Henq & _ & Hinv0 & Hh0 & Hf0 & Hl0).
  destruct (run_turns_inv
              (fun m' q' => fit_inv m' q' /\
                            width m' = width m /\ height m' = height m))
    with (n := n) (m := m) (q := q0) as (m' & q' & Hrun & Hinv & Hw & Hh).
  - intros m1 q1 (Hfit1 & Hw1 & Hh1) Hne.
    destruct (fit_step m1 q1 Hfit1 Hne) as
      (m2 & q2 & Hiter & Hfit2 & _ & _ & Hw2 & Hh2 & _).
    exists m2, q2. split; [done|]. split; [done|]. split; congruence.
  - split; [|done]. split; [done|done|..].
    + rewrite Hf0. lia.
    + rewrite Hf0. lia.
  - exists q0, m', q'. split; [done|]. split; [done|].
    pose proof (fi_inv _ _ Hinv) as Hbfs.
    pose proof (bi_queue _ _ Hbfs) as Hq.
    split; [apply Hbfs|]. split; [apply Hbfs|].
    split. { rewrite <- Hw, <- Hh. apply Hbfs. }
    split. { rewrite <- Hw, <- Hh. apply Hbfs. }
    assert (Z.of_nat (length (pending q')) = last q' - first q') as Hlen.
    { unfold pending. rewrite length_drop.
      pose proof (qwf_first q' Hq). pose proof (qwf_last q' Hq). lia. }
    split; [done|]. rewrite Hlen. apply Hq.
Qed.

Lemma three_plain_origin :
  first_origin (initial_map 1 3 [[BASE_STATION; PLAIN; PLAIN]]) (mk_position 0 0).
Proof.
  exists [], [mk_position 1 0; mk_position 2 0].
  split; [vm_compute; reflexivity|]. split; [reflexivity|].
  intros r Hr. by apply elem_of_nil in Hr.
Defined.

Lemma three_plain_wf : map_wf (initial_map 1 3 [[BASE_STATION; PLAIN; PLAIN]]).
Proof. solve_map_wf. Defined.

Lemma three_plain_fit : costs_fit (initial_map 1 3 [[BASE_STATION; PLAIN; PLAIN]]).
Proof. vm_compute. reflexivity. Defined.

Lemma enqueued_at_most_once_witness :
  exists q0 m' q',
    enqueue (createQueue 3) (mk_position 0 0) = Ok q0 /\
    run_turns 2 (initial_map 1 3 [[BASE_STATION; PLAIN; PLAIN]]) q0 = Ok (m', q') /\
    NoDup (history q') /\
    (forall i r, history q' !! i = Some r -> first q' < Z.of_nat i ->
                 grid_get (costs m') r = Ok (COST_UNDEF - 1)) /\
    (forall r, in_bounds 3 1 r -> r ∉ history q' ->
               grid_get (costs m') r = Ok COST_UNDEF) /\
    size q' = 3 /\
    Z.of_nat (length (pending q')) = last q' - first q' /\
    Z.of_nat (length (pending q')) <= size q'.
Proof.
  exact (enqueued_at_most_once
           (initial_map 1 3 [[BASE_STATION; PLAIN; PLAIN]]) (mk_position 0 0) 2
           three_plain_wf three_plain_fit (initial_map_undefined _ _ _)
           three_plain_origin).
Defined.

(** C4 (as amended).  On a well-formed map with an origin whose path
    costs stay below the sentinels and whose costs start undefined, the
    loop of [_compute_costs] leaves with an empty queue after at most
    [width * height] dequeues: a budget of [width * height] turns is
    enough, and the cursor [first], which counts the dequeues, ends at
    most there. *)
Theorem propagation_terminates m o fuel :
  map_wf m -> costs_fit m -> costs_undefined m -> first_origin m o ->
  width m * height m <= Z.of_nat fuel ->
  exists m' q',
    _compute_costs fuel m = Ok (m', q') /\
    first q' = last q' /\ first q' <= width m * height m.
Proof.
  intros Hwf Hfit Hundef Ho Hfuel.
  destruct (fit_run m o fuel Hwf Hfit Hundef Ho Hfuel)
    as (m' & q' & Hrun & Hinv & Hend & _ & Hw & Hh & _).
  exists m', q'. split; [done|]. split; [done|].
  rewrite <- Hw, <- Hh.
  pose proof (bfs_inv_last m' q' (fi_inv _ _ Hinv)). lia.
Qed.

Lemma propagation_terminates_witness :
  exists m' q',
    _compute_costs 3 (initial_map 1 3 [[BASE_STATION; PLAIN; PLAIN]]) = Ok (m', q') /\
    first q' = last q' /\ first q' <= 3.
Proof.
  refine (propagation_terminates
            (initial_map 1 3 [[BASE_STATION; PLAIN; PLAIN]]) (mk_position 0 0) 3
            three_plain_wf three_plain_fit (initial_map_undefined _ _ _)
            three_plain_origin _).
  simpl. lia.
Defined.

Lemma source_step m q :
  source_inv m q -> first q <> last q ->
  exists m' q',
    iteration m q = Ok (m', q') /\ source_inv m' q' /\
    first q' = first q + 1 /\
    soils m' = soils m /\ width m' = width m /\ height m' = height m /\
    exists new, history q' = history q ++ new.
Proof.
  intros [Hfit Hfloor Hleast] Hne.
  destruct (fit_step m q Hfit Hne) as
    (m' & q' & Hiter & Hfit' & Hf' & Hs' & Hw' & Hh' & new' & Hhist').
  exists m', q'. split; [done|]. split; [|by eauto 10].
  destruct Hfit as [Hinv Hcfit Hbound Hbase].
  destruct (bfs_iteration m q Hinv Hne) as
    (p & s & cost_min & c1 & q1 & q2 & new & Hp & Hs & Hdeq & Hcomp & Hpost
       & Hh2 & Hf2 & Hl2 & Hnewfresh & c2 & Hiter2 & _ & _ & _ & Hgp & Hgnew
       & Hframe & _).
  rewrite Hiter in Hiter2. injection Hiter2 as -> ->.
  pose proof (bi_queue m q Hinv) as Hq. pose proof (qwf_first q Hq) as Hfirst.
  pose proof (bfs_inv_last m q Hinv) as Hlast.
  assert (forall i r, (history q ++ new) !! i = Some r -> Z.of_nat i < first q + 1 ->
            (Z.of_nat i = first q /\ r = p) \/
            (Z.of_nat i < first q /\ history q !! i = Some r /\
             grid_get c2 r = grid_get (costs m) r)) as Hcases.
  { intros i r [Hi|[Hlen Hi]]%lookup_app_Some Hlt.
    2:{ destruct Hq. lia. }
    destruct (decide (Z.of_nat i = first q)) as [Heq|Hik].
    - left. split; [done|]. rewrite <- Heq, Nat2Z.id in Hp. congruence.
    - right. split; [lia|]. split; [done|]. apply Hframe.
      + intros ->. pose proof (NoDup_lookup _ _ _ _ (bi_nodup m q Hinv) Hi Hp). lia.
      + intros Hrn. apply (Hnewfresh r Hrn). by eapply list_elem_of_lookup_2. }
  assert (s <> BASE_STATION ->
          0 <= cost_min /\ cell_cost s cost_min = cost_min + _soil_cost s) as Hnew.
  { intros Hsoil.
    destruct (settled_parent m q p s Hinv Hp Hs Hsoil)
      as (j & d & v & Hj & Hd & Hjn & Hvalid & Hv & Hvrange).
    pose proof (sp_lower_bound _ _ _ _ _ _ _ _ _ _ _ Hpost d v Hd Hvalid Hv) as Hle.
    destruct (settled_minimum m q p cost_min Hinv Hp) as
      (i & d' & Hi & Hd' & Hin' & Hg' & Hpos); [lia|apply Hpost|].
    split; [done|].
    pose proof (Hbound i _ _ Hin' Hi Hg') as Hb.
    pose proof (soil_cost_range s) as Hrange.
    unfold costs_fit, COST_UNDEF in Hcfit.
    apply cell_cost_add; [done|lia|lia]. }
  split; simpl.
  - done.
  - rewrite Hh2, Hf2. intros j r s' v Hj Hlt Hs'' Hsoil Hv.
    destruct (Hcases j r Hj Hlt) as [[Heq ->]|(Hlt' & Hj' & Hsame)].
    + rewrite Hgp in Hv. injection Hv as <-.
      rewrite Hs in Hs''. injection Hs'' as <-.
      destruct (Hnew Hsoil) as [Hpos ->]. lia.
    + rewrite Hsame in Hv. by eapply Hfloor.
  - rewrite Hh2, Hf2. intros i j r d s' v vn Hj Hlt Hi Hij Hd Hs'' Hsoil Hv Hvn.
    destruct (Hcases i (neighbour r d) Hi ltac:(lia))
      as [[Heq _]|(Hlti & Hi' & Hsamei)].
    { destruct (Hcases j r Hj Hlt) as [[Heqj _]|(Hltj & _)]; lia. }
    rewrite Hsamei in Hvn.
    destruct (Hcases j r Hj Hlt) as [[Heq ->]|(Hlt' & Hj' & Hsame)].
    + rewrite Hgp in Hv. injection Hv as <-.
      rewrite Hs in Hs''. injection Hs'' as <-.
      destruct (Hnew Hsoil) as [Hpos ->].
      assert (POSITION_IS_VALID (neighbour p d) (width m) (height m) = true)
        as Hvalid.
      { apply in_bounds_valid. eapply bi_in_bounds; [done|].
        by eapply list_elem_of_lookup_2. }
      pose proof (sp_lower_bound _ _ _ _ _ _ _ _ _ _ _ Hpost d vn Hd Hvalid Hvn).
      lia.
    + rewrite Hsame in Hv. by eapply (Hleast i j r d s' v vn).
Qed.

Lemma source_run m o fuel :
  map_wf m -> costs_fit m -> costs_undefined m -> first_origin m o ->
  width m * height m <= Z.of_nat fuel ->
  exists m' q',
    _compute_costs fuel m = Ok (m', q') /\
    source_inv m' q' /\ first q' = last q' /\
    soils m' = soils m /\ width m' = width m /\ height m' = height m /\
    history q' !! 0%nat = Some o.
Proof.
  intros Hwf Hfit Hundef Ho Hfuel.
  destruct (compute_costs_start m o Hwf (costs_fit_cells m Hwf Hfit) Hundef Ho)
    as (q0 & _ & Hstart & Hinv0 & Hh0 & Hf0 & Hl0).
  rewrite Hstart.
  destruct (propagate_run
              (fun m' q' => source_inv m' q' /\ soils m' = soils m /\
                            width m' = width m /\ height m' = height m /\
                            history q' !! 0%nat = Some o)
              (width m * height m)) with (fuel := fuel) (m := m) (q := q0)
    as (m' & q' & Hrun & HI & Hend).
  - intros m1 q1 ([[Hinv1 _ _ _] _ _] & _ & Hw1 & Hh1 & _).
    rewrite <- Hw1, <- Hh1. by apply bfs_inv_last.
  - intros m1 q1 (Hr1 & Hs1 & Hw1 & Hh1 & Ho1) Hne.
    destruct (source_step m1 q1 Hr1 Hne) as
      (m2 & q2 & Hiter & Hr2 & Hf2 & Hs2 & Hw2 & Hh2 & new & Hhist).
    exists m2, q2. split; [done|]. split; [|done].
    split; [done|]. split; [congruence|]. split; [congruence|].
    split; [congruence|]. rewrite Hhist. by apply lookup_app_l_Some.
  - split; [|by rewrite Hh0].
    split.
    + split; [done|done|..]; rewrite Hf0; lia.
    + rewrite Hf0. lia.
    + rewrite Hf0. lia.
  - lia.
  - exists m', q'. by destruct HI as (? & ? & ? & ? & ?).
Qed.

(** C5 (as amended).  Propagation starts from the first origin cell in
    row-major order: [_get_base_station_pos] returns it and it is the
    first cell enqueued.  [_compute_cell_cost] returns 0 for every
    origin-terrain cell, the first or another, whatever its neighbours
    hold, and on a map whose path costs stay below the sentinels every
    origin-terrain cell ends with cost 0 after the two passes.  On such a
    map every cell is enqueued, once, and the queue, first in, first out,
    is empty at the end; the cost given to a cell that is no origin is at
    least its terrain cost and at most the cost of any neighbour enqueued
    before it plus its terrain cost.  So an origin-terrain cell, the first
    or another, is a zero-cost source for the cells processed after it: a
    neighbour of it that is no origin and comes after it in the queue gets
    0 plus its terrain cost, and keeps that cost through the repair
    pass. *)
Theorem origins_all_cost_zero m o fuel :
  map_wf m -> costs_fit m -> costs_undefined m -> first_origin m o ->
  width m * height m <= Z.of_nat fuel ->
  _get_base_station_pos m = Ok o /\
  (forall cost_min, cell_cost BASE_STATION cost_min = 0) /\
  (forall m0 p oq v m0' oq',
     grid_get (soils m0) p = Ok BASE_STATION ->
     _compute_cell_cost m0 p oq = Ok (v, m0', oq') -> v = 0) /\
  exists m1 q1 m2,
    _compute_costs fuel m = Ok (m1, q1) /\ history q1 !! 0%nat = Some o /\
    _remove_false_costs m1 = Ok m2 /\
    (forall r, in_bounds (width m) (height m) r ->
               grid_get (soils m) r = Ok BASE_STATION ->
               grid_get (costs m2) r = Ok 0) /\
    first q1 = last q1 /\ NoDup (history q1) /\
    (forall r, in_bounds (width m) (height m) r -> r ∈ history q1) /\
    (forall i j p d s,
       history q1 !! j = Some p -> history q1 !! i = Some (neighbour p d) ->
       (i < j)%nat -> d ∈ _direction_vectors ->
       grid_get (soils m) p = Ok s -> s <> BASE_STATION ->
       exists v vn,
         grid_get (costs m1) p = Ok v /\
         grid_get (costs m1) (neighbour p d) = Ok vn /\
         _soil_cost s <= v <= vn + _soil_cost s /\
         (grid_get (soils m) (neighbour p d) = Ok BASE_STATION ->
          vn = 0 /\ v = 0 + _soil_cost s /\
          grid_get (costs m2) p = Ok (0 + _soil_cost s))).
Proof.
  intros Hwf Hfit Hundef Ho Hfuel.
  split; [by apply first_origin_found|]. split; [done|]. split.
  { intros m0 p oq v m0' oq' Hsoil
           (s & cost_min & c' & Hs & _ & -> & _)%compute_cell_cost_Ok.
    rewrite Hsoil in Hs. by injection Hs as <-. }
  destruct (source_run m o fuel Hwf Hfit Hundef Ho Hfuel)
    as (m1 & q1 & Hrun & Hsrc & Hend & Hs1 & Hw1 & Hh1 & Ho1).
  pose proof (so_fit _ _ Hsrc) as Hinv.
  pose proof (fi_inv _ _ Hinv) as Hbfs.
  pose proof (bi_wf _ _ Hbfs) as Hwf1.
  pose proof (qwf_last q1 (bi_queue _ _ Hbfs)) as Hlast.
  assert (forall i r, history q1 !! i = Some r -> Z.of_nat i < first q1)
    as Hsettled.
  { intros i r Hi. pose proof (lookup_lt_Some _ _ _ Hi). lia. }
  assert (history q1 <> []) as Hne by (intros Hnil; by rewrite Hnil in Ho1).
  destruct (remove_false_costs_total m1 Hwf1) as (m2 & Hrep & _).
  exists m1, q1, m2. split; [done|]. split; [done|]. split; [done|].
  split; [|split; [done|split; [apply Hbfs|split]]].
  - intros r Hr Hsoil.
    apply (remove_false_costs_keeps m1 m2 r 0 Hwf1 Hrep); [|lia].
    rewrite <- Hw1, <- Hh1 in Hr.
    destruct (list_elem_of_lookup_1 _ _ (all_reached m1 q1 Hbfs Hend Hne r Hr))
      as [i Hi].
    apply (fi_base _ _ Hinv i r Hi); [by eapply Hsettled|congruence].
  - intros r Hr. rewrite <- Hw1, <- Hh1 in Hr.
    by apply (all_reached m1 q1 Hbfs Hend Hne).
  - intros i j p d s Hj Hi Hij Hd Hs Hsoil. rewrite <- Hs1 in *.
    destruct (bi_settled _ _ Hbfs j p Hj (Hsettled _ _ Hj)) as (v & Hv & Hvr).
    destruct (bi_settled _ _ Hbfs i _ Hi (Hsettled _ _ Hi)) as (vn & Hvn & Hvnr).
    pose proof (so_floor _ _ Hsrc j p s v Hj (Hsettled _ _ Hj) Hs Hsoil Hv)
      as Hfloor.
    pose proof (so_least _ _ Hsrc i j p d s v vn Hj (Hsettled _ _ Hj) Hi Hij Hd
                         Hs Hsoil Hv Hvn) as Hleast.
    exists v, vn. split; [done|]. split; [done|]. split; [lia|].
    intros Hbase.
    pose proof (fi_base _ _ Hinv i _ Hi (Hsettled _ _ Hi) Hbase) as H0.
    rewrite H0 in Hvn. injection Hvn as <-.
    assert (v = 0 + _soil_cost s) as -> by lia.
    split; [done|]. split; [done|].
    apply (remove_false_costs_keeps m1 m2 p _ Hwf1 Hrep Hv).
    pose proof (soil_cost_range s). lia.
Qed.

Lemma origin_behind_crevasse_wf :
  map_wf (initial_map 1 4 [[BASE_STATION; CREVASSE; BASE_STATION; PLAIN]]).
Proof. solve_map_wf. Defined.

Lemma origin_behind_crevasse_first :
  first_origin (initial_map 1 4 [[BASE_STATION; CREVASSE; BASE_STATION; PLAIN]])
               (mk_position 0 0).
Proof.
  exists [], [mk_position 1 0; mk_position 2 0; mk_position 3 0].
  split; [vm_compute; reflexivity|]. split; [reflexivity|].
  intros r Hr. by apply elem_of_nil in Hr.
Defined.

Lemma origins_all_cost_zero_witness :
  _get_base_station_pos
    (initial_map 1 4 [[BASE_STATION; CREVASSE; BASE_STATION; PLAIN]])
  = Ok (mk_position 0 0) /\
  (forall cost_min, cell_cost BASE_STATION cost_min = 0) /\
  (forall m0 p oq v m0' oq',
     grid_get (soils m0) p = Ok BASE_STATION ->
     _compute_cell_cost m0 p oq = Ok (v, m0', oq') -> v = 0) /\
  exists m1 q1 m2,
    _compute_costs 4 (initial_map 1 4 [[BASE_STATION; CREVASSE; BASE_STATION; PLAIN]])
    = Ok (m1, q1) /\
    history q1 !! 0%nat = Some (mk_position 0 0) /\
    _remove_false_costs m1 = Ok m2 /\
    (forall r, in_bounds 4 1 r ->
               grid_get [[BASE_STATION; CREVASSE; BASE_STATION; PLAIN]] r
               = Ok BASE_STATION ->
               grid_get (costs m2) r = Ok 0) /\
    first q1 = last q1 /\ NoDup (history q1) /\
    (forall r, in_bounds 4 1 r -> r ∈ history q1) /\
    (forall i j p d s,
       history q1 !! j = Some p -> history q1 !! i = Some (neighbour p d) ->
       (i < j)%nat -> d ∈ _direction_vectors ->
       grid_get [[BASE_STATION; CREVASSE; BASE_STATION; PLAIN]] p = Ok s ->
       s <> BASE_STATION ->
       exists v vn,
         grid_get (costs m1) p = Ok v /\
         grid_get (costs m1) (neighbour p d) = Ok vn /\
         _soil_cost s <= v <= vn + _soil_cost s /\
         (grid_get [[BASE_STATION; CREVASSE; BASE_STATION; PLAIN]] (neighbour p d)
          = Ok BASE_STATION ->
          vn = 0 /\ v = 0 + _soil_cost s /\
          grid_get (costs m2) p = Ok (0 + _soil_cost s))).
Proof.
  refine (origins_all_cost_zero
            (initial_map 1 4 [[BASE_STATION; CREVASSE; BASE_STATION; PLAIN]])
            (mk_position 0 0) 4
            origin_behind_crevasse_wf _ (initial_map_undefined _ _ _)
            origin_behind_crevasse_first _).
  - vm_compute. reflexivity.
  - simpl. lia.
Defined.

Lemma remove_false_costs_spec_witness :
  _remove_false_costs
    {| width := 3; height := 1; soils := [[BASE_STATION; PLAIN; CREVASSE]];
       costs := [[0; COST_UNDEF; COST_UNDEF]] |}
  = for_each repair_cell (row_major 3 1)
      {| width := 3; height := 1; soils := [[BASE_STATION; PLAIN; CREVASSE]];
         costs := [[0; COST_UNDEF; COST_UNDEF]] |}.
Proof.
  refine (proj1 (remove_false_costs_spec
                   {| width := 3; height := 1;
                      soils := [[BASE_STATION; PLAIN; CREVASSE]];
                      costs := [[0; COST_UNDEF; COST_UNDEF]] |} _)).
  solve_map_wf.
Defined.

Lemma three_plain_around :
  plain_around (initial_map 1 3 [[BASE_STATION; PLAIN; PLAIN]]) (mk_position 0 0).
Proof.
  split; [reflexivity|]. intros [cx cy] [Hx Hy] Hne. simpl in *.
  assert (cy = 0) as -> by lia.
  assert (cx = 0 \/ cx = 1 \/ cx = 2) as [-> | [-> | ->]] by lia;
    [done|reflexivity|reflexivity].
Defined.

Lemma plain_costs_manhattan_witness :
  exists m1 q1 m2,
    _compute_costs 3 (initial_map 1 3 [[BASE_STATION; PLAIN; PLAIN]]) = Ok (m1, q1) /\
    _remove_false_costs m1 = Ok m2 /\
    forall r, in_bounds 3 1 r ->
              grid_get (costs m2) r = Ok (manhattan (mk_position 0 0) r).
Proof.
  refine (plain_costs_manhattan
            (initial_map 1 3 [[BASE_STATION; PLAIN; PLAIN]]) (mk_position 0 0) 3
            three_plain_wf _ (initial_map_undefined _ _ _) _ three_plain_around _).
  - vm_compute. reflexivity.
  - unfold in_bounds. simpl. lia.
  - simpl. lia.
Defined.

Lemma origin_cost_zero_witness :
  (forall fuel m1 q1 m2,
     _compute_costs fuel (initial_map 1 3 [[BASE_STATION; PLAIN; PLAIN]]) = Ok (m1, q1) ->
     _remove_false_costs m1 = Ok m2 ->
     grid_get (costs m2) (mk_position 0 0) = Ok 0) /\
  exists m1 q1 m2,
    _compute_costs 3 (initial_map 1 3 [[BASE_STATION; PLAIN; PLAIN]]) = Ok (m1, q1) /\
    _remove_false_costs m1 = Ok m2.
Proof.
  destruct (origin_cost_zero
              (initial_map 1 3 [[BASE_STATION; PLAIN; PLAIN]]) (mk_position 0 0)
              three_plain_wf three_plain_origin) as [Hzero Hdone].
  split; [exact Hzero|].
  apply (Hdone (initial_map_undefined _ _ _) three_plain_fit 3%nat).
  simpl. lia.
Defined.

Lemma compute_cell_cost_in_bounds_witness :
  _compute_cell_cost (initial_map 1 3 [[BASE_STATION; PLAIN; PLAIN]])
                     (mk_position 0 0) None
  <> Fail OutOfBounds /\
  POSITION_IS_VALID (neighbour (mk_position 0 0) (-1, 0)) 3 1 = false.
Proof.
  destruct (compute_cell_cost_in_bounds
              (initial_map 1 3 [[BASE_STATION; PLAIN; PLAIN]])
              (mk_position 0 0) None three_plain_wf) as (Hsafe & _ & _ & Hunder).
  - unfold in_bounds. simpl. lia.
  - intros q Hq. discriminate Hq.
  - split; [exact Hsafe|].
    apply (Hunder (-1, 0)).
    + apply elem_of_cons. left. reflexivity.
    + left. simpl. lia.
Defined.

(** ** A strip whose path costs reach the sentinels *)

Lemma path_cost_app l1 l2 : path_cost (l1 ++ l2) = path_cost l1 + path_cost l2.
Proof.
  induction l1 as [|s l1 IH]; simpl; [done|]. rewrite IH. lia.
Qed.

Lemma path_cost_nonneg l : 0 <= path_cost l.
Proof.
  induction l as [|s l IH]; simpl; [done|]. pose proof (soil_cost_range s). lia.
Qed.

Lemma path_cost_replicate n s :
  path_cost (replicate n s) = Z.of_nat n * _soil_cost s.
Proof.
  induction n as [|n IH]; [done|].
  change (path_cost (replicate (S n) s))
    with (_soil_cost s + path_cost (replicate n s)).
  rewrite IH. lia.
Qed.

Lemma path_cost_take_le k l : path_cost (take k l) <= path_cost l.
Proof.
  rewrite <- (take_drop k l) at 2. rewrite path_cost_app.
  pose proof (path_cost_nonneg (drop k l)). lia.
Qed.

Lemma path_cost_take_S k l s :
  l !! k = Some s -> path_cost (take (S k) l) = path_cost (take k l) + _soil_cost s.
Proof.
  intros Hk. rewrite (take_S_r _ _ _ Hk), path_cost_app. simpl. lia.
Qed.

Lemma length_strip_row ts : length (strip_row ts) = (length ts + 3)%nat.
Proof. unfold strip_row. simpl. rewrite length_app. simpl. lia. Qed.

Lemma cell_inj i j : cell i = cell j -> i = j.
Proof. intros [= H]. lia. Qed.

Lemma row_get {A : Type} (row : list A) i v :
  grid_get [row] (cell i) = Ok v <-> row !! i = Some v.
Proof.
  rewrite grid_get_Ok. simpl. rewrite Nat2Z.id. split.
  - intros (_ & _ & row' & [= <-] & Hv). done.
  - intros Hv. split; [lia|]. split; [lia|]. by exists row.
Qed.

Lemma strip_left k w :
  (1 <= k)%nat -> Z.of_nat k < w -> w < 2 ^ 32 ->
  neighbour (cell k) (-1, 0) = cell (k - 1) /\
  POSITION_IS_VALID (cell (k - 1)) w 1 = true.
Proof.
  intros Hk Hw Hw'. split.
  - apply position_eq; unfold neighbour, cell; simpl; rewrite u32_small; lia.
  - apply in_bounds_valid. unfold in_bounds, cell. simpl. lia.
Qed.

Lemma strip_right k w :
  Z.of_nat k + 1 < w -> w < 2 ^ 32 ->
  neighbour (cell k) (1, 0) = cell (S k) /\
  POSITION_IS_VALID (cell (S k)) w 1 = true.
Proof.
  intros Hw Hw'. split.
  - apply position_eq; unfold neighbour, cell; simpl; rewrite u32_small; lia.
  - apply in_bounds_valid. unfold in_bounds, cell. simpl. lia.
Qed.

(** In a grid of one row the bounds-valid neighbours of a cell are the
    cells to its left and to its right. *)
Lemma strip_neighbours k w d :
  Z.of_nat k < w -> w < 2 ^ 32 -> d ∈ _direction_vectors ->
  POSITION_IS_VALID (neighbour (cell k) d) w 1 = true ->
  (d = (-1, 0) /\ (1 <= k)%nat /\ neighbour (cell k) d = cell (k - 1)) \/
  (d = (1, 0) /\ Z.of_nat k + 1 < w /\ neighbour (cell k) d = cell (S k)).
Proof.
  intros Hk Hw Hd Hv.
  apply valid_in_bounds in Hv as [Hx Hy]. unfold neighbour, cell in *.
  each_direction d Hd; simpl in *.
  - left. assert (1 <= k)%nat as Hk1.
    { destruct k; [|lia]. exfalso. clear Hy. simpl in Hx. solve_u32. }
    split; [done|]. split; [done|].
    apply position_eq; simpl; rewrite u32_small; lia.
  - right. assert (Z.of_nat k + 1 < w) as Hk1.
    { rewrite u32_small in Hx by lia. lia. }
    split; [done|]. split; [done|].
    apply position_eq; simpl; rewrite u32_small; lia.
  - exfalso. clear Hx. solve_u32.
  - exfalso. clear Hx. solve_u32.
Qed.

Lemma NoDup_all_equal {A : Type} (l : list A) (a : A) :
  NoDup l -> (forall r, r ∈ l -> r = a) -> a ∈ l -> l = [a].
Proof.
  intros Hnd Hall Hin. destruct l as [|b l]; [by apply elem_of_nil in Hin|].
  assert (b = a) as -> by (apply Hall; by left).
  destruct l as [|b' l]; [done|].
  assert (b' = a) as -> by (apply Hall; right; by left).
  apply NoDup_cons in Hnd as [Hnd _]. exfalso. apply Hnd. by left.
Qed.

Lemma propagate_done fuel m q :
  first q = last q -> propagate fuel m q = Ok (m, q).
Proof.
  intros Heq. destruct fuel; simpl; by rewrite Heq, Z.eqb_refl.
Qed.

Lemma bind_ret {A : Type} (r : result (A * t_queue)) :
  bind r (fun v => let '(a, q) := v in Ok (a, q)) = r.
Proof. by destruct r as [[a q]|]. Qed.

Lemma run_turns_snoc n m q m1 q1 :
  run_turns n m q = Ok (m1, q1) -> first q1 <> last q1 ->
  run_turns (S n) m q = iteration m1 q1.
Proof.
  revert m q. induction n as [|n IH]; intros m q Hrun Hne.
  - injection Hrun as <- <-. simpl.
    destruct (Z.eqb_spec (first q) (last q)); [done|].
    destruct (iteration m q) as [[m' q']|]; done.
  - change (run_turns (S (S n)) m q)
      with (if first q =? last q then Ok (m, q)
            else bind (iteration m q) (fun v => let '(m', q') := v in
                                                run_turns (S n) m' q')).
    simpl in Hrun. destruct (Z.eqb_spec (first q) (last q)) as [Heq|_].
    { injection Hrun as <- <-. done. }
    destruct (iteration m q) as [[m' q']|]; [|done]. cbn [bind] in *.
    by apply IH.
Qed.

Lemma propagate_turns n fuel m q m1 q1 :
  run_turns n m q = Ok (m1, q1) ->
  propagate (n + fuel) m q = propagate fuel m1 q1.
Proof.
  revert m q. induction n as [|n IH]; intros m q Hrun.
  - by injection Hrun as <- <-.
  - change (S n + fuel)%nat with (S (n + fuel)). rewrite propagate_unfold.
    simpl in Hrun. destruct (Z.eqb_spec (first q) (last q)) as [Heq|_].
    { injection Hrun as <- <-. by rewrite propagate_done. }
    destruct (iteration m q) as [[m' q']|]; [|done]. cbn [bind] in *.
    by apply IH.
Qed.


Section strip.
Variable ts : list soil_e.
Hypothesis ts_terrain : Forall (fun s => s <> BASE_STATION) ts.
Hypothesis ts_cost : path_cost ts = 0xFFFFFFFD.
Hypothesis ts_fits : Z.of_nat (length (strip_row ts)) < 2 ^ 31.

Lemma strip_row_origin : strip_row ts !! 0%nat = Some BASE_STATION.
Proof. done. Qed.

Lemma strip_row_terrain k s :
  (1 <= k <= length ts)%nat ->
  strip_row ts !! k = Some s <-> ts !! (k - 1)%nat = Some s.
Proof.
  intros Hk. unfold strip_row. destruct k as [|k]; [lia|]. simpl.
  rewrite Nat.sub_0_r. rewrite lookup_app_l by lia. done.
Qed.

Lemma strip_row_dune : strip_row ts !! (length ts + 1)%nat = Some ERG.
Proof.
  unfold strip_row. rewrite Nat.add_1_r. simpl.
  rewrite lookup_app_r by lia. by rewrite Nat.sub_diag.
Qed.

Lemma strip_row_plain : strip_row ts !! (length ts + 2)%nat = Some PLAIN.
Proof.
  unfold strip_row. replace (length ts + 2)%nat with (S (length ts + 1)) by lia.
  simpl. rewrite lookup_app_r by lia.
  by replace (length ts + 1 - length ts)%nat with 1%nat by lia.
Qed.

Lemma strip_history_lookup k i :
  (i <= k)%nat -> (cell <$> seq 0 (S k)) !! i = Some (cell i).
Proof.
  intros Hi. rewrite list_lookup_fmap, lookup_seq_lt by lia. done.
Qed.

Lemma strip_history_fresh k : cell (S k) ∉ cell <$> seq 0 (S k).
Proof.
  intros (i & Heq%cell_inj & Hi%elem_of_seq)%list_elem_of_fmap. lia.
Qed.

Lemma strip_iteration m q k :
  strip_inv ts m q k -> (k <= length ts + 1)%nat ->
  exists s c2 q2,
    strip_row ts !! k = Some s /\
    iteration m q = Ok (with_costs m c2, q2) /\
    map_wf (with_costs m c2) /\ queue_wf q2 /\ size q2 = size q /\
    history q2 = cell <$> seq 0 (S (S k)) /\
    first q2 = Z.of_nat (S k) /\ last q2 = Z.of_nat (S (S k)) /\
    grid_get c2 (cell k) = Ok (cell_cost s (path_cost (take (k - 1) ts))) /\
    grid_get c2 (cell (S k)) = Ok PENDING /\
    (forall i, (i < k)%nat -> grid_get c2 (cell i) = grid_get (costs m) (cell i)) /\
    (0 <= cell_cost s (path_cost (take (k - 1) ts)) < PENDING ->
     bfs_inv (with_costs m c2) q2).
Proof.
  intros [Hinv Hsoils Hwidth Hheight Hfirst Hhist Hcost] Hk.
  pose proof (bi_queue m q Hinv) as Hq.
  pose proof (qwf_last q Hq) as Hlast.
  rewrite Hhist, length_fmap, length_seq in Hlast.
  pose proof (length_strip_row ts) as Hlen.
  destruct (bfs_iteration m q Hinv) as
    (p & s & cost_min & c1 & q1 & q2 & new & Hp & Hs & Hdeq & Hcomp & Hpost
       & Hh2 & Hf2 & Hl2 & Hnewfresh & c2 & Hiter & Hwf2 & Hq2 & Hsz2 & Hgp
       & Hgnew & Hframe & Hgood); [lia|].
  rewrite Hfirst, Nat2Z.id, Hhist, strip_history_lookup in Hp by done.
  injection Hp as <-.
  rewrite Hsoils in Hs. apply row_get in Hs.
  rewrite Hwidth, Hheight in Hpost.
  assert (forall i, (i < k)%nat ->
            path_cost (take i ts) <= 0xFFFFFFFD) as Hbelow.
  { intros i _. rewrite <- ts_cost. apply path_cost_take_le. }
  assert (grid_get (costs m) (cell (S k)) = Ok COST_UNDEF) as Hnext.
  { apply (bi_fresh m q Hinv).
    - rewrite Hwidth, Hheight. unfold in_bounds, cell. cbn [x y]. lia.
    - rewrite Hhist. apply strip_history_fresh. }
  assert (new = [cell (S k)]) as ->.
  { apply NoDup_all_equal; [apply Hpost| |].
    - intros r Hr.
      destruct (sp_new _ _ _ _ _ _ _ _ _ _ _ Hpost r Hr) as (d & Hd & -> & Hv & Hg).
      destruct (strip_neighbours k (Z.of_nat (length (strip_row ts))) d
                  ltac:(lia) ltac:(lia) Hd Hv)
        as [(_ & Hk1 & Heq)|(_ & _ & Heq)]; [|done].
      rewrite Heq, Hcost in Hg by lia. injection Hg as Hg.
      pose proof (Hbelow (k - 1)%nat ltac:(lia)). unfold COST_UNDEF in Hg. lia.
    - destruct (strip_right k (Z.of_nat (length (strip_row ts))))
        as [Heq Hv]; [lia|lia|].
      rewrite <- Heq.
      apply (sp_all_marked _ _ _ _ _ _ _ _ _ _ _ Hpost); try done.
      + by right; left.
      + by rewrite Heq.
      + by rewrite Heq. }
  assert (cell_cost s cost_min = cell_cost s (path_cost (take (k - 1) ts)))
    as Hc.
  { destruct k as [|k].
    { rewrite strip_row_origin in Hs. injection Hs as <-. done. }
    f_equal. simpl. rewrite Nat.sub_0_r.
    destruct (strip_left (S k) (Z.of_nat (length (strip_row ts))))
      as [Heq Hv]; [lia|lia|lia|]. simpl in Heq, Hv. rewrite Nat.sub_0_r in Heq, Hv.
    eapply cost_min_exact; [apply Hpost|apply Hpost| | |].
    - pose proof (Hbelow k ltac:(lia)). unfold COST_UNDEF. lia.
    - exists (-1, 0). split; [by left|]. rewrite Heq. split; [done|].
      apply Hcost. lia.
    - intros d v Hd Hvd Hg.
      destruct (strip_neighbours (S k) (Z.of_nat (length (strip_row ts))) d
                  ltac:(lia) ltac:(lia) Hd Hvd)
        as [(_ & _ & Heq')|(_ & _ & Heq')]; rewrite Heq' in Hg.
      + simpl in Hg. rewrite Nat.sub_0_r, Hcost in Hg by lia. injection Hg as <-. lia.
      + rewrite Hnext in Hg. injection Hg as <-.
        pose proof (Hbelow k ltac:(lia)). unfold COST_UNDEF. lia. }
  rewrite Hc in Hgp, Hgood.
  exists s, c2, q2. split; [done|]. split; [done|]. split; [done|].
  split; [done|]. split; [done|].
  split. { rewrite Hh2, Hhist, (seq_S (S k)), fmap_app. done. }
  split; [lia|]. split. { rewrite Hl2, Hlast. simpl length. lia. }
  split; [done|].
  split. { apply Hgnew. by left. }
  split; [|done].
  intros i Hi. apply Hframe.
  - intros Heq%cell_inj. lia.
  - intros Heq%list_elem_of_singleton%cell_inj. lia.
Qed.

Lemma strip_step m q k :
  strip_inv ts m q k -> (k <= length ts)%nat ->
  exists m' q', iteration m q = Ok (m', q') /\ strip_inv ts m' q' (S k).
Proof.
  intros Hstrip Hk.
  destruct (strip_iteration m q k Hstrip) as
    (s & c2 & q2 & Hs & Hiter & Hwf2 & Hq2 & Hsz2 & Hh2 & Hf2 & Hl2 & Hgp & Hgn
       & Hframe & Hgood); [lia|].
  destruct Hstrip as [Hinv Hsoils Hwidth Hheight Hfirst Hhist Hcost].
  assert (cell_cost s (path_cost (take (k - 1) ts)) = path_cost (take k ts) /\
          0 <= path_cost (take k ts) < PENDING) as [Hc Hrange].
  { pose proof (path_cost_take_le k ts) as Hle. rewrite ts_cost in Hle.
    pose proof (path_cost_nonneg (take k ts)) as Hpos.
    split; [|unfold PENDING, COST_UNDEF; lia].
    destruct k as [|k].
    { rewrite strip_row_origin in Hs. injection Hs as <-. done. }
    apply strip_row_terrain in Hs; [|lia]. simpl in *. rewrite Nat.sub_0_r in *.
    rewrite (path_cost_take_S k ts s Hs) in *.
    rewrite Forall_forall in ts_terrain.
    apply cell_cost_add.
    - apply ts_terrain. by eapply list_elem_of_lookup_2.
    - apply path_cost_nonneg.
    - lia. }
  rewrite Hc in Hgp, Hgood.
  exists (with_costs m c2), q2. split; [done|]. split; simpl; try done.
  - by apply Hgood.
  - intros i Hi. destruct (decide (i = k)) as [->|Hne]; [done|].
    rewrite Hframe by lia. apply Hcost. lia.
Qed.

Lemma strip_map_wf : map_wf (strip_map ts).
Proof.
  apply initial_map_wf; [lia|lia|]. split; [done|].
  apply Forall_singleton. by rewrite Nat2Z.id.
Qed.

Lemma strip_first_origin : first_origin (strip_map ts) (cell 0).
Proof.
  assert (in_bounds (width (strip_map ts)) (height (strip_map ts)) (cell 0)) as Hin.
  { unfold in_bounds, cell. cbn [x y width height strip_map initial_map].
    pose proof (length_strip_row ts). lia. }
  destruct (list_elem_of_split _ _ (proj2 (elem_of_row_major _ _ _) Hin))
    as (before & after & Hsplit).
  exists before, after. split; [done|]. split; [by apply row_get|].
  intros r Hr. pose proof (NoDup_row_major (width (strip_map ts))
                             (height (strip_map ts))) as Hnd.
  assert (in_bounds (width (strip_map ts)) (height (strip_map ts)) r) as [Hx Hy].
  { apply elem_of_row_major. rewrite Hsplit. apply elem_of_app. by left. }
  rewrite Hsplit in Hnd. apply NoDup_app in Hnd as (_ & Hdisj & _).
  cbn [width height strip_map initial_map] in Hx, Hy.
  assert (r = cell (Z.to_nat (x r))) as Hr'.
  { apply position_eq; unfold cell; cbn [x y]; lia. }
  rewrite Hr'. cbn [soils strip_map initial_map]. rewrite row_get.
  assert (Z.to_nat (x r) <> 0%nat) as Hne.
  { intros H0. apply (Hdisj r Hr). rewrite Hr', H0. by left. }
  pose proof (length_strip_row ts) as Hlen.
  destruct (decide (Z.to_nat (x r) <= length ts)%nat) as [Hle|Hgt].
  - intros Hs. apply strip_row_terrain in Hs; [|lia].
    rewrite Forall_forall in ts_terrain.
    by apply (ts_terrain _ (list_elem_of_lookup_2 _ _ _ Hs)).
  - assert (Z.to_nat (x r) = (length ts + 1)%nat \/
            Z.to_nat (x r) = (length ts + 2)%nat) as [-> | ->] by lia.
    + by rewrite strip_row_dune.
    + by rewrite strip_row_plain.
Qed.

Lemma strip_start :
  exists q0,
    (forall fuel, _compute_costs fuel (strip_map ts)
                  = propagate fuel (strip_map ts) q0) /\
    strip_inv ts (strip_map ts) q0 0.
Proof.
  destruct (compute_costs_start (strip_map ts) (cell 0) strip_map_wf)
    as (q0 & _ & Hstart & Hinv & Hh0 & Hf0 & Hl0).
  - unfold cells_fit. cbn [width height strip_map initial_map]. lia.
  - apply initial_map_undefined.
  - apply strip_first_origin.
  - exists q0. split; [done|]. split; try done. intros i Hi. lia.
Qed.

Lemma strip_turns q0 k :
  strip_inv ts (strip_map ts) q0 0 -> (k <= length ts + 1)%nat ->
  exists m q, run_turns k (strip_map ts) q0 = Ok (m, q) /\ strip_inv ts m q k.
Proof.
  intros H0. induction k as [|k IH]; intros Hk; [by exists (strip_map ts), q0|].
  destruct IH as (m & q & Hrun & Hstrip); [lia|].
  destruct (strip_step m q k Hstrip) as (m' & q' & Hiter & Hstrip'); [lia|].
  exists m', q'. split; [|done].
  rewrite (run_turns_snoc _ _ _ _ _ Hrun); [done|].
  pose proof (qwf_last q (bi_queue _ _ (si_inv _ _ _ _ Hstrip))) as Hlast.
  rewrite (si_history _ _ _ _ Hstrip), length_fmap, length_seq in Hlast.
  rewrite (si_first _ _ _ _ Hstrip). lia.
Qed.

Lemma visit_vertical w k st d :
  d = (0, -1) \/ d = (0, 1) -> visit_neighbour w 1 (cell k) st d = Ok st.
Proof.
  intros Hd. apply visit_neighbour_Ok, visit_outside.
  unfold POSITION_IS_VALID. apply andb_false_iff. right. apply Z.ltb_ge.
  destruct Hd as [-> | ->]; unfold neighbour, cell; cbn [x y fst snd]; solve_u32.
Qed.

Lemma strip_scan w k st :
  for_each (visit_neighbour w 1 (cell k)) _direction_vectors st =
  try st1 := visit_neighbour w 1 (cell k) st (-1, 0) in
  visit_neighbour w 1 (cell k) st1 (1, 0).
Proof.
  unfold _direction_vectors. cbn [for_each].
  destruct (visit_neighbour w 1 (cell k) st (-1, 0)) as [st1|]; [|done].
  cbn [bind].
  destruct (visit_neighbour w 1 (cell k) st1 (1, 0)) as [st2|]; [|done].
  cbn [bind]. rewrite (visit_vertical w k st2 (0, -1)) by auto.
  cbn [bind]. rewrite (visit_vertical w k st2 (0, 1)) by auto. done.
Qed.

Lemma iteration_intro m q p q1 s cost_min c1 oq2 c2 :
  dequeue q = Ok (p, q1) -> grid_get (soils m) p = Ok s ->
  for_each (visit_neighbour (width m) (height m) p) _direction_vectors
           (0xFFFFFFFF, costs m, Some q1) = Ok (cost_min, c1, oq2) ->
  grid_set c1 p (cell_cost s cost_min) = Ok c2 ->
  iteration m q = Ok (with_costs m c2, default q1 oq2).
Proof.
  intros Hdeq Hs Hrun Hset. unfold iteration. rewrite Hdeq. cbn [bind].
  assert (_compute_cell_cost m p (Some q1)
          = Ok (cell_cost s cost_min, with_costs m c1, oq2)) as ->.
  { apply compute_cell_cost_Ok. by exists s, cost_min, c1. }
  cbn [bind]. simpl. rewrite Hset. done.
Qed.

Lemma strip_turn_dune m q :
  strip_inv ts m q (length ts + 1) ->
  exists m1 q1, iteration m q = Ok (m1, q1) /\ strip_dune_state ts m1 q1.
Proof.
  intros Hstrip.
  destruct (strip_iteration m q _ Hstrip) as
    (s & c2 & q2 & Hs & Hiter & Hwf2 & Hq2 & Hsz2 & Hh2 & Hf2 & Hl2 & Hgp & Hgn
       & Hframe & _); [lia|].
  destruct Hstrip as [Hinv Hsoils Hwidth Hheight Hfirst Hhist Hcost].
  rewrite strip_row_dune in Hs. injection Hs as <-.
  replace (length ts + 1 - 1)%nat with (length ts) in Hgp by lia.
  rewrite take_ge, ts_cost in Hgp by lia.
  exists (with_costs m c2), q2. split; [done|].
  replace (S (S (length ts + 1))) with (length ts + 3)%nat in * by lia.
  replace (S (length ts + 1)) with (length ts + 2)%nat in * by lia.
  split; try done.
  - rewrite Hsz2, (bi_size m q Hinv), Hwidth, Hheight. lia.
  - simpl. rewrite Hframe by lia. rewrite Hcost by lia.
    by rewrite take_ge, ts_cost by lia.
Qed.

Lemma strip_turn_plain m q :
  strip_dune_state ts m q ->
  exists m2 q2, iteration m q = Ok (m2, q2) /\ strip_plain_state ts m2 q2.
Proof.
  intros [Hwf Hsoils Hwidth Hheight Hq Hsize Hhist Hfirst Hlast Hbefore Hdune].
  pose proof (length_strip_row ts) as Hlen.
  destruct (dequeue_wf q Hq) as (p & q1 & Hdeq & Hq1 & Hp); [lia|].
  pose proof (dequeue_Ok _ _ _ Hdeq) as (Hh1 & Hf1 & Hs1 & Hl1 & _).
  rewrite Hfirst, Nat2Z.id, Hhist in Hp.
  replace (length ts + 3)%nat with (S (length ts + 2)) in Hp by lia.
  rewrite strip_history_lookup in Hp by done. injection Hp as <-.
  assert (grid_get (soils m) (cell (length ts + 2)) = Ok PLAIN) as Hs.
  { rewrite Hsoils. apply row_get, strip_row_plain. }
  destruct (strip_left (length ts + 2) (Z.of_nat (length (strip_row ts))))
    as [Hleft Hvalid]; [lia|lia|lia|].
  replace (length ts + 2 - 1)%nat with (length ts + 1)%nat in * by lia.
  destruct (enqueue_wf q1 (cell (length ts + 1)) Hq1) as (q2 & Henq & Hq2); [lia|].
  pose proof (enqueue_Ok _ _ _ Henq) as (Hh2 & Hf2 & Hs2 & Hl2).
  assert (in_bounds (width m) (height m) (cell (length ts + 1))) as Hin1.
  { rewrite Hwidth, Hheight. unfold in_bounds, cell. cbn [x y]. lia. }
  assert (in_bounds (width m) (height m) (cell (length ts + 2))) as Hin2.
  { rewrite Hwidth, Hheight. unfold in_bounds, cell. cbn [x y]. lia. }
  destruct (grid_set_is_Ok (costs m) _ _ (cell (length ts + 1)) PENDING
              (wf_costs m Hwf) Hin1) as [c1 Hset1].
  pose proof (grid_set_dims _ _ _ _ _ _ (wf_costs m Hwf) Hset1) as Hdims1.
  destruct (grid_set_is_Ok c1 _ _ (cell (length ts + 2))
              (cell_cost PLAIN 0xFFFFFFFF) Hdims1 Hin2) as [c2 Hset2].
  assert (for_each (visit_neighbour (width m) (height m) (cell (length ts + 2)))
            _direction_vectors (0xFFFFFFFF, costs m, Some q1)
          = Ok (0xFFFFFFFF, c1, Some q2)) as Hrun.
  { rewrite Hwidth, Hheight, strip_scan.
    assert (visit_neighbour (Z.of_nat (length (strip_row ts))) 1
              (cell (length ts + 2)) (0xFFFFFFFF, costs m, Some q1) (-1, 0)
            = Ok (0xFFFFFFFF, c1, Some q2)) as ->.
    { apply visit_neighbour_Ok. rewrite <- Hleft in *.
      by apply visit_mark. }
    cbn [bind]. apply visit_neighbour_Ok, visit_outside.
    unfold POSITION_IS_VALID. apply andb_false_iff. left. apply Z.ltb_ge.
    unfold neighbour, cell. cbn [x y fst snd]. rewrite u32_small; lia. }
  exists (with_costs m c2), q2. split.
  { by apply (iteration_intro m q (cell (length ts + 2)) q1 PLAIN
                0xFFFFFFFF c1 (Some q2) c2). }
  split; simpl; try done.
  - apply map_wf_with_costs; [done|]. by eapply grid_set_dims.
  - by rewrite Hh2, Hh1, Hhist.
  - lia.
  - lia.
  - rewrite (grid_get_set_ne _ _ _ _ _ Hset2) by (intros Heq%cell_inj; lia).
    rewrite (grid_get_set_ne _ _ _ _ _ Hset1) by (intros Heq%cell_inj; lia).
    done.
  - by rewrite (grid_get_set_eq _ _ _ _ Hset2).
Qed.

Lemma strip_turn_again m q :
  strip_plain_state ts m q ->
  exists m3 q3,
    iteration m q = Ok (m3, q3) /\
    first q3 = Z.of_nat (length ts + 4) /\ last q3 = Z.of_nat (length ts + 4) /\
    history q3 = history q.
Proof.
  intros [Hwf Hsoils Hwidth Hheight Hq Hhist Hfirst Hlast Hbefore Hplain].
  pose proof (length_strip_row ts) as Hlen.
  destruct (dequeue_wf q Hq) as (p & q1 & Hdeq & Hq1 & Hp); [lia|].
  pose proof (dequeue_Ok _ _ _ Hdeq) as (Hh1 & Hf1 & Hs1 & Hl1 & _).
  rewrite Hfirst, Nat2Z.id, Hhist in Hp.
  rewrite lookup_app_r in Hp by (rewrite length_fmap, length_seq; lia).
  rewrite length_fmap, length_seq, Nat.sub_diag in Hp. injection Hp as <-.
  assert (grid_get (soils m) (cell (length ts + 1)) = Ok ERG) as Hs.
  { rewrite Hsoils. apply row_get, strip_row_dune. }
  destruct (strip_left (length ts + 1) (Z.of_nat (length (strip_row ts))))
    as [Hleft Hvleft]; [lia|lia|lia|].
  replace (length ts + 1 - 1)%nat with (length ts) in * by lia.
  destruct (strip_right (length ts + 1) (Z.of_nat (length (strip_row ts))))
    as [Hright Hvright]; [lia|lia|].
  replace (S (length ts + 1)) with (length ts + 2)%nat in * by lia.
  assert (in_bounds (width m) (height m) (cell (length ts + 1))) as Hin1.
  { rewrite Hwidth, Hheight. unfold in_bounds, cell. cbn [x y]. lia. }
  destruct (grid_set_is_Ok (costs m) _ _ (cell (length ts + 1))
              (cell_cost ERG 0) (wf_costs m Hwf) Hin1) as [c2 Hset].
  assert (for_each (visit_neighbour (width m) (height m) (cell (length ts + 1)))
            _direction_vectors (0xFFFFFFFF, costs m, Some q1)
          = Ok (0, costs m, Some q1)) as Hrun.
  { rewrite Hwidth, Hheight, strip_scan.
    assert (visit_neighbour (Z.of_nat (length (strip_row ts))) 1
              (cell (length ts + 1)) (0xFFFFFFFF, costs m, Some q1) (-1, 0)
            = Ok (0xFFFFFFFD, costs m, Some q1)) as ->.
    { apply visit_neighbour_Ok. rewrite <- Hleft in *. by apply visit_lower. }
    cbn [bind]. apply visit_neighbour_Ok. rewrite <- Hright in *.
    by apply visit_lower. }
  exists (with_costs m c2), q1. split.
  { by apply (iteration_intro m q (cell (length ts + 1)) q1 ERG
                0 (costs m) (Some q1) c2). }
  split; [lia|]. split; [lia|done].
Qed.

(** The whole run on the strip: [length ts + 4] turns, one more than the
    strip has cells, the dune being enqueued and dequeued twice. *)
Lemma strip_run :
  exists q0 m2 q2 m3 q3,
    (forall fuel, _compute_costs fuel (strip_map ts)
                  = propagate fuel (strip_map ts) q0) /\
    run_turns (length ts + 3) (strip_map ts) q0 = Ok (m2, q2) /\
    first q2 <> last q2 /\
    run_turns (length ts + 4) (strip_map ts) q0 = Ok (m3, q3) /\
    first q3 = Z.of_nat (length ts + 4) /\ last q3 = Z.of_nat (length ts + 4) /\
    history q3 = (cell <$> seq 0 (length ts + 3)) ++ [cell (length ts + 1)].
Proof.
  destruct strip_start as (q0 & Hstart & H0).
  destruct (strip_turns q0 (length ts + 1) H0) as (m & q & Hrun & Hstrip); [lia|].
  destruct (strip_turn_dune m q Hstrip) as (m1 & q1 & Hiter1 & Hdune).
  destruct (strip_turn_plain m1 q1 Hdune) as (m2 & q2 & Hiter2 & Hplain).
  destruct (strip_turn_again m2 q2 Hplain) as (m3 & q3 & Hiter3 & Hf3 & Hl3 & Hh3).
  assert (run_turns (length ts + 2) (strip_map ts) q0 = Ok (m1, q1)) as Hrun1.
  { replace (length ts + 2)%nat with (S (length ts + 1)) by lia.
    rewrite (run_turns_snoc _ _ _ _ _ Hrun); [done|].
    pose proof (qwf_last q (bi_queue _ _ (si_inv _ _ _ _ Hstrip))) as Hlast.
    rewrite (si_history _ _ _ _ Hstrip), length_fmap, length_seq in Hlast.
    rewrite (si_first _ _ _ _ Hstrip). lia. }
  assert (run_turns (length ts + 3) (strip_map ts) q0 = Ok (m2, q2)) as Hrun2.
  { replace (length ts + 3)%nat with (S (length ts + 2)) by lia.
    rewrite (run_turns_snoc _ _ _ _ _ Hrun1); [done|].
    rewrite (sd_first _ _ _ Hdune), (sd_last _ _ _ Hdune). lia. }
  assert (first q2 <> last q2) as Hne2.
  { rewrite (sp_first _ _ _ Hplain), (sp_last _ _ _ Hplain). lia. }
  exists q0, m2, q2, m3, q3. split; [done|]. split; [done|]. split; [done|].
  split.
  { replace (length ts + 4)%nat with (S (length ts + 3)) by lia.
    by rewrite (run_turns_snoc _ _ _ _ _ Hrun2). }
  split; [done|]. split; [done|]. by rewrite Hh3, (sp_history _ _ _ Hplain).
Qed.
End strip.

Lemma long_strip_terrain : Forall (fun s => s <> BASE_STATION) long_strip.
Proof.
  apply Forall_app. split; apply Forall_replicate; done.
Qed.

Lemma long_strip_cost : path_cost long_strip = 0xFFFFFFFD.
Proof.
  unfold long_strip.
  rewrite path_cost_app, !path_cost_replicate, !Z2Nat.id by lia. reflexivity.
Qed.

Lemma long_strip_length : Z.of_nat (length (strip_row long_strip)) = 436792.
Proof.
  rewrite length_strip_row. unfold long_strip.
  rewrite length_app, !length_replicate. lia.
Qed.

Lemma long_strip_fits : Z.of_nat (length (strip_row long_strip)) < 2 ^ 31.
Proof. rewrite long_strip_length. lia. Qed.

Lemma long_strip_cells :
  width (strip_map long_strip) * height (strip_map long_strip) = 436792.
Proof.
  cbn [width height strip_map initial_map]. rewrite long_strip_length. lia.
Qed.

(** The run of [_compute_costs] on the long strip. *)
Lemma long_strip_run :
  _compute_costs (Z.to_nat 436792) (strip_map long_strip) = Fail OutOfFuel /\
  exists m' q',
    _compute_costs (Z.to_nat 436793) (strip_map long_strip) = Ok (m', q') /\
    first q' = 436793 /\ last q' = 436793 /\
    history q' = (cell <$> seq 0 (length long_strip + 3))
                 ++ [cell (length long_strip + 1)].
Proof.
  pose proof long_strip_length as Hlen. rewrite length_strip_row in Hlen.
  destruct (strip_run long_strip long_strip_terrain long_strip_cost long_strip_fits)
    as (q0 & m2 & q2 & m3 & q3 & Hstart & Hrun2 & Hne2 & Hrun3 & Hf3 & Hl3 & Hh3).
  rewrite !Hstart. split.
  - replace (Z.to_nat 436792) with (length long_strip + 3 + 0)%nat by lia.
    rewrite (propagate_turns _ _ _ _ _ _ Hrun2).
    cbn [propagate].
    destruct (Z.eqb_spec (first q2) (last q2)) as [Heq|_];
      [exact (False_rect _ (Hne2 Heq))|reflexivity].
  - exists m3, q3.
    replace (Z.to_nat 436793) with (length long_strip + 4 + 0)%nat by lia.
    rewrite (propagate_turns _ _ _ _ _ _ Hrun3).
    split; [apply propagate_done; lia|].
    split; [lia|]. split; [lia|]. exact Hh3.
Qed.

(** C3, the claim refuted.  The map of one row and 436792 cells made of
    the origin, 429496 crevasses, 7293 plain cells, a dune and a plain
    cell is well formed, starts undefined and has its origin at (0,0).
    The path cost reaches [0xFFFFFFFD] in front of the dune (436790,0),
    which is therefore given [0xFFFFFFFD + 2], the value of [COST_UNDEF],
    and is enqueued a second time by its right neighbour: the log of the
    run holds it at the positions 436790 and 436792. *)
Lemma long_strip_enqueues_twice :
  map_wf (strip_map long_strip) /\ costs_undefined (strip_map long_strip) /\
  first_origin (strip_map long_strip) (mk_position 0 0) /\
  exists m' q',
    _compute_costs (Z.to_nat 436793) (strip_map long_strip) = Ok (m', q') /\
    history q' !! Z.to_nat 436790 = Some (mk_position 436790 0) /\
    history q' !! Z.to_nat 436792 = Some (mk_position 436790 0) /\
    ~ NoDup (history q').
Proof.
  pose proof long_strip_length as Hlen. rewrite length_strip_row in Hlen.
  split; [apply strip_map_wf, long_strip_fits|].
  split; [apply initial_map_undefined|].
  split; [apply (strip_first_origin long_strip long_strip_terrain)|].
  destruct long_strip_run as (_ & m' & q' & Hrun & _ & _ & Hhist).
  exists m', q'. split; [exact Hrun|].
  assert (cell (length long_strip + 1) = mk_position 436790 0) as Hcell.
  { apply position_eq; unfold cell; cbn [x y]; lia. }
  assert (history q' !! Z.to_nat 436790 = Some (mk_position 436790 0)) as H1.
  { replace (Z.to_nat 436790) with (length long_strip + 1)%nat by lia.
    rewrite Hhist, lookup_app_l by (rewrite length_fmap, length_seq; lia).
    rewrite list_lookup_fmap, lookup_seq_lt by lia.
    cbn [fmap option_fmap option_map Nat.add]. rewrite Hcell. reflexivity. }
  assert (history q' !! Z.to_nat 436792 = Some (mk_position 436790 0)) as H2.
  { replace (Z.to_nat 436792) with (length long_strip + 3)%nat by lia.
    rewrite Hhist, lookup_app_r by (rewrite length_fmap, length_seq; lia).
    rewrite length_fmap, length_seq, Nat.sub_diag.
    cbn [lookup list_lookup]. rewrite Hcell. reflexivity. }
  split; [exact H1|]. split; [exact H2|].
  intros Hnd. pose proof (NoDup_lookup _ _ _ _ Hnd H1 H2) as Heq. lia.
Qed.

(** C4, the claim refuted.  On the same map the loop is not done after
    [width * height = 436792] dequeues: it leaves after 436793. *)
Lemma long_strip_extra_dequeue :
  map_wf (strip_map long_strip) /\ costs_undefined (strip_map long_strip) /\
  first_origin (strip_map long_strip) (mk_position 0 0) /\
  width (strip_map long_strip) * height (strip_map long_strip) = 436792 /\
  _compute_costs (Z.to_nat 436792) (strip_map long_strip) = Fail OutOfFuel /\
  exists m' q',
    _compute_costs (Z.to_nat 436793) (strip_map long_strip) = Ok (m', q') /\
    first q' = last q' /\ first q' = 436793 /\
    ~ first q' <= width (strip_map long_strip) * height (strip_map long_strip).
Proof.
  split; [apply strip_map_wf, long_strip_fits|].
  split; [apply initial_map_undefined|].
  split; [apply (strip_first_origin long_strip long_strip_terrain)|].
  split; [apply long_strip_cells|].
  destruct long_strip_run as (Hfuel & m' & q' & Hrun & Hf & Hl & _).
  split; [exact Hfuel|]. exists m', q'.
  split; [exact Hrun|]. split; [lia|]. split; [exact Hf|].
  rewrite long_strip_cells. lia.
Qed.

(** * Further properties of the cost engine *)

(** X1.  On a well-formed map [_get_base_station_pos] returns, without
    leaving the array, either the first origin-terrain cell in row-major
    order, a cell of the map no coordinate of which is [0xFFFFFFFF], or,
    when the map holds no such cell, the position
    [(0xFFFFFFFF, 0xFFFFFFFF)]: the test of [_compute_costs] on the result
    tells the two cases apart. *)
Theorem base_station_pos_first m :
  map_wf m ->
  exists p,
    _get_base_station_pos m = Ok p /\
    ((first_origin m p /\ in_bounds (width m) (height m) p /\
      x p <> 0xFFFFFFFF /\ y p <> 0xFFFFFFFF) \/
     (no_origin m /\ p = mk_position 0xFFFFFFFF 0xFFFFFFFF)).
Proof.
  intros Hwf.
  destruct (get_base_station_pos_spec m Hwf) as [(o & Ho & Hget)|[Hnone Hget]].
  - exists o. split; [done|]. left.
    pose proof (first_origin_in_bounds m o Ho) as Hin.
    split; [done|]. split; [done|].
    destruct Hwf as [Hw Hh _ _], Hin as [Hx Hy]. lia.
  - eexists. split; [done|]. by right.
Qed.

Lemma base_station_pos_first_witness :
  exists p,
    _get_base_station_pos
      (initial_map 2 2 [[PLAIN; ERG]; [BASE_STATION; BASE_STATION]]) = Ok p /\
    ((first_origin (initial_map 2 2 [[PLAIN; ERG]; [BASE_STATION; BASE_STATION]]) p /\
      in_bounds 2 2 p /\ x p <> 0xFFFFFFFF /\ y p <> 0xFFFFFFFF) \/
     (no_origin (initial_map 2 2 [[PLAIN; ERG]; [BASE_STATION; BASE_STATION]]) /\
      p = mk_position 0xFFFFFFFF 0xFFFFFFFF)).
Proof.
  apply (base_station_pos_first
           (initial_map 2 2 [[PLAIN; ERG]; [BASE_STATION; BASE_STATION]])).
  apply initial_map_wf; [lia|lia|]. split; [reflexivity|repeat constructor].
Defined.

(** X2.  The value of [_compute_cell_cost]: 0 for an origin-terrain cell;
    for another cell the terrain cost plus [cost_min], in 32-bit unsigned
    arithmetic, where [cost_min] is the least of [0xFFFFFFFF] and the
    costs of the bounds-valid neighbours.  Without a queue the call
    changes nothing; with a queue it returns the same value. *)
Theorem cell_cost_min_plus_terrain m p s :
  map_wf m -> in_bounds (width m) (height m) p ->
  grid_get (soils m) p = Ok s ->
  exists cost_min,
    _compute_cell_cost m p None
    = Ok (if decide (s = BASE_STATION) then 0 else u32 (cost_min + _soil_cost s),
          m, None) /\
    cost_min <= 0xFFFFFFFF /\
    (forall d v, d ∈ _direction_vectors ->
       POSITION_IS_VALID (neighbour p d) (width m) (height m) = true ->
       grid_get (costs m) (neighbour p d) = Ok v -> cost_min <= v) /\
    (cost_min = 0xFFFFFFFF \/
     exists d, d ∈ _direction_vectors /\
       POSITION_IS_VALID (neighbour p d) (width m) (height m) = true /\
       grid_get (costs m) (neighbour p d) = Ok cost_min) /\
    (forall oq v m' oq',
       _compute_cell_cost m p oq = Ok (v, m', oq') ->
       v = if decide (s = BASE_STATION) then 0 else u32 (cost_min + _soil_cost s)).
Proof.
  intros Hwf Hp Hs.
  destruct (map_wf_position m p Hwf Hp) as [Hx Hy].
  assert (forall cm, cell_cost s cm
            = if decide (s = BASE_STATION) then 0 else u32 (cm + _soil_cost s))
    as Hcell.
  { intros cm. unfold cell_cost. rewrite u32_soil_cost.
    destruct (decide (s = BASE_STATION)) as [->|Hne]; [done|].
    destruct (Z.eqb_spec (_soil_cost s) 0) as [H0|_]; [|done].
    by apply soil_cost_zero in H0. }
  destruct (scan_neighbours_pure (width m) (height m) p _direction_vectors
              0xFFFFFFFF (costs m) None (wf_costs m Hwf)) as [cost_min Hrun0];
    [by left|].
  destruct (scan_neighbours_post _ _ _ _ _ _ _ _ _ _
              (neighbours_NoDup p Hx Hy) Hrun0) as [new0 Hpost0].
  pose proof (sp_le _ _ _ _ _ _ _ _ _ _ _ Hpost0) as Hle.
  pose proof (sp_lower_bound _ _ _ _ _ _ _ _ _ _ _ Hpost0) as Hlb.
  pose proof (sp_attained _ _ _ _ _ _ _ _ _ _ _ Hpost0) as Hatt.
  exists cost_min. rewrite <- Hcell. split.
  { apply compute_cell_cost_Ok. exists s, cost_min, (costs m).
    by rewrite with_costs_id. }
  split; [done|]. split; [done|]. split; [done|].
  intros oq v m' oq' Hany.
  apply compute_cell_cost_Ok in Hany as (s' & cm & c' & Hs' & Hscan & -> & _).
  rewrite Hs in Hs'. injection Hs' as <-. f_equal.
  destruct (scan_neighbours_post _ _ _ _ _ _ _ _ _ _
              (neighbours_NoDup p Hx Hy) Hscan) as [new Hpost].
  pose proof (sp_le _ _ _ _ _ _ _ _ _ _ _ Hpost) as Hcm.
  apply Z.le_antisymm.
  - destruct Hatt as [->|(d & Hd & Hv & Hg)]; [done|].
    exact (sp_lower_bound _ _ _ _ _ _ _ _ _ _ _ Hpost d cost_min Hd Hv Hg).
  - destruct (sp_attained _ _ _ _ _ _ _ _ _ _ _ Hpost) as [->|(d & Hd & Hv & Hg)];
      [done|]. by eapply Hlb.
Qed.

(** ** The neighbour loop and the queue *)

Lemma enqueue_keeps_wf q v q' : queue_wf q -> enqueue q v = Ok q' -> queue_wf q'.
Proof.
  intros Hq Henq.
  destruct (enqueue_wf q v Hq) as (q2 & Henq2 & Hq2).
  - unfold enqueue in Henq.
    destruct (Z.ltb_spec (last q - first q) (size q)); [done|discriminate].
  - congruence.
Qed.

Lemma scan_neighbours_wf w h p ds cost_min c q cost_min' c' oq' :
  queue_wf q ->
  for_each (visit_neighbour w h p) ds (cost_min, c, Some q) = Ok (cost_min', c', oq') ->
  exists q', oq' = Some q' /\ queue_wf q'.
Proof.
  revert cost_min c q. induction ds as [|d ds IH]; intros cost_min c q Hq Hrun.
  { injection Hrun as <- <- <-. eauto. }
  apply for_each_cons in Hrun as ([[cost_min1 c1] oq1] & Hvisit & Hrun).
  apply visit_neighbour_Ok in Hvisit.
  inversion Hvisit as
      [st Hv
      | cm0 c0 oq0 v Hv Hg Hlt
      | cm0 c0 q0 q1 c0' Hv Hg Hcm Henq Hset
      | cm0 c0 oq0 v Hv Hg Hcm Hkeep]; subst; clear Hvisit.
  - by eapply IH.
  - by eapply IH.
  - eapply IH; [|done]. by eapply enqueue_keeps_wf.
  - by eapply IH.
Qed.

Lemma scan_neighbours_room w h p ds cost_min c q :
  grid_dims c w h -> queue_wf q ->
  last q - first q + Z.of_nat (length ds) <= size q ->
  exists cost_min' c' q',
    for_each (visit_neighbour w h p) ds (cost_min, c, Some q)
    = Ok (cost_min', c', Some q').
Proof.
  revert cost_min c q. induction ds as [|d ds IH]; intros cost_min c q Hdims Hq Hroom.
  { by exists cost_min, c, q. }
  rewrite length_cons in Hroom.
  assert (exists cost_min1 c1 q1,
    visit_neighbour w h p (cost_min, c, Some q) d = Ok (cost_min1, c1, Some q1) /\
    grid_dims c1 w h /\ queue_wf q1 /\
    last q1 - first q1 <= last q - first q + 1 /\ size q1 = size q)
    as (cost_min1 & c1 & q1 & Hvisit & Hdims1 & Hq1 & Hroom1 & Hsize1).
  { destruct (POSITION_IS_VALID (neighbour p d) w h) eqn:Hvalid.
    2:{ exists cost_min, c, q. split; [|split; [done|split; [done|lia]]].
        apply visit_neighbour_Ok. by constructor. }
    destruct (grid_get_is_Ok c w h (neighbour p d) Hdims) as [v Hv];
      [by apply valid_in_bounds|].
    destruct (Z.lt_ge_cases v cost_min).
    { exists v, c, q. split; [|split; [done|split; [done|lia]]].
      apply visit_neighbour_Ok. by constructor. }
    destruct (decide (v = COST_UNDEF)) as [->|Hne].
    - destruct (enqueue_wf q (neighbour p d) Hq) as (q1 & Henq & Hq1); [lia|].
      destruct (grid_set_is_Ok c w h (neighbour p d) PENDING Hdims) as [c1 Hset];
        [by apply valid_in_bounds|].
      pose proof (enqueue_Ok _ _ _ Henq) as (_ & Hf1 & Hs1 & Hl1).
      exists cost_min, c1, q1. split; [|split; [|split; [done|lia]]].
      + apply visit_neighbour_Ok. eapply visit_mark; [done|done|lia|done|done].
      + by eapply grid_set_dims.
    - exists cost_min, c, q. split; [|split; [done|split; [done|lia]]].
      apply visit_neighbour_Ok. eapply visit_keep; [done|done|lia|by right]. }
  destruct (IH cost_min1 c1 q1 Hdims1 Hq1) as (cost_min' & c' & q' & Hrun); [lia|].
  exists cost_min', c', q'. apply for_each_cons. eauto.
Qed.

(** X3.  With a queue that has room for four entries,
    [_compute_cell_cost] returns, and it enqueues exactly the bounds-valid
    neighbours whose cost is [COST_UNDEF], each once, behind what the
    queue held; it sets the cost of each of them to [COST_UNDEF - 1] and
    leaves every other cost as it was; nothing is dequeued. *)
Theorem cell_cost_marks_undefined m p q :
  map_wf m -> in_bounds (width m) (height m) p ->
  queue_wf q -> last q - first q + 4 <= size q ->
  exists v c' q' new,
    _compute_cell_cost m p (Some q) = Ok (v, with_costs m c', Some q') /\
    queue_wf q' /\
    history q' = history q ++ new /\ first q' = first q /\
    last q' = last q + Z.of_nat (length new) /\
    NoDup new /\
    (forall r, r ∈ new <->
       exists d, d ∈ _direction_vectors /\ r = neighbour p d /\
         POSITION_IS_VALID r (width m) (height m) = true /\
         grid_get (costs m) r = Ok COST_UNDEF) /\
    (forall r, r ∈ new -> grid_get c' r = Ok (COST_UNDEF - 1)) /\
    (forall r, r ∉ new -> grid_get c' r = grid_get (costs m) r).
Proof.
  intros Hwf Hp Hq Hroom.
  destruct (map_wf_position m p Hwf Hp) as [Hx Hy].
  destruct (grid_get_is_Ok (soils m) _ _ p (wf_soils m Hwf) Hp) as [s Hs].
  destruct (scan_neighbours_room (width m) (height m) p _direction_vectors
              0xFFFFFFFF (costs m) q (wf_costs m Hwf) Hq)
    as (cost_min & c' & q' & Hrun); [simpl; lia|].
  destruct (scan_neighbours_wf _ _ _ _ _ _ _ _ _ _ Hq Hrun) as (q'' & [= <-] & Hq').
  destruct (scan_neighbours_post _ _ _ _ _ _ _ _ _ _
              (neighbours_NoDup p Hx Hy) Hrun) as [new Hpost].
  destruct (sp_queue _ _ _ _ _ _ _ _ _ _ _ Hpost)
    as (q2 & [= <-] & Hhist & Hfirst & Hsize & Hlast).
  exists (cell_cost s cost_min), c', q', new.
  split. { apply compute_cell_cost_Ok. by exists s, cost_min, c'. }
  split; [done|]. split; [done|]. split; [done|]. split; [done|].
  split; [apply Hpost|]. split; [|split; apply Hpost].
  intros r. split.
  - apply Hpost.
  - intros (d & Hd & -> & Hv & Hg).
    apply (sp_all_marked _ _ _ _ _ _ _ _ _ _ _ Hpost); try done.
Qed.

Lemma cell_cost_marks_undefined_witness :
  exists v c' q' new,
    _compute_cell_cost
      {| width := 3; height := 1; soils := [[PLAIN; BASE_STATION; ERG]];
         costs := [[COST_UNDEF; COST_UNDEF - 1; COST_UNDEF]] |}
      (mk_position 1 0) (Some (createQueue 4))
    = Ok (v, with_costs
               {| width := 3; height := 1; soils := [[PLAIN; BASE_STATION; ERG]];
                  costs := [[COST_UNDEF; COST_UNDEF - 1; COST_UNDEF]] |} c',
          Some q') /\
    queue_wf q' /\
    history q' = history (createQueue 4) ++ new /\
    first q' = first (createQueue 4) /\
    last q' = last (createQueue 4) + Z.of_nat (length new) /\
    NoDup new /\
    (forall r, r ∈ new <->
       exists d, d ∈ _direction_vectors /\ r = neighbour (mk_position 1 0) d /\
         POSITION_IS_VALID r 3 1 = true /\
         grid_get [[COST_UNDEF; COST_UNDEF - 1; COST_UNDEF]] r = Ok COST_UNDEF) /\
    (forall r, r ∈ new -> grid_get c' r = Ok (COST_UNDEF - 1)) /\
    (forall r, r ∉ new ->
       grid_get c' r = grid_get [[COST_UNDEF; COST_UNDEF - 1; COST_UNDEF]] r).
Proof.
  apply (cell_cost_marks_undefined
           {| width := 3; height := 1; soils := [[PLAIN; BASE_STATION; ERG]];
              costs := [[COST_UNDEF; COST_UNDEF - 1; COST_UNDEF]] |}
           (mk_position 1 0) (createQueue 4)).
  - split; simpl; [lia | lia | | ]; (split; [reflexivity | repeat constructor]).
  - split; simpl; lia.
  - apply createQueue_wf. lia.
  - simpl. lia.
Defined.

Lemma scan_neighbours_history w h p ds cost_min c q cost_min' c' oq' :
  for_each (visit_neighbour w h p) ds (cost_min, c, Some q) = Ok (cost_min', c', oq') ->
  exists q' l, oq' = Some q' /\ history q' = history q ++ l.
Proof.
  revert cost_min c q. induction ds as [|d ds IH]; intros cost_min c q Hrun.
  { injection Hrun as <- <- <-. exists q, []. by rewrite app_nil_r. }
  apply for_each_cons in Hrun as ([[cost_min1 c1] oq1] & Hvisit & Hrun).
  apply visit_neighbour_Ok in Hvisit.
  inversion Hvisit as
      [st Hv
      | cm0 c0 oq0 v Hv Hg Hlt
      | cm0 c0 q0 q1 c0' Hv Hg Hcm Henq Hset
      | cm0 c0 oq0 v Hv Hg Hcm Hkeep]; subst; clear Hvisit;
    try by eapply IH.
  destruct (IH _ _ _ Hrun) as (q' & l & -> & Hl).
  apply enqueue_Ok in Henq as (Hh & _).
  exists q', (neighbour p d :: l). split; [done|].
  rewrite Hl, Hh, <- app_assoc. done.
Qed.

Lemma propagate_history fuel m q m' q' :
  propagate fuel m q = Ok (m', q') -> exists l, history q' = history q ++ l.
Proof.
  revert m q. induction fuel as [|fuel IH]; intros m q Hrun.
  - simpl in Hrun. destruct (first q =? last q); [|done].
    injection Hrun as <- <-. exists []. by rewrite app_nil_r.
  - rewrite propagate_unfold in Hrun.
    destruct (first q =? last q).
    { injection Hrun as <- <-. exists []. by rewrite app_nil_r. }
    inv_bind Hrun. destruct a as [m1 q1].
    destruct (IH _ _ Hrun) as [l Hl].
    unfold iteration in Ha. inv_bind Ha. destruct a as [p q2].
    inv_bind Ha. destruct a as [[c m2] oq3]. inv_bind Ha.
    injection Ha as <- <-.
    pose proof (dequeue_Ok _ _ _ Ha0) as (Hh2 & _).
    apply compute_cell_cost_Ok in Ha1 as (s & cm & c1 & _ & Hscan & _ & _).
    destruct (scan_neighbours_history _ _ _ _ _ _ _ _ _ _ Hscan) as (q3 & l' & -> & Hl').
    exists (l' ++ l). simpl in Hl. rewrite Hl, Hl', Hh2, <- app_assoc. done.
Qed.

(** X4.  On a well-formed map without origin-terrain cell [_compute_costs]
    returns the map as it was, having enqueued nothing; and a run of
    [_compute_costs] that has enqueued nothing is a run on such a map. *)
Theorem no_origin_no_propagation fuel m :
  map_wf m ->
  (no_origin m ->
   exists q, _compute_costs fuel m = Ok (m, q) /\ history q = [] /\
             first q = 0 /\ last q = 0) /\
  (forall m' q', _compute_costs fuel m = Ok (m', q') -> history q' = [] ->
                 no_origin m /\ m' = m).
Proof.
  intros Hwf. split.
  - intros Hnone. rewrite (compute_costs_no_origin fuel m Hwf Hnone).
    eexists. split; [done|]. done.
  - intros m' q' Hrun Hh.
    destruct (get_base_station_pos_spec m Hwf) as [(o & Ho & Hget)|[Hnone Hget]].
    + exfalso. destruct (first_origin_found m o Hwf Ho) as [_ Hcheck].
      unfold _compute_costs in Hrun. rewrite Hget in Hrun. cbn [bind] in Hrun.
      rewrite Hcheck in Hrun. inv_bind Hrun. rename a into q0.
      pose proof (enqueue_Ok _ _ _ Ha) as (Hh0 & _).
      destruct (propagate_history _ _ _ _ _ Hrun) as [l Hl].
      rewrite Hl, Hh0 in Hh. simpl in Hh. by destruct (history _).
    + split; [done|].
      rewrite (compute_costs_no_origin fuel m Hwf Hnone) in Hrun.
      by injection Hrun as <- _.
Qed.

(** ** The loop stays inside the arrays *)

Lemma safe_step m q :
  safe_inv m q -> first q <> last q ->
  (exists m' q',
     iteration m q = Ok (m', q') /\ safe_inv m' q' /\
     soils m' = soils m /\ width m' = width m /\ height m' = height m) \/
  iteration m q = Fail QueueFull.
Proof.
  intros [Hwf Hq Hpend] Hne.
  destruct (dequeue_wf q Hq Hne) as (p & q1 & Hdeq & Hq1 & Hp).
  pose proof (dequeue_Ok _ _ _ Hdeq) as (Hh1 & Hf1 & Hs1 & Hl1 & _).
  pose proof (qwf_first q Hq) as Hfirst.
  assert (in_bounds (width m) (height m) p) as Hpin.
  { apply (Hpend _ _ Hp). lia. }
  destruct (map_wf_position m p Hwf Hpin) as [Hx Hy].
  destruct (grid_get_is_Ok (soils m) _ _ p (wf_soils m Hwf) Hpin) as [s Hs].
  unfold iteration. rewrite Hdeq. cbn [bind].
  unfold _compute_cell_cost. rewrite Hs. cbn [bind].
  destruct (for_each (visit_neighbour (width m) (height m) p) _direction_vectors
              (0xFFFFFFFF, costs m, Some q1)) as [[[cost_min c1] oq2]|f] eqn:Hrun.
  2:{ right. cbn [bind]. f_equal.
      eapply scan_neighbours_fault; [apply Hwf| |exact Hrun].
      by intros q' [= <-]. }
  left. cbn [bind].
  destruct (scan_neighbours_wf _ _ _ _ _ _ _ _ _ _ Hq1 Hrun) as (q2 & -> & Hq2).
  destruct (scan_neighbours_post _ _ _ _ _ _ _ _ _ _
              (neighbours_NoDup p Hx Hy) Hrun) as [new Hpost].
  destruct (sp_queue _ _ _ _ _ _ _ _ _ _ _ Hpost)
    as (q2' & [= <-] & Hh2 & Hf2 & Hs2 & Hl2).
  pose proof (sp_dims _ _ _ _ _ _ _ _ _ _ _ Hpost _ _ (wf_costs m Hwf)) as Hdims1.
  destruct (grid_set_is_Ok c1 _ _ p
              (if u32 (_soil_cost s) =? 0 then 0
               else u32 (cost_min + u32 (_soil_cost s))) Hdims1 Hpin) as [c2 Hset].
  simpl. simpl in Hset. rewrite Hset. cbn [bind].
  exists (with_costs m c2), q2. split; [reflexivity|]. split; [|done].
  split.
  - apply map_wf_with_costs; [done|]. by eapply grid_set_dims.
  - done.
  - simpl. rewrite Hh2, Hh1, Hf2, Hf1.
    intros i r [Hi|[Hlen Hi]]%lookup_app_Some Hlt.
    + apply (Hpend i r Hi). lia.
    + destruct (sp_new _ _ _ _ _ _ _ _ _ _ _ Hpost r) as (d & _ & -> & Hv & _).
      { by eapply list_elem_of_lookup_2. }
      by apply valid_in_bounds.
Qed.

Lemma safe_run fuel m q :
  safe_inv m q ->
  (exists m' q',
     propagate fuel m q = Ok (m', q') /\ safe_inv m' q' /\ first q' = last q' /\
     soils m' = soils m /\ width m' = width m /\ height m' = height m) \/
  propagate fuel m q = Fail QueueFull \/ propagate fuel m q = Fail OutOfFuel.
Proof.
  revert m q. induction fuel as [|fuel IH]; intros m q Hsafe.
  - simpl. destruct (Z.eqb_spec (first q) (last q)); [|by right; right].
    left. by exists m, q.
  - rewrite propagate_unfold. destruct (Z.eqb_spec (first q) (last q)) as [Heq|Hne].
    { left. by exists m, q. }
    destruct (safe_step m q Hsafe Hne)
      as [(m1 & q1 & -> & Hsafe1 & Hs1 & Hw1 & Hh1)| ->]; [|by right; left].
    cbn [bind].
    destruct (IH m1 q1 Hsafe1)
      as [(m' & q' & Hrun & Hsafe' & Hend & Hs' & Hw' & Hh')|Hfail]; [|by right].
    left. exists m', q'. split; [done|]. split; [done|]. split; [done|].
    split; [congruence|]. split; congruence.
Qed.

(** X5.  On a well-formed map, whatever its cost array holds and
    whether path costs wrap around or not, [_compute_costs] makes no
    access outside of [soils] or [costs] and never dequeues from an empty
    queue; when it returns, the queue is empty and the map has its
    dimensions, its terrain and arrays of the same extent. *)
Theorem compute_costs_stays_in_bounds fuel m :
  map_wf m ->
  _compute_costs fuel m <> Fail OutOfBounds /\
  _compute_costs fuel m <> Fail QueueEmpty /\
  forall m' q',
    _compute_costs fuel m = Ok (m', q') ->
    map_wf m' /\ soils m' = soils m /\ width m' = width m /\
    height m' = height m /\ first q' = last q'.
Proof.
  intros Hwf.
  assert ((exists m' q',
             _compute_costs fuel m = Ok (m', q') /\ map_wf m' /\ first q' = last q' /\
             soils m' = soils m /\ width m' = width m /\ height m' = height m) \/
          _compute_costs fuel m = Fail QueueFull \/
          _compute_costs fuel m = Fail OutOfFuel) as Hcases.
  { destruct (get_base_station_pos_spec m Hwf) as [(o & Ho & Hget)|[Hnone Hget]].
    2:{ left. rewrite (compute_costs_no_origin fuel m Hwf Hnone).
        eexists _, _. split; [done|]. done. }
    destruct (first_origin_found m o Hwf Ho) as [_ Hcheck].
    pose proof (first_origin_in_bounds m o Ho) as Hin.
    unfold _compute_costs. rewrite Hget. cbn [bind]. rewrite Hcheck.
    set (sz := int_of_u32 (u32 (width m * height m))).
    destruct (Z.lt_ge_cases 0 sz) as [Hpos|Hneg].
    - destruct (enqueue_wf (createQueue sz) o) as (q0 & Henq & Hq0).
      { by apply createQueue_wf. }
      { simpl. lia. }
      rewrite Henq. cbn [bind].
      pose proof (enqueue_Ok _ _ _ Henq) as (Hh0 & Hf0 & Hs0 & Hl0). simpl in *.
      destruct (safe_run fuel m q0)
        as [(m' & q' & Hrun & [Hwf' _ _] & Hend & Hs' & Hw' & Hh')|Hfail];
        [|left|by right].
      + split; [done|done|]. rewrite Hh0. intros [|i] r; [|done].
        by intros [= <-] _.
      + exists m', q'. done.
    - right; left. unfold enqueue. simpl.
      destruct (Z.ltb_spec (0 - 0) sz); [lia|done]. }
  destruct Hcases as [(m' & q' & Hrun & Hrest)|[Hfail|Hfail]]; rewrite ?Hrun, ?Hfail.
  - split; [done|]. split; [done|]. intros m2 q2 [= <- <-].
    by destruct Hrest as (? & ? & ? & ? & ?).
  - done.
  - done.
Qed.

(** X6.  On a map with an origin, undefined costs and path costs below
    the sentinels, [_compute_costs] enqueues every cell of the map exactly
    once, crevasses and the cells behind them included: the loop makes
    exactly [width * height] turns and leaves every cell with a cost
    between 0 and [10000 * (width * height - 1)], none undefined or
    pending. *)
Theorem every_cell_settled m o fuel :
  map_wf m -> costs_fit m -> costs_undefined m -> first_origin m o ->
  width m * height m <= Z.of_nat fuel ->
  exists m' q',
    _compute_costs fuel m = Ok (m', q') /\
    history q' ≡ₚ row_major (width m) (height m) /\
    first q' = width m * height m /\ last q' = width m * height m /\
    forall r, in_bounds (width m) (height m) r ->
      exists v, grid_get (costs m') r = Ok v /\
                0 <= v <= 10000 * (width m * height m - 1).
Proof.
  intros Hwf Hfit Hundef Ho Hfuel.
  destruct (fit_run m o fuel Hwf Hfit Hundef Ho Hfuel)
    as (m' & q' & Hrun & [Hinv _ Hbound _] & Hend & Hs' & Hw' & Hh' & Ho').
  exists m', q'. split; [done|].
  assert (forall r, in_bounds (width m) (height m) r -> r ∈ history q') as Hall.
  { intros r Hr. apply (all_reached m' q' Hinv Hend).
    - intros Hnil. by rewrite Hnil in Ho'.
    - by rewrite Hw', Hh'. }
  assert (history q' ≡ₚ row_major (width m) (height m)) as Hperm.
  { apply NoDup_Permutation.
    - apply Hinv.
    - apply NoDup_row_major.
    - intros r. rewrite elem_of_row_major. split; [|apply Hall].
      rewrite <- Hw', <- Hh'. apply Hinv. }
  pose proof (qwf_last q' (bi_queue m' q' Hinv)) as Hlast.
  assert (last q' = width m * height m) as Hcount.
  { rewrite Hlast, Hperm. apply length_row_major; apply Hwf. }
  split; [done|]. split; [lia|]. split; [done|].
  intros r [i Hi]%Hall%list_elem_of_lookup_1.
  pose proof (lookup_lt_Some _ _ _ Hi) as Hlt.
  destruct (bi_settled m' q' Hinv i r Hi) as (v & Hv & Hrange); [lia|].
  exists v. split; [done|].
  pose proof (Hbound i r v Hi ltac:(lia) Hv). lia.
Qed.

(** ** Where the costs come from *)

Lemma route_facts w h soils p c :
  route w h soils p c ->
  0 <= c /\ in_bounds w h p /\
  exists s, grid_get soils p = Ok s /\ _soil_cost s <= c /\
            (c = 0 -> s = BASE_STATION).
Proof.
  induction 1 as [p Hin Hs|r c d s Hr IH Hd Hv Hs].
  - split; [lia|]. split; [done|]. exists BASE_STATION. simpl. split; [done|].
    split; [lia|done].
  - destruct IH as (Hc & _ & _). pose proof (soil_cost_range s) as Hrange.
    split; [lia|]. split; [by apply valid_in_bounds|].
    exists s. split; [done|]. split; [lia|].
    intros H0. apply soil_cost_zero. lia.
Qed.

Lemma route_distance w h soils p c :
  0 <= w < 2 ^ 32 -> 0 <= h < 2 ^ 32 ->
  route w h soils p c ->
  exists b, in_bounds w h b /\ grid_get soils b = Ok BASE_STATION /\
            manhattan b p <= c.
Proof.
  intros Hw Hh. induction 1 as [p Hin Hs|r c d s Hr IH Hd Hv Hs].
  - exists p. split; [done|]. split; [done|].
    unfold manhattan. lia.
  - destruct IH as (b & Hb & Hsb & Hdist).
    destruct (route_facts _ _ _ _ _ Hr) as (Hc & Hrin & _).
    destruct (decide (s = BASE_STATION)) as [->|Hne].
    + exists (neighbour r d). split; [by apply valid_in_bounds|].
      split; [done|]. unfold manhattan. simpl (_soil_cost _). lia.
    + exists b. split; [done|]. split; [done|].
      pose proof (soil_cost_range s) as Hrange.
      assert (_soil_cost s <> 0) as Hpos by (by rewrite soil_cost_zero).
      destruct (neighbour_manhattan w h b r d Hw Hh Hrin Hd Hv); lia.
Qed.

Lemma route_from_neighbour m p d s c :
  map_wf m -> in_bounds (width m) (height m) p -> d ∈ _direction_vectors ->
  grid_get (soils m) p = Ok s ->
  route (width m) (height m) (soils m) (neighbour p d) c ->
  route (width m) (height m) (soils m) p (c + _soil_cost s).
Proof.
  intros Hwf Hp Hd Hs Hroute.
  destruct (map_wf_position m p Hwf Hp) as [Hx Hy].
  destruct (neighbour_sym p d Hx Hy Hd) as (d' & Hd' & Hback).
  rewrite <- Hback at 1.
  apply route_enter; [done|done|..]; rewrite Hback; [|done].
  by apply in_bounds_valid.
Qed.

Lemma route_step m q :
  route_inv m q -> first q <> last q ->
  exists m' q',
    iteration m q = Ok (m', q') /\ route_inv m' q' /\
    first q' = first q + 1 /\
    soils m' = soils m /\ width m' = width m /\ height m' = height m /\
    exists new, history q' = history q ++ new.
Proof.
  intros [Hfit Hroute Hparent] Hne.
  destruct (fit_step m q Hfit Hne) as
    (m' & q' & Hiter & Hfit' & Hf' & Hs' & Hw' & Hh' & new' & Hhist').
  exists m', q'. split; [done|]. split; [|by eauto 10].
  destruct Hfit as [Hinv Hcfit Hbound Hbase].
  destruct (bfs_iteration m q Hinv Hne) as
    (p & s & cost_min & c1 & q1 & q2 & new & Hp & Hs & Hdeq & Hcomp & Hpost
       & Hh2 & Hf2 & Hl2 & Hnewfresh & c2 & Hiter2 & _ & _ & _ & Hgp & Hgnew
       & Hframe & _).
  rewrite Hiter in Hiter2. injection Hiter2 as -> ->.
  pose proof (bi_queue m q Hinv) as Hq. pose proof (qwf_first q Hq) as Hfirst.
  pose proof (bfs_inv_last m q Hinv) as Hlast.
  pose proof (bi_wf m q Hinv) as Hwf.
  assert (in_bounds (width m) (height m) p) as Hpin.
  { eapply bi_in_bounds; [done|]. by eapply list_elem_of_lookup_2. }
  assert (forall i r, (history q ++ new) !! i = Some r -> Z.of_nat i < first q + 1 ->
            (Z.of_nat i = first q /\ r = p) \/
            (Z.of_nat i < first q /\ history q !! i = Some r /\
             grid_get c2 r = grid_get (costs m) r)) as Hcases.
  { intros i r [Hi|[Hlen Hi]]%lookup_app_Some Hlt.
    2:{ destruct Hq. lia. }
    destruct (decide (Z.of_nat i = first q)) as [Heq|Hik].
    - left. split; [done|]. rewrite <- Heq, Nat2Z.id in Hp. congruence.
    - right. split; [lia|]. split; [done|]. apply Hframe.
      + intros ->. pose proof (NoDup_lookup _ _ _ _ (bi_nodup m q Hinv) Hi Hp). lia.
      + intros Hrn. apply (Hnewfresh r Hrn). by eapply list_elem_of_lookup_2. }
  assert (s <> BASE_STATION ->
          exists j d,
            Z.of_nat j < first q /\ d ∈ _direction_vectors /\
            history q !! j = Some (neighbour p d) /\
            grid_get (costs m) (neighbour p d) = Ok cost_min /\
            cell_cost s cost_min = cost_min + _soil_cost s) as Hnew.
  { intros Hsoil.
    destruct (settled_parent m q p s Hinv Hp Hs Hsoil)
      as (j & d & v & Hj & Hd & Hjn & Hvalid & Hv & Hvrange).
    pose proof (sp_lower_bound _ _ _ _ _ _ _ _ _ _ _ Hpost d v Hd Hvalid Hv) as Hle.
    destruct (settled_minimum m q p cost_min Hinv Hp) as
      (i & d' & Hi & Hd' & Hin' & Hg' & Hpos); [lia|apply Hpost|].
    exists i, d'. split; [done|]. split; [done|]. split; [done|]. split; [done|].
    pose proof (Hbound i _ _ Hin' Hi Hg') as Hb.
    pose proof (soil_cost_range s) as Hrange.
    unfold costs_fit, COST_UNDEF in Hcfit.
    apply cell_cost_add; [done|lia|lia]. }
  split; simpl.
  - done.
  - rewrite Hh2, Hf2. intros i r v Hi Hlt Hv.
    destruct (Hcases i r Hi Hlt) as [[Heq ->]|(Hlt' & Hi' & Hsame)].
    + rewrite Hgp in Hv. injection Hv as <-.
      destruct (decide (s = BASE_STATION)) as [->|Hsoil].
      { rewrite cell_cost_base. by apply route_origin. }
      destruct (Hnew Hsoil) as (j & d & Hj & Hd & Hjn & Hg & ->).
      apply (route_from_neighbour m p d s cost_min); try done.
      by eapply Hroute.
    + rewrite Hsame in Hv. by eapply Hroute.
  - rewrite Hh2, Hf2. intros i r s' v Hi Hlt Hs'' Hsoil Hv.
    destruct (Hcases i r Hi Hlt) as [[Heq ->]|(Hlt' & Hi' & Hsame)].
    + rewrite Hgp in Hv. injection Hv as <-.
      rewrite Hs in Hs''. injection Hs'' as <-.
      destruct (Hnew Hsoil) as (j & d & Hj & Hd & Hjn & Hg & ->).
      exists j, d, cost_min. split; [lia|]. split; [done|].
      split; [by apply lookup_app_l_Some|]. split; [|done].
      destruct (Hcases j (neighbour p d)) as [[Hjeq _]|(_ & _ & ->)];
        [by apply lookup_app_l_Some|lia|lia|done].
    + rewrite Hsame in Hv.
      destruct (Hparent i r s' v Hi' Hlt' Hs'' Hsoil Hv)
        as (j & d & vn & Hj & Hd & Hjn & Hg & ->).
      exists j, d, vn. split; [lia|]. split; [done|].
      split; [by apply lookup_app_l_Some|]. split; [|done].
      destruct (Hcases j (neighbour r d)) as [[Hjeq _]|(_ & _ & ->)];
        [by apply lookup_app_l_Some|lia|lia|done].
Qed.

Lemma route_run m o fuel :
  map_wf m -> costs_fit m -> costs_undefined m -> first_origin m o ->
  width m * height m <= Z.of_nat fuel ->
  exists m' q',
    _compute_costs fuel m = Ok (m', q') /\
    route_inv m' q' /\ first q' = last q' /\
    soils m' = soils m /\ width m' = width m /\ height m' = height m /\
    history q' !! 0%nat = Some o.
Proof.
  intros Hwf Hfit Hundef Ho Hfuel.
  destruct (compute_costs_start m o Hwf (costs_fit_cells m Hwf Hfit) Hundef Ho)
    as (q0 & _ & Hstart & Hinv0 & Hh0 & Hf0 & Hl0).
  rewrite Hstart.
  destruct (propagate_run
              (fun m' q' => route_inv m' q' /\ soils m' = soils m /\
                            width m' = width m /\ height m' = height m /\
                            history q' !! 0%nat = Some o)
              (width m * height m)) with (fuel := fuel) (m := m) (q := q0)
    as (m' & q' & Hrun & HI & Hend).
  - intros m1 q1 ([[Hinv1 _ _ _] _ _] & _ & Hw1 & Hh1 & _).
    rewrite <- Hw1, <- Hh1. by apply bfs_inv_last.
  - intros m1 q1 (Hr1 & Hs1 & Hw1 & Hh1 & Ho1) Hne.
    destruct (route_step m1 q1 Hr1 Hne) as
      (m2 & q2 & Hiter & Hr2 & Hf2 & Hs2 & Hw2 & Hh2 & new & Hhist).
    exists m2, q2. split; [done|]. split; [|done].
    split; [done|]. split; [congruence|]. split; [congruence|].
    split; [congruence|]. rewrite Hhist. by apply lookup_app_l_Some.
  - split; [|by rewrite Hh0].
    split.
    + split; [done|done|..]; rewrite Hf0; lia.
    + rewrite Hf0. lia.
    + rewrite Hf0. lia.
  - lia.
  - exists m', q'. by destruct HI as (? & ? & ? & ? & ?).
Qed.

(** The loop of [_compute_costs] leaves every cost accounted for. *)
Lemma compute_costs_justified m o fuel :
  map_wf m -> costs_fit m -> costs_undefined m -> first_origin m o ->
  width m * height m <= Z.of_nat fuel ->
  exists m' q',
    _compute_costs fuel m = Ok (m', q') /\ justified m' /\
    soils m' = soils m /\ width m' = width m /\ height m' = height m.
Proof.
  intros Hwf Hfit Hundef Ho Hfuel.
  destruct (route_run m o fuel Hwf Hfit Hundef Ho Hfuel)
    as (m' & q' & Hrun & [[Hinv _ Hbound Hbase] Hroute Hparent] & Hend
          & Hs' & Hw' & Hh' & Ho').
  exists m', q'. split; [done|]. split; [|done].
  pose proof (bi_wf m' q' Hinv) as Hwf'.
  pose proof (qwf_last q' (bi_queue m' q' Hinv)) as Hlast.
  pose proof (bfs_inv_last m' q' Hinv) as Hcap.
  assert (forall r, in_bounds (width m') (height m') r ->
                    exists i, history q' !! i = Some r /\ Z.of_nat i < first q')
    as Hall.
  { intros r Hr.
    destruct (list_elem_of_lookup_1 (history q') r) as [i Hi].
    { apply (all_reached m' q' Hinv Hend); [|done].
      intros Hnil. by rewrite Hnil in Ho'. }
    exists i. split; [done|]. apply lookup_lt_Some in Hi. lia. }
  split.
  - done.
  - unfold costs_fit. by rewrite Hw', Hh'.
  - intros r Hr. destruct (Hall r Hr) as (i & Hi & Hlt).
    destruct (bi_settled m' q' Hinv i r Hi Hlt) as (v & Hv & _).
    exists v. split; [done|]. split; [|by eapply Hroute].
    pose proof (Hbound i r v Hi Hlt Hv). lia.
  - intros r Hr.
    destruct (Hall r) as (i & Hi & Hlt).
    { by eapply grid_get_in_bounds; [apply Hwf'|]. }
    by eapply Hbase.
  - intros r s v Hs Hsoil Hv.
    destruct (Hall r) as (i & Hi & Hlt).
    { by eapply grid_get_in_bounds; [apply Hwf'|]. }
    destruct (Hparent i r s v Hi Hlt Hs Hsoil Hv)
      as (j & d & vn & Hj & Hd & Hjn & Hg & ->).
    exists d, vn. split; [done|]. split; [|split; [done|lia]].
    apply in_bounds_valid. eapply bi_in_bounds; [done|].
    by eapply list_elem_of_lookup_2.
Qed.

(** ** The repair pass only lowers costs *)

Lemma repair_cell_lowers m p m1 :
  justified m -> in_bounds (width m) (height m) p ->
  repair_cell m p = Ok m1 ->
  justified m1 /\
  width m1 = width m /\ height m1 = height m /\ soils m1 = soils m /\
  forall r v v1,
    grid_get (costs m) r = Ok v -> grid_get (costs m1) r = Ok v1 -> v1 <= v.
Proof.
  intros [Hwf Hfit Hroute Hbase Hparent] Hp Hrep.
  destruct (repair_cell_spec m p Hwf Hp) as
    (m1' & s & v0 & Hrep' & Hwf1 & Hw1 & Hh1 & Hs1 & Hs & Hv0 & Hframe & Hcase).
  rewrite Hrep in Hrep'. injection Hrep' as <-.
  destruct (decide (s <> CREVASSE /\ 10000 < v0)) as [[Hsoil Hbig]|Hkeep].
  2:{ subst m1. split; [by split|]. split; [done|]. split; [done|]. split; [done|].
      intros r v v1 Hv Hv1. rewrite Hv in Hv1. injection Hv1 as <-. lia. }
  destruct Hcase as (v & Hcomp & Hv).
  assert (s <> BASE_STATION) as Hnotbase.
  { intros ->. rewrite (Hbase p Hs) in Hv0. injection Hv0 as <-. lia. }
  destruct (compute_cell_cost_pure m p None s Hwf Hp Hs)
    as (cost_min & Hcomp' & Hlb & Hatt); [by left|].
  rewrite Hcomp in Hcomp'. injection Hcomp' as ->.
  destruct (Hparent p s v0 Hs Hnotbase Hv0) as (d0 & vn & Hd0 & Hvalid0 & Hvn & Hle0).
  pose proof (Hlb d0 vn Hd0 Hvalid0 Hvn) as Hmin.
  pose proof (soil_cost_range s) as Hrange.
  destruct (Hroute (neighbour p d0) (valid_in_bounds _ _ _ _ Hvalid0))
    as (vn' & Hvn' & Hbound0 & _).
  rewrite Hvn in Hvn'. injection Hvn' as <-.
  assert (cost_min < COST_UNDEF) as Hreal.
  { unfold costs_fit in Hfit. lia. }
  destruct Hatt as [->|(d & Hd & Hvalid & Hg)]; [lia|].
  destruct (Hroute (neighbour p d) (valid_in_bounds _ _ _ _ Hvalid))
    as (vd & Hvd & Hboundd & Hrouted).
  rewrite Hg in Hvd. injection Hvd as <-.
  destruct (route_facts _ _ _ _ _ Hrouted) as (Hpos & _).
  assert (cell_cost s cost_min = cost_min + _soil_cost s) as Hcell.
  { apply cell_cost_add; [done|done|]. unfold costs_fit, COST_UNDEF in Hfit. lia. }
  rewrite Hcell in Hv.
  assert (forall r v' v1,
            grid_get (costs m) r = Ok v' -> grid_get (costs m1) r = Ok v1 ->
            v1 <= v') as Hlower.
  { intros r v' v1 Hv' Hv1. destruct (decide (r = p)) as [->|Hne].
    - rewrite Hv0 in Hv'. rewrite Hv in Hv1.
      injection Hv' as <-. injection Hv1 as <-. lia.
    - rewrite Hframe, Hv' in Hv1 by done. injection Hv1 as <-. lia. }
  split; [|done].
  split.
  - done.
  - unfold costs_fit. by rewrite Hw1, Hh1.
  - rewrite Hw1, Hh1, Hs1. intros r Hr.
    destruct (decide (r = p)) as [->|Hne].
    + exists (cost_min + _soil_cost s). split; [done|].
      destruct (Hroute p Hp) as (v0' & Hv0' & Hb0 & _).
      rewrite Hv0 in Hv0'. injection Hv0' as <-.
      split; [lia|]. by apply (route_from_neighbour m p d s cost_min).
    + rewrite Hframe by done. by apply Hroute.
  - rewrite Hs1. intros r Hr.
    destruct (decide (r = p)) as [->|Hne]; [congruence|].
    rewrite Hframe by done. by apply Hbase.
  - rewrite Hw1, Hh1, Hs1. intros r s' v' Hs' Hsoil' Hv'.
    destruct (decide (r = p)) as [->|Hne].
    + rewrite Hs in Hs'. injection Hs' as <-.
      rewrite Hv in Hv'. injection Hv' as <-.
      exists d, cost_min. split; [done|]. split; [done|]. split; [|lia].
      rewrite Hframe; [done|].
      destruct (map_wf_position m p Hwf Hp) as [Hx Hy]. by apply neighbour_ne.
    + rewrite Hframe in Hv' by done.
      destruct (Hparent r s' v' Hs' Hsoil' Hv') as (d' & vn' & Hd' & Hvalid' & Hg' & Hle').
      destruct (grid_get_is_Ok (costs m1) _ _ (neighbour r d') (wf_costs m1 Hwf1))
        as [vn1 Hvn1].
      { rewrite Hw1, Hh1. by apply valid_in_bounds. }
      exists d', vn1. split; [done|]. split; [done|]. split; [done|].
      pose proof (Hlower _ _ _ Hg' Hvn1). lia.
Qed.

Lemma repair_sweep_lowers l m m' :
  justified m -> (forall p, p ∈ l -> in_bounds (width m) (height m) p) ->
  for_each repair_cell l m = Ok m' ->
  justified m' /\
  width m' = width m /\ height m' = height m /\ soils m' = soils m /\
  forall r v v',
    grid_get (costs m) r = Ok v -> grid_get (costs m') r = Ok v' -> v' <= v.
Proof.
  revert m. induction l as [|p l IH]; intros m Hj Hl Hrun.
  { injection Hrun as <-. split; [done|]. split; [done|]. split; [done|].
    split; [done|]. intros r v v' Hv Hv'. rewrite Hv in Hv'.
    injection Hv' as <-. lia. }
  apply for_each_cons in Hrun as (m1 & Hrep & Hrun).
  destruct (repair_cell_lowers m p m1 Hj) as (Hj1 & Hw1 & Hh1 & Hs1 & Hlow1);
    [apply Hl; by left|done|].
  destruct (IH m1 Hj1) as (Hj' & Hw' & Hh' & Hs' & Hlow'); [|done|].
  { intros p' Hp'. rewrite Hw1, Hh1. apply Hl. by right. }
  split; [done|]. split; [congruence|]. split; [congruence|]. split; [congruence|].
  intros r v v' Hv Hv'.
  destruct (grid_get_is_Ok (costs m1) _ _ r (wf_costs m1 (ju_wf m1 Hj1))) as [v1 Hv1].
  { rewrite Hw1, Hh1.
    eapply grid_get_in_bounds; [apply (wf_costs m (ju_wf m Hj))|done]. }
  pose proof (Hlow1 r v v1 Hv Hv1). pose proof (Hlow' r v1 v' Hv1 Hv'). lia.
Qed.

(** X7.  On such a map, after both passes, the cost of every cell is the
    cost of a walk: some sequence of bounds-valid neighbour steps leads
    from an origin-terrain cell to the cell, and the terrain costs of the
    cells entered add up to the cost.  So the cost is at least the
    terrain cost of the cell, it is 0 exactly on origin-terrain cells, and
    it is at least the Manhattan distance to some origin-terrain cell. *)
Theorem costs_are_walk_costs m o fuel :
  map_wf m -> costs_fit m -> costs_undefined m -> first_origin m o ->
  width m * height m <= Z.of_nat fuel ->
  exists m1 q1 m2,
    _compute_costs fuel m = Ok (m1, q1) /\ _remove_false_costs m1 = Ok m2 /\
    forall r s,
      grid_get (soils m) r = Ok s ->
      exists v,
        grid_get (costs m2) r = Ok v /\
        route (width m) (height m) (soils m) r v /\
        _soil_cost s <= v <= 10000 * (width m * height m - 1) /\
        (v = 0 <-> s = BASE_STATION) /\
        exists b, grid_get (soils m) b = Ok BASE_STATION /\ manhattan b r <= v.
Proof.
  intros Hwf Hfit Hundef Ho Hfuel.
  destruct (compute_costs_justified m o fuel Hwf Hfit Hundef Ho Hfuel)
    as (m1 & q1 & Hrun & Hj1 & Hs1 & Hw1 & Hh1).
  destruct (remove_false_costs_total m1 (ju_wf m1 Hj1)) as (m2 & Hrep & _).
  exists m1, q1, m2. split; [done|]. split; [done|].
  rewrite remove_false_costs_sweep in Hrep.
  destruct (repair_sweep_lowers (row_major (width m1) (height m1)) m1 m2 Hj1) as (Hj2 & Hw2 & Hh2 & Hs2 & _);
    [by intros p; apply elem_of_row_major|done|].
  intros r s Hs.
  assert (in_bounds (width m) (height m) r) as Hr.
  { eapply grid_get_in_bounds; [apply Hwf|done]. }
  destruct (ju_route m2 Hj2 r) as (v & Hv & Hbound & Hroute).
  { by rewrite Hw2, Hh2, Hw1, Hh1. }
  rewrite Hw2, Hh2, Hw1, Hh1, Hs2, Hs1 in Hroute.
  rewrite Hw2, Hh2, Hw1, Hh1 in Hbound.
  destruct (route_facts _ _ _ _ _ Hroute) as (Hpos & _ & s' & Hs' & Hle & Hzero).
  rewrite Hs in Hs'. injection Hs' as <-.
  exists v. split; [done|]. split; [done|]. split; [lia|].
  split.
  - split; [done|]. intros ->.
    rewrite (ju_base m2 Hj2 r) in Hv; [by injection Hv|].
    by rewrite Hs2, Hs1.
  - destruct (route_distance _ _ _ _ _ (wf_width m Hwf) (wf_height m Hwf) Hroute)
      as (b & _ & Hb & Hdist).
    by exists b.
Qed.

(** X8.  On such a map the repair pass never raises a cost: the cost of
    every cell after [_remove_false_costs] is at most its cost after
    [_compute_costs], and equal to it when that was at most 10000. *)
Theorem repair_never_raises m o fuel :
  map_wf m -> costs_fit m -> costs_undefined m -> first_origin m o ->
  width m * height m <= Z.of_nat fuel ->
  exists m1 q1 m2,
    _compute_costs fuel m = Ok (m1, q1) /\ _remove_false_costs m1 = Ok m2 /\
    forall r v1 v2,
      grid_get (costs m1) r = Ok v1 -> grid_get (costs m2) r = Ok v2 ->
      v2 <= v1 /\ (v1 <= 10000 -> v2 = v1).
Proof.
  intros Hwf Hfit Hundef Ho Hfuel.
  destruct (compute_costs_justified m o fuel Hwf Hfit Hundef Ho Hfuel)
    as (m1 & q1 & Hrun & Hj1 & Hs1 & Hw1 & Hh1).
  destruct (remove_false_costs_total m1 (ju_wf m1 Hj1)) as (m2 & Hrep & _).
  exists m1, q1, m2. split; [done|]. split; [done|].
  intros r v1 v2 Hv1 Hv2. split.
  - rewrite remove_false_costs_sweep in Hrep.
    destruct (repair_sweep_lowers (row_major (width m1) (height m1)) m1 m2 Hj1) as (_ & _ & _ & _ & Hlow);
      [by intros p; apply elem_of_row_major|done|].
    by eapply Hlow.
  - intros Hle.
    rewrite (remove_false_costs_keeps m1 m2 r v1 (ju_wf m1 Hj1) Hrep Hv1 Hle) in Hv2.
    by injection Hv2.
Qed.

Lemma cell_cost_min_plus_terrain_witness :
  exists cost_min,
    _compute_cell_cost
      {| width := 3; height := 1; soils := [[BASE_STATION; ERG; PLAIN]];
         costs := [[0; COST_UNDEF; 7]] |} (mk_position 1 0) None
    = Ok (if decide (ERG = BASE_STATION) then 0
          else u32 (cost_min + _soil_cost ERG),
          {| width := 3; height := 1; soils := [[BASE_STATION; ERG; PLAIN]];
             costs := [[0; COST_UNDEF; 7]] |}, None) /\
    cost_min <= 0xFFFFFFFF /\
    (forall d v, d ∈ _direction_vectors ->
       POSITION_IS_VALID (neighbour (mk_position 1 0) d) 3 1 = true ->
       grid_get [[0; COST_UNDEF; 7]] (neighbour (mk_position 1 0) d) = Ok v ->
       cost_min <= v) /\
    (cost_min = 0xFFFFFFFF \/
     exists d, d ∈ _direction_vectors /\
       POSITION_IS_VALID (neighbour (mk_position 1 0) d) 3 1 = true /\
       grid_get [[0; COST_UNDEF; 7]] (neighbour (mk_position 1 0) d)
       = Ok cost_min) /\
    (forall oq v m' oq',
       _compute_cell_cost
         {| width := 3; height := 1; soils := [[BASE_STATION; ERG; PLAIN]];
            costs := [[0; COST_UNDEF; 7]] |} (mk_position 1 0) oq
       = Ok (v, m', oq') ->
       v = if decide (ERG = BASE_STATION) then 0
           else u32 (cost_min + _soil_cost ERG)).
Proof.
  apply (cell_cost_min_plus_terrain
           {| width := 3; height := 1; soils := [[BASE_STATION; ERG; PLAIN]];
              costs := [[0; COST_UNDEF; 7]] |} (mk_position 1 0) ERG).
  - split; simpl; [lia | lia | | ]; (split; [reflexivity | repeat constructor]).
  - split; simpl; lia.
  - reflexivity.
Defined.

Lemma no_origin_no_propagation_witness :
  (no_origin (initial_map 1 3 [[PLAIN; PLAIN; PLAIN]]) ->
   exists q,
     _compute_costs 0 (initial_map 1 3 [[PLAIN; PLAIN; PLAIN]])
     = Ok (initial_map 1 3 [[PLAIN; PLAIN; PLAIN]], q) /\
     history q = [] /\ first q = 0 /\ last q = 0) /\
  (forall m' q',
     _compute_costs 0 (initial_map 1 3 [[PLAIN; PLAIN; PLAIN]]) = Ok (m', q') ->
     history q' = [] ->
     no_origin (initial_map 1 3 [[PLAIN; PLAIN; PLAIN]]) /\
     m' = initial_map 1 3 [[PLAIN; PLAIN; PLAIN]]).
Proof.
  apply (no_origin_no_propagation 0 (initial_map 1 3 [[PLAIN; PLAIN; PLAIN]])).
  apply initial_map_wf; [lia|lia|]. split; [reflexivity|repeat constructor].
Defined.

Lemma compute_costs_stays_in_bounds_witness :
  _compute_costs 1 (initial_map 1 3 [[BASE_STATION; PLAIN; PLAIN]])
  <> Fail OutOfBounds /\
  _compute_costs 1 (initial_map 1 3 [[BASE_STATION; PLAIN; PLAIN]])
  <> Fail QueueEmpty /\
  forall m' q',
    _compute_costs 1 (initial_map 1 3 [[BASE_STATION; PLAIN; PLAIN]])
    = Ok (m', q') ->
    map_wf m' /\ soils m' = [[BASE_STATION; PLAIN; PLAIN]] /\ width m' = 3 /\
    height m' = 1 /\ first q' = last q'.
Proof.
  apply (compute_costs_stays_in_bounds
           1 (initial_map 1 3 [[BASE_STATION; PLAIN; PLAIN]])).
  apply three_plain_wf.
Defined.

Lemma every_cell_settled_witness :
  exists m' q',
    _compute_costs 3 (initial_map 1 3 [[BASE_STATION; PLAIN; PLAIN]])
    = Ok (m', q') /\
    history q' ≡ₚ row_major 3 1 /\
    first q' = 3 * 1 /\ last q' = 3 * 1 /\
    forall r, in_bounds 3 1 r ->
      exists v, grid_get (costs m') r = Ok v /\ 0 <= v <= 10000 * (3 * 1 - 1).
Proof.
  apply (every_cell_settled (initial_map 1 3 [[BASE_STATION; PLAIN; PLAIN]])
                            (mk_position 0 0) 3%nat).
  - apply three_plain_wf.
  - apply three_plain_fit.
  - apply initial_map_undefined.
  - apply three_plain_origin.
  - simpl. lia.
Defined.

Lemma costs_are_walk_costs_witness :
  exists m1 q1 m2,
    _compute_costs 3 (initial_map 1 3 [[BASE_STATION; PLAIN; PLAIN]])
    = Ok (m1, q1) /\
    _remove_false_costs m1 = Ok m2 /\
    forall r s,
      grid_get [[BASE_STATION; PLAIN; PLAIN]] r = Ok s ->
      exists v,
        grid_get (costs m2) r = Ok v /\
        route 3 1 [[BASE_STATION; PLAIN; PLAIN]] r v /\
        _soil_cost s <= v <= 10000 * (3 * 1 - 1) /\
        (v = 0 <-> s = BASE_STATION) /\
        exists b, grid_get [[BASE_STATION; PLAIN; PLAIN]] b = Ok BASE_STATION /\
                  manhattan b r <= v.
Proof.
  apply (costs_are_walk_costs (initial_map 1 3 [[BASE_STATION; PLAIN; PLAIN]])
                              (mk_position 0 0) 3%nat).
  - apply three_plain_wf.
  - apply three_plain_fit.
  - apply initial_map_undefined.
  - apply three_plain_origin.
  - simpl. lia.
Defined.

Lemma repair_never_raises_witness :
  exists m1 q1 m2,
    _compute_costs 3 (initial_map 1 3 [[BASE_STATION; PLAIN; PLAIN]])
    = Ok (m1, q1) /\
    _remove_false_costs m1 = Ok m2 /\
    forall r v1 v2,
      grid_get (costs m1) r = Ok v1 -> grid_get (costs m2) r = Ok v2 ->
      v2 <= v1 /\ (v1 <= 10000 -> v2 = v1).
Proof.
  apply (repair_never_raises (initial_map 1 3 [[BASE_STATION; PLAIN; PLAIN]])
                             (mk_position 0 0) 3%nat).
  - apply three_plain_wf.
  - apply three_plain_fit.
  - apply initial_map_undefined.
  - apply three_plain_origin.
  - simpl. lia.
Defined.

(** * The rover's moves *)

Lemma u32_add_add a b c : u32 (u32 (a + b) + c) = u32 (a + (b + c)).
Proof. unfold u32. rewrite Zplus_mod_idemp_l. f_equal. lia. Qed.

Lemma localisation_eq (l1 l2 : localisation_s) :
  x (pos l1) = x (pos l2) -> y (pos l1) = y (pos l2) -> ori l1 = ori l2 ->
  l1 = l2.
Proof.
  destruct l1 as [[x1 y1] o1], l2 as [[x2 y2] o2]. simpl. congruence.
Qed.

Lemma rotate_is_Some o m : is_Some (rotate o m) <-> is_turn m.
Proof.
  unfold is_turn. split.
  - intros [o' H]. destruct m; try discriminate; auto.
  - intros [->|[->| ->]]; destruct o; by eexists.
Qed.

Lemma rotate_changes o m o' : rotate o m = Some o' -> o' <> o.
Proof. destruct o, m; intros H; cbv in H; congruence. Qed.

(** X9.  [rotate] has a result for the three turns and for no other move.
    A quarter turn right followed by a quarter turn left, or left followed
    by right, gives the orientation back, as do two U-turns; two quarter
    turns the same way make a U-turn, which gives the opposite
    orientation; and no turn leaves the orientation as it was. *)
Theorem rotate_turns o :
  (forall m, is_Some (rotate o m) <-> is_turn m) /\
  rotate o T_RIGHT ≫= (fun o' => rotate o' T_LEFT) = Some o /\
  rotate o T_LEFT ≫= (fun o' => rotate o' T_RIGHT) = Some o /\
  rotate o U_TURN = Some (opposite o) /\
  rotate o U_TURN ≫= (fun o' => rotate o' U_TURN) = Some o /\
  rotate o T_RIGHT ≫= (fun o' => rotate o' T_RIGHT) = rotate o U_TURN /\
  rotate o T_LEFT ≫= (fun o' => rotate o' T_LEFT) = rotate o U_TURN /\
  (forall m o', rotate o m = Some o' -> o' <> o).
Proof.
  split; [intros m; apply rotate_is_Some|].
  repeat split; try by destruct o.
  apply rotate_changes.
Qed.

(** X10.  For [unsigned int] coordinates, a step forward and a step back,
    in either order, bring the rover back where it was, also where the
    step wraps around 0; two steps of 10 are a step of 20, a step of 10
    and a step of 20 in either order are a step of 30, and a step of 30
    followed by two steps back is a step of 10. *)
Theorem translate_round_trip loc :
  localisation_wf loc ->
  translate (translate loc F_10) B_10 = loc /\
  translate (translate loc B_10) F_10 = loc /\
  translate (translate loc F_10) F_10 = translate loc F_20 /\
  translate (translate loc F_20) F_10 = translate loc F_30 /\
  translate (translate loc F_10) F_20 = translate loc F_30 /\
  translate (translate (translate loc F_30) B_10) B_10 = translate loc F_10.
Proof.
  intros [Hx Hy].
  assert (forall a b c, u32 (u32 (a + b) + c) = u32 (a + (b + c))) as Hadd
    by apply u32_add_add.
  assert (forall a b c, u32 (u32 (a - b) + c) = u32 (a + (c - b))) as Hsub.
  { intros. unfold u32. rewrite Zplus_mod_idemp_l. f_equal. lia. }
  assert (forall a b c, u32 (u32 (a + b) - c) = u32 (a + (b - c))) as Hadd'.
  { intros. unfold u32. rewrite Zminus_mod_idemp_l. f_equal. lia. }
  assert (forall a b c, u32 (u32 (a - b) - c) = u32 (a - (b + c))) as Hsub'.
  { intros. unfold u32. rewrite Zminus_mod_idemp_l. f_equal. lia. }
  destruct loc as [[px py] o]. simpl in Hx, Hy.
  repeat split; destruct o; apply localisation_eq; simpl; try reflexivity;
    rewrite ?Hadd, ?Hsub, ?Hadd', ?Hsub'; simpl; rewrite ?Z.add_0_r, ?Z.sub_0_r;
    try reflexivity; by apply u32_small.
Qed.

(** X11.  [move] returns what [translate] returns, for every move: the
    orientation that [rotate] computes is stored in [new_loc.ori] and
    overwritten when [new_loc] is assigned from [translate].  So no move
    changes the orientation, and the orientation returned is never the one
    [rotate] computed.  A turn leaves the localisation as it was, although
    [rotate] gives an orientation that differs from it; a move that is no
    turn changes the position of a rover with [unsigned int] coordinates.
    [updateLocalisation] stores what [move] returns. *)
Theorem move_never_turns loc m :
  move loc m = translate loc m /\
  updateLocalisation loc m = translate loc m /\
  ori (move loc m) = ori loc /\
  (forall o', rotate (ori loc) m = Some o' -> ori (move loc m) <> o') /\
  (is_turn m ->
   move loc m = loc /\
   exists o', rotate (ori loc) m = Some o' /\ o' <> ori (move loc m)) /\
  (~ is_turn m -> localisation_wf loc -> pos (move loc m) <> pos loc).
Proof.
  assert (ori (move loc m) = ori loc) as Hori by (by destruct m).
  split; [done|]. split; [done|]. split; [done|].
  split; [|split].
  - intros o' Ho'. rewrite Hori. intros <-. by eapply rotate_changes.
  - intros Hturn. split.
    + destruct loc as [[px py] o]. by destruct Hturn as [->|[->| ->]].
    + destruct (proj2 (rotate_is_Some (ori loc) m) Hturn) as [o' Ho'].
      exists o'. split; [done|]. rewrite Hori. by eapply rotate_changes.
  - intros Hturn [Hx Hy].
    assert (forall a k, 0 <= a < 2 ^ 32 -> 0 < k < 2 ^ 32 ->
                        u32 (a + k) <> a /\ u32 (a - k) <> a) as Hstep.
    { intros a k Ha Hk. unfold u32.
      pose proof (Z.div_mod (a + k) (2 ^ 32)) as H1.
      pose proof (Z.div_mod (a - k) (2 ^ 32)) as H2.
      pose proof (Z.mod_pos_bound (a + k) (2 ^ 32)) as H3.
      pose proof (Z.mod_pos_bound (a - k) (2 ^ 32)) as H4.
      change (2 ^ 32) with 4294967296 in *. lia. }
    destruct loc as [[px py] o]. simpl in Hx, Hy.
    destruct m; try (exfalso; apply Hturn; unfold is_turn; by auto);
      destruct o; simpl; intros Heq; injection Heq; intros;
      match goal with
      | H : u32 (?a + ?k) = ?a |- _ => by destruct (Hstep a k)
      | H : u32 (?a - ?k) = ?a |- _ => by destruct (Hstep a k)
      end.
Qed.

(** X12.  For [unsigned int] coordinates, the four neighbours that
    [_compute_cell_cost] scans are [LEFT], [RIGHT], [UP] and [DOWN] of the
    position, in this order; a step forward of 10 leads to the one the
    rover faces ([UP] for [NORTH], [RIGHT] for [EAST], [DOWN] for [SOUTH],
    [LEFT] for [WEST]) and a step back to the one behind it. *)
Theorem forward_step_is_scanned_neighbour loc :
  localisation_wf loc ->
  facing (ori loc) ∈ _direction_vectors /\
  pos (translate loc F_10) = neighbour (pos loc) (facing (ori loc)) /\
  pos (translate loc B_10) = neighbour (pos loc) (facing (opposite (ori loc))) /\
  neighbour (pos loc) <$> _direction_vectors
  = [LEFT (pos loc); RIGHT (pos loc); UP (pos loc); DOWN (pos loc)] /\
  pos (translate loc F_10)
  = match ori loc with
    | NORTH => UP (pos loc)
    | EAST => RIGHT (pos loc)
    | SOUTH => DOWN (pos loc)
    | WEST => LEFT (pos loc)
    end.
Proof.
  intros [Hx Hy].
  destruct loc as [[px py] o]. unfold neighbour, LEFT, RIGHT, UP, DOWN.
  simpl in *.
  assert (u32 (px + 0) = px) as H0 by (rewrite Z.add_0_r; by apply u32_small).
  assert (u32 (py + 0) = py) as H1 by (rewrite Z.add_0_r; by apply u32_small).
  split.
  { destruct o; simpl; unfold _direction_vectors;
      repeat (apply elem_of_cons; (by left) || right). }
  repeat split; try destruct o; simpl; rewrite ?H0, ?H1; try reflexivity.
Qed.

(** X13.  On a map of at most [2^32 - 3] columns and rows and for a
    rover on the map, [POSITION_IS_VALID] accepts the position that
    [translate] computes exactly when the move, made on the unbounded
    plane, stays on the map, and then [translate] computes that cell: a
    move that leaves the map through row 0 or column 0 wraps to a
    coordinate that the test rejects. *)
Theorem leaving_the_map_is_detected loc m w h :
  0 <= w <= 2 ^ 32 - 3 -> 0 <= h <= 2 ^ 32 - 3 ->
  in_bounds w h (pos loc) ->
  (POSITION_IS_VALID (pos (translate loc m)) w h = true
   <-> in_bounds w h (target loc m)) /\
  (in_bounds w h (target loc m) -> pos (translate loc m) = target loc m).
Proof.
  intros Hw Hh [Hx Hy]. destruct loc as [[px py] o]. simpl in Hx, Hy.
  unfold POSITION_IS_VALID, in_bounds, target.
  rewrite andb_true_iff, !Z.ltb_lt.
  split.
  - destruct m, o; simpl; unfold u32; split; intros ?;
      Z.div_mod_to_equations; lia.
  - intros [Hx' Hy']. apply position_eq;
      destruct m, o; simpl in *; try lia; apply u32_small; lia.
Qed.

Lemma leaving_the_map_is_detected_witness :
  (POSITION_IS_VALID (pos (translate (LOCALISATION_INIT 1 0 WEST) F_20)) 3 2 = true
   <-> in_bounds 3 2 (target (LOCALISATION_INIT 1 0 WEST) F_20)) /\
  (in_bounds 3 2 (target (LOCALISATION_INIT 1 0 WEST) F_20) ->
   pos (translate (LOCALISATION_INIT 1 0 WEST) F_20)
   = target (LOCALISATION_INIT 1 0 WEST) F_20).
Proof.
  apply (leaving_the_map_is_detected (LOCALISATION_INIT 1 0 WEST) F_20 3 2).
  - lia.
  - lia.
  - split; simpl; lia.
Defined.

Lemma translate_round_trip_witness :
  translate (translate (LOCALISATION_INIT 0 0 NORTH) F_10) B_10
  = LOCALISATION_INIT 0 0 NORTH /\
  translate (translate (LOCALISATION_INIT 0 0 NORTH) B_10) F_10
  = LOCALISATION_INIT 0 0 NORTH /\
  translate (translate (LOCALISATION_INIT 0 0 NORTH) F_10) F_10
  = translate (LOCALISATION_INIT 0 0 NORTH) F_20 /\
  translate (translate (LOCALISATION_INIT 0 0 NORTH) F_20) F_10
  = translate (LOCALISATION_INIT 0 0 NORTH) F_30 /\
  translate (translate (LOCALISATION_INIT 0 0 NORTH) F_10) F_20
  = translate (LOCALISATION_INIT 0 0 NORTH) F_30 /\
  translate (translate (translate (LOCALISATION_INIT 0 0 NORTH) F_30) B_10) B_10
  = translate (LOCALISATION_INIT 0 0 NORTH) F_10.
Proof.
  apply (translate_round_trip (LOCALISATION_INIT 0 0 NORTH)).
  split; simpl; lia.
Defined.

Lemma forward_step_is_scanned_neighbour_witness :
  facing (ori (LOCALISATION_INIT 2 5 EAST)) ∈ _direction_vectors /\
  pos (translate (LOCALISATION_INIT 2 5 EAST) F_10)
  = neighbour (pos (LOCALISATION_INIT 2 5 EAST))
              (facing (ori (LOCALISATION_INIT 2 5 EAST))) /\
  pos (translate (LOCALISATION_INIT 2 5 EAST) B_10)
  = neighbour (pos (LOCALISATION_INIT 2 5 EAST))
              (facing (opposite (ori (LOCALISATION_INIT 2 5 EAST)))) /\
  neighbour (pos (LOCALISATION_INIT 2 5 EAST)) <$> _direction_vectors
  = [LEFT (pos (LOCALISATION_INIT 2 5 EAST));
     RIGHT (pos (LOCALISATION_INIT 2 5 EAST));
     UP (pos (LOCALISATION_INIT 2 5 EAST));
     DOWN (pos (LOCALISATION_INIT 2 5 EAST))] /\
  pos (translate (LOCALISATION_INIT 2 5 EAST) F_10)
  = match ori (LOCALISATION_INIT 2 5 EAST) with
    | NORTH => UP (pos (LOCALISATION_INIT 2 5 EAST))
    | EAST => RIGHT (pos (LOCALISATION_INIT 2 5 EAST))
    | SOUTH => DOWN (pos (LOCALISATION_INIT 2 5 EAST))
    | WEST => LEFT (pos (LOCALISATION_INIT 2 5 EAST))
    end.
Proof.
  apply (forward_step_is_scanned_neighbour (LOCALISATION_INIT 2 5 EAST)).
  split; simpl; lia.
Defined.

(** * The loader and the display *)

(** ** Reading the map file *)

Lemma grid_set_middle {A : Type} (pre post : list (list A)) (done todo : list A)
  (o v : A) :
  grid_set (pre ++ (done ++ o :: todo) :: post)
           (mk_position (Z.of_nat (length done)) (Z.of_nat (length pre))) v
  = Ok (pre ++ (done ++ v :: todo) :: post).
Proof.
  apply grid_set_Ok. simpl. split; [lia|]. split; [lia|].
  exists (done ++ o :: todo). rewrite !Nat2Z.id.
  split; [by rewrite list_lookup_middle|]. split.
  { rewrite length_app. simpl. lia. }
  replace (length pre) with (length pre + 0)%nat at 1 by lia.
  rewrite insert_app_r. simpl. do 2 f_equal.
  replace (length done) with (length done + 0)%nat at 1 by lia.
  by rewrite insert_app_r.
Qed.

Lemma seqZ_next (a n : nat) :
  seqZ (Z.of_nat a) (Z.of_nat (S n)) = Z.of_nat a :: seqZ (Z.of_nat (S a)) (Z.of_nat n).
Proof.
  rewrite seqZ_cons by lia. do 2 f_equal; lia.
Qed.

Lemma read_row_ok vs : forall done old todo pre post file,
  length old = length vs ->
  read_row (pre ++ (done ++ old ++ todo) :: post) (Z.of_nat (length pre))
           (seqZ (Z.of_nat (length done)) (Z.of_nat (length vs)))
           ((Number <$> vs) ++ file)
  = Ok (inr (pre ++ (done ++ (u32 <$> vs) ++ todo) :: post, file)).
Proof.
  induction vs as [|v vs IH]; intros done old todo pre post file Hlen.
  { destruct old; [done|discriminate]. }
  destruct old as [|o old]; [discriminate|]. injection Hlen as Hlen.
  rewrite length_cons, seqZ_next. cbn [read_row fmap list_fmap app fscanf_u].
  change ((done ++ (o :: old) ++ todo)) with (done ++ o :: (old ++ todo)).
  rewrite grid_set_middle. cbn [bind].
  replace (S (length done)) with (length (done ++ [u32 v]))
    by (rewrite length_app; simpl; lia).
  replace (done ++ u32 v :: old ++ todo) with ((done ++ [u32 v]) ++ old ++ todo)
    by by rewrite <- app_assoc.
  rewrite (IH (done ++ [u32 v]) old todo pre post file Hlen).
  by rewrite <- app_assoc.
Qed.


Lemma read_rows_ok w olds : forall pre post vs file,
  Forall (fun row => length row = w) olds ->
  length vs = (length olds * w)%nat ->
  read_rows (pre ++ olds ++ post) (Z.of_nat w)
            (seqZ (Z.of_nat (length pre)) (Z.of_nat (length olds)))
            ((Number <$> vs) ++ file)
  = Ok (inr (pre ++ rows_of w (length olds) (u32 <$> vs) ++ post, file)).
Proof.
  induction olds as [|row olds IH]; intros pre post vs file Hrows Hlen.
  { destruct vs; [reflexivity|discriminate]. }
  apply Forall_cons in Hrows as [Hrow Hrows].
  rewrite length_cons in *. rewrite seqZ_next. cbn [read_rows rows_of].
  rewrite <- (take_drop w vs) at 1. rewrite fmap_app, <- app_assoc.
  rewrite <- fmap_take, <- fmap_drop.
  assert (length (take w vs) = w) as Hw by (rewrite length_take; lia).
  pose proof (read_row_ok (take w vs) [] row [] pre (olds ++ post)
                ((Number <$> drop w vs) ++ file)) as Hread.
  rewrite Hw in Hread. simpl in Hread. change (Z.of_nat 0) with 0 in Hread.
  rewrite !app_nil_r in Hread.
  change ((row :: olds) ++ post) with (row :: olds ++ post).
  rewrite Hread by lia. cbn [bind].
  replace (S (length pre)) with (length (pre ++ [u32 <$> take w vs]))
    by (rewrite length_app; simpl; lia).
  replace (pre ++ (u32 <$> take w vs) :: olds ++ post)
    with ((pre ++ [u32 <$> take w vs]) ++ olds ++ post)
    by by rewrite <- app_assoc.
  rewrite IH; [by rewrite <- app_assoc|done|].
  rewrite length_drop. lia.
Qed.


Lemma memset_row (row : list Z) (w : nat) :
  length row = w ->
  memset row 0xFF (Z.of_nat w * 4) = Ok (replicate w COST_UNDEF).
Proof.
  intros Hlen. unfold memset. rewrite Z.div_mul by lia.
  destruct (Z.leb_spec (Z.of_nat w) (Z.of_nat (length row))); [|lia].
  rewrite Nat2Z.id, drop_ge by lia. by rewrite app_nil_r.
Qed.

Lemma memset_rows w olds : forall pre post,
  Forall (fun row => length row = w) olds ->
  for_each
    (fun costs i =>
       try row := array_get costs i in
       try row' := memset row 0xFF (Z.of_nat w * 4) in
       array_set costs i row')
    (seqZ (Z.of_nat (length pre)) (Z.of_nat (length olds)))
    (pre ++ olds ++ post)
  = Ok (pre ++ replicate (length olds) (replicate w COST_UNDEF) ++ post).
Proof.
  induction olds as [|row olds IH]; intros pre post Hrows.
  { reflexivity. }
  apply Forall_cons in Hrows as [Hrow Hrows].
  rewrite length_cons, seqZ_next. cbn [for_each replicate].
  change ((row :: olds) ++ post) with (row :: olds ++ post).
  assert (array_get (pre ++ row :: olds ++ post) (Z.of_nat (length pre)) = Ok row)
    as ->.
  { apply array_get_Ok. split; [lia|]. by rewrite Nat2Z.id, list_lookup_middle. }
  cbn [bind]. rewrite (memset_row row w Hrow). cbn [bind].
  assert (array_set (pre ++ row :: olds ++ post) (Z.of_nat (length pre))
                    (replicate w COST_UNDEF)
          = Ok (pre ++ replicate w COST_UNDEF :: olds ++ post)) as ->.
  { apply array_set_Ok. split.
    - rewrite length_app. simpl. lia.
    - rewrite Nat2Z.id.
      replace (length pre) with (length pre + 0)%nat at 1 by lia.
      by rewrite insert_app_r. }
  cbn [bind].
  replace (S (length pre)) with (length (pre ++ [replicate w COST_UNDEF]))
    by (rewrite length_app; simpl; lia).
  replace (pre ++ replicate w COST_UNDEF :: olds ++ post)
    with ((pre ++ [replicate w COST_UNDEF]) ++ olds ++ post)
    by by rewrite <- app_assoc.
  rewrite IH by done. by rewrite <- app_assoc.
Qed.

Lemma map_fill_ok (map : file_map) vs rest :
  0 <= fm_height map -> 0 <= fm_width map ->
  Z.of_nat (length vs) = fm_height map * fm_width map ->
  _map_fill_from_file map ((Number <$> vs) ++ rest) true true
  = Ok (inr {| fm_width := fm_width map; fm_height := fm_height map;
               fm_soils := Some (rows_of (Z.to_nat (fm_width map))
                                         (Z.to_nat (fm_height map))
                                         (u32 <$> vs));
               fm_costs := Some (replicate (Z.to_nat (fm_height map))
                                   (replicate (Z.to_nat (fm_width map))
                                              COST_UNDEF)) |}).
Proof.
  intros Hh Hw Hlen. unfold _map_fill_from_file, _2d_array_allocation.
  set (h := Z.to_nat (fm_height map)). set (w := Z.to_nat (fm_width map)).
  replace (fm_height map) with (Z.of_nat h) by lia.
  replace (fm_width map) with (Z.of_nat w) by lia.
  pose proof (read_rows_ok w (replicate h (replicate w 0)) [] [] vs rest) as Hread.
  rewrite length_replicate in Hread. simpl in Hread. change (Z.of_nat 0) with 0 in Hread.
  rewrite !app_nil_r in Hread.
  rewrite Hread.
  2:{ apply Forall_replicate. by rewrite length_replicate. }
  2:{ lia. }
  cbn [bind].
  pose proof (memset_rows w (replicate h (replicate w 0)) [] []) as Hset.
  rewrite length_replicate in Hset. simpl in Hset. change (Z.of_nat 0) with 0 in Hset.
  rewrite !app_nil_r in Hset.
  rewrite Hset.
  2:{ apply Forall_replicate. by rewrite length_replicate. }
  done.
Qed.




Lemma rows_of_lookup {A : Type} (w k : nat) : forall (vs : list A) (i : nat),
  (i < k)%nat -> rows_of w k vs !! i = Some (take w (drop (i * w) vs)).
Proof.
  induction k as [|k IH]; intros vs i Hi; [lia|].
  destruct i as [|i]; simpl; [done|].
  rewrite IH by lia. by rewrite drop_drop.
Qed.

Lemma rows_of_dims {A : Type} (w k : nat) : forall (vs : list A),
  length vs = (k * w)%nat ->
  length (rows_of w k vs) = k /\
  Forall (fun row => length row = w) (rows_of w k vs).
Proof.
  induction k as [|k IH]; intros vs Hlen; [done|].
  simpl. destruct (IH (drop w vs)) as [Hl Hrows].
  { rewrite length_drop. lia. }
  split; [by rewrite Hl|]. constructor; [|done].
  rewrite length_take. lia.
Qed.

Lemma rows_of_fmap {A B : Type} (f : A -> B) (w k : nat) : forall (vs : list A),
  rows_of w k (f <$> vs) = fmap (M := list) f <$> rows_of w k vs.
Proof.
  induction k as [|k IH]; intros vs; [done|].
  simpl. by rewrite fmap_take, <- fmap_drop, IH.
Qed.

Lemma rows_of_empty {A : Type} (k : nat) :
  rows_of 0 k (@nil A) = replicate k [].
Proof. induction k as [|k IH]; [done|]. simpl. by rewrite IH. Qed.

Lemma fmap_u32_small (vs : list Z) :
  Forall (fun v => 0 <= v < 2 ^ 32) vs -> u32 <$> vs = vs.
Proof.
  induction 1 as [|v vs Hv Hvs IH]; [done|].
  rewrite fmap_cons, IH. by rewrite u32_small.
Qed.

Lemma read_dimensions (h w : Z) (file : FILE)
  (soils_available costs_available : bool) :
  0 <= h < 2 ^ 32 -> 0 <= w < 2 ^ 32 ->
  map_from_file_read (Some (Number h :: Number w :: file))
                     soils_available costs_available
  = try r := _map_fill_from_file
               {| fm_width := w; fm_height := h;
                  fm_soils := None; fm_costs := None |}
               file soils_available costs_available in
    match r with
    | inl d => Ok (inl ([d; Failed_to_load_map_data],
                        {| fm_width := w; fm_height := h;
                           fm_soils := None; fm_costs := None |}))
    | inr map' => Ok (inr map')
    end.
Proof.
  intros Hh Hw. unfold map_from_file_read.
  cbn [fscanf_u fscanf_result stored stream_after
       fm_width fm_height fm_soils fm_costs].
  change (1 =? 0) with false. cbv iota.
  by rewrite (u32_small h), (u32_small w).
Qed.

(** X14.  From a stream that holds the height, the width and at least
    [height * width] numbers, all of them [unsigned int]s (below [2^32]),
    the loader returns a map of these dimensions: value number
    [cy * width + cx] after the dimensions is stored at [soils[cy][cx]],
    whatever it is (no value is checked against the enumerators of
    [soil_e]), what follows in the stream is not read, and every cost is
    [COST_UNDEF], the word of four bytes [0xFF]. *)
Theorem map_file_loaded h w vs rest :
  0 <= h < 2 ^ 32 -> 0 <= w < 2 ^ 32 ->
  Forall (fun v => 0 <= v < 2 ^ 32) vs ->
  Z.of_nat (length vs) = h * w ->
  map_from_file_read (Some (Number h :: Number w :: (Number <$> vs) ++ rest))
                     true true
  = Ok (inr {| fm_width := w; fm_height := h;
               fm_soils := Some (rows_of (Z.to_nat w) (Z.to_nat h) vs);
               fm_costs := Some (replicate (Z.to_nat h)
                                   (replicate (Z.to_nat w) COST_UNDEF)) |}) /\
  (forall cx cy, 0 <= cx < w -> 0 <= cy < h ->
     grid_get (rows_of (Z.to_nat w) (Z.to_nat h) vs) (mk_position cx cy)
     = array_get vs (cy * w + cx)) /\
  (forall cx cy, 0 <= cx < w -> 0 <= cy < h ->
     grid_get (replicate (Z.to_nat h) (replicate (Z.to_nat w) COST_UNDEF))
              (mk_position cx cy) = Ok COST_UNDEF).
Proof.
  intros Hh Hw Hvs Hlen. split; [|split].
  - rewrite read_dimensions by done.
    rewrite (map_fill_ok {| fm_width := w; fm_height := h;
                            fm_soils := None; fm_costs := None |} vs rest);
      [|simpl; lia..|done].
    cbn [bind fm_width fm_height]. by rewrite fmap_u32_small.
  - intros cx cy Hx Hy.
    unfold grid_get, array_get. cbn [x y].
    destruct (Z.ltb_spec cy 0); [lia|].
    rewrite rows_of_lookup by lia. cbn [bind].
    destruct (Z.ltb_spec cx 0); [lia|].
    destruct (Z.ltb_spec (cy * w + cx) 0); [nia|].
    rewrite lookup_take_lt by lia. rewrite lookup_drop.
    replace (Z.to_nat cy * Z.to_nat w + Z.to_nat cx)%nat
      with (Z.to_nat (cy * w + cx)) by nia.
    done.
  - intros cx cy Hx Hy. apply grid_get_Ok. cbn [x y].
    split; [lia|]. split; [lia|].
    exists (replicate (Z.to_nat w) COST_UNDEF).
    split; apply lookup_replicate; (split; [done|lia]).
Qed.

Lemma map_file_loaded_witness :
  map_from_file_read
    (Some (Number 1 :: Number 3 :: (Number <$> [0; 7; 4]) ++ [Junk])) true true
  = Ok (inr {| fm_width := 3; fm_height := 1;
               fm_soils := Some (rows_of (Z.to_nat 3) (Z.to_nat 1) [0; 7; 4]);
               fm_costs := Some (replicate (Z.to_nat 1)
                                   (replicate (Z.to_nat 3) COST_UNDEF)) |}) /\
  (forall cx cy, 0 <= cx < 3 -> 0 <= cy < 1 ->
     grid_get (rows_of (Z.to_nat 3) (Z.to_nat 1) [0; 7; 4]) (mk_position cx cy)
     = array_get [0; 7; 4] (cy * 3 + cx)) /\
  (forall cx cy, 0 <= cx < 3 -> 0 <= cy < 1 ->
     grid_get (replicate (Z.to_nat 1) (replicate (Z.to_nat 3) COST_UNDEF))
              (mk_position cx cy) = Ok COST_UNDEF).
Proof.
  apply (map_file_loaded 1 3 [0; 7; 4] [Junk]);
    [lia|lia|repeat constructor; lia|reflexivity].
Defined.

Lemma soil_of_soil_value s : soil_of_value (soil_value s) = Some s.
Proof. by destruct s. Qed.

(** X15.  Writing a terrain grid as a map file (height, width, the values
    of the soils row by row) and loading it gives the map on which the
    two passes start: [initial_map] of the grid, a well-formed map with
    undefined costs. *)
Theorem written_map_is_loaded h w (ts : list soil_e) rest :
  0 <= h < 2 ^ 32 -> 0 <= w < 2 ^ 32 -> Z.of_nat (length ts) = h * w ->
  exists fm,
    map_from_file_read
      (Some (Number h :: Number w :: (Number <$> (soil_value <$> ts)) ++ rest))
      true true = Ok (inr fm) /\
    typed_map fm
    = Some (initial_map h w (rows_of (Z.to_nat w) (Z.to_nat h) ts)) /\
    map_wf (initial_map h w (rows_of (Z.to_nat w) (Z.to_nat h) ts)) /\
    costs_undefined (initial_map h w (rows_of (Z.to_nat w) (Z.to_nat h) ts)).
Proof.
  intros Hh Hw Hlen. eexists. split.
  { rewrite read_dimensions by done.
    rewrite (map_fill_ok {| fm_width := w; fm_height := h;
                            fm_soils := None; fm_costs := None |}
                         (soil_value <$> ts) rest);
      [|simpl; lia..|by rewrite length_fmap].
    cbn [bind fm_width fm_height]. rewrite fmap_u32_small; [done|].
    apply Forall_fmap, Forall_forall. intros s _. simpl. by destruct s. }
  split; [|split].
  - unfold typed_map. cbn [fm_soils fm_costs fm_width fm_height mbind option_bind].
    rewrite rows_of_fmap.
    rewrite (mapM_fmap_Some (mapM soil_of_value) (fmap (M := list) soil_value)).
    + done.
    + intros l. apply mapM_fmap_Some. apply soil_of_soil_value.
  - apply initial_map_wf; [done|done|].
    destruct (rows_of_dims (Z.to_nat w) (Z.to_nat h) ts) as [Hl Hrows]; [nia|].
    by split.
  - apply initial_map_undefined.
Qed.

Lemma written_map_is_loaded_witness :
  exists fm,
    map_from_file_read
      (Some (Number 1 :: Number 3
             :: (Number <$> (soil_value <$> [BASE_STATION; PLAIN; ERG])) ++ []))
      true true = Ok (inr fm) /\
    typed_map fm
    = Some (initial_map 1 3 (rows_of (Z.to_nat 3) (Z.to_nat 1)
                                     [BASE_STATION; PLAIN; ERG])) /\
    map_wf (initial_map 1 3 (rows_of (Z.to_nat 3) (Z.to_nat 1)
                                     [BASE_STATION; PLAIN; ERG])) /\
    costs_undefined (initial_map 1 3 (rows_of (Z.to_nat 3) (Z.to_nat 1)
                                              [BASE_STATION; PLAIN; ERG])).
Proof.
  apply (written_map_is_loaded 1 3 [BASE_STATION; PLAIN; ERG] []);
    [lia|lia|reflexivity].
Defined.




Lemma remove_false_costs_no_column m :
  width m = 0 -> _remove_false_costs m = Ok m.
Proof.
  intros Hw. unfold _remove_false_costs. rewrite Hw.
  induction (seqZ 0 (height m)) as [|cy l IH]; [done|]. exact IH.
Qed.

(** X17.  The test [!fscanf(...)] on the dimensions lets the end of the
    stream pass: a stream that holds only the height loads, with no
    message, as a map of that height and width 0, an empty stream as a
    map without cell (the heap granting the requests for no byte), and
    both passes leave such a map as it is.  Text that is no number in
    place of a dimension is rejected with "Invalid map dimensions". *)
Theorem missing_width_accepted h fuel :
  0 <= h < 2 ^ 32 ->
  map_from_file_read (Some [Number h]) true true
  = Ok (inr {| fm_width := 0; fm_height := h;
               fm_soils := Some (replicate (Z.to_nat h) []);
               fm_costs := Some (replicate (Z.to_nat h) []) |}) /\
  map_from_file_read (Some []) true true
  = Ok (inr {| fm_width := 0; fm_height := 0;
               fm_soils := Some []; fm_costs := Some [] |}) /\
  typed_map {| fm_width := 0; fm_height := h;
               fm_soils := Some (replicate (Z.to_nat h) []);
               fm_costs := Some (replicate (Z.to_nat h) []) |}
  = Some (initial_map h 0 (replicate (Z.to_nat h) [])) /\
  map_from_file fuel h 0 (replicate (Z.to_nat h) [])
  = Ok (initial_map h 0 (replicate (Z.to_nat h) [])) /\
  (forall file,
     map_from_file_read (Some (Number h :: Junk :: file)) true true
     = Ok (inl ([Invalid_map_dimensions],
                {| fm_width := 0; fm_height := h;
                   fm_soils := None; fm_costs := None |})) /\
     map_from_file_read (Some (Junk :: file)) true true
     = Ok (inl ([Invalid_map_dimensions],
                {| fm_width := 0; fm_height := 0;
                   fm_soils := None; fm_costs := None |}))).
Proof.
  intros Hh. split; [|split; [|split; [|split]]].
  5:{ intros file. unfold map_from_file_read.
      cbn [fscanf_u fscanf_result stored stream_after
           fm_width fm_height fm_soils fm_costs].
      by rewrite (u32_small h). }
  - unfold map_from_file_read. cbn [fscanf_u fscanf_result stored stream_after
                                     fm_width fm_height fm_soils fm_costs].
    change (1 =? 0) with false. change (-1 =? 0) with false. cbv iota.
    rewrite (u32_small h) by done.
    pose proof (map_fill_ok {| fm_width := 0; fm_height := h;
                               fm_soils := None; fm_costs := None |} [] [])
      as Hfill.
    change ((Number <$> []) ++ []) with (@nil token) in Hfill.
    rewrite Hfill by (simpl; lia).
    cbn [bind fm_width fm_height]. change (Z.to_nat 0) with 0%nat.
    change (u32 <$> []) with (@nil Z). by rewrite rows_of_empty.
  - reflexivity.
  - unfold typed_map. cbn [fm_soils fm_costs fm_width fm_height mbind option_bind].
    assert (mapM (mapM soil_of_value) (replicate (Z.to_nat h) [])
            = Some (replicate (Z.to_nat h) [])) as ->; [|done].
    induction (Z.to_nat h) as [|k IH]; [done|].
    cbn [replicate mapM]. rewrite IH. done.
  - assert (map_wf (initial_map h 0 (replicate (Z.to_nat h) []))) as Hwf.
    { apply initial_map_wf; [lia|lia|]. split.
      - by rewrite length_replicate.
      - by apply Forall_replicate. }
    unfold map_from_file.
    rewrite compute_costs_no_origin; [|done|].
    + cbn [bind]. by apply remove_false_costs_no_column.
    + intros r [Hx _]. simpl in Hx. lia.
Qed.

Lemma missing_width_accepted_witness :
  map_from_file_read (Some [Number 2]) true true
  = Ok (inr {| fm_width := 0; fm_height := 2;
               fm_soils := Some (replicate (Z.to_nat 2) []);
               fm_costs := Some (replicate (Z.to_nat 2) []) |}) /\
  map_from_file_read (Some []) true true
  = Ok (inr {| fm_width := 0; fm_height := 0;
               fm_soils := Some []; fm_costs := Some [] |}) /\
  typed_map {| fm_width := 0; fm_height := 2;
               fm_soils := Some (replicate (Z.to_nat 2) []);
               fm_costs := Some (replicate (Z.to_nat 2) []) |}
  = Some (initial_map 2 0 (replicate (Z.to_nat 2) [])) /\
  map_from_file 0 2 0 (replicate (Z.to_nat 2) [])
  = Ok (initial_map 2 0 (replicate (Z.to_nat 2) [])) /\
  (forall file,
     map_from_file_read (Some (Number 2 :: Junk :: file)) true true
     = Ok (inl ([Invalid_map_dimensions],
                {| fm_width := 0; fm_height := 2;
                   fm_soils := None; fm_costs := None |})) /\
     map_from_file_read (Some (Junk :: file)) true true
     = Ok (inl ([Invalid_map_dimensions],
                {| fm_width := 0; fm_height := 0;
                   fm_soils := None; fm_costs := None |}))).
Proof.
  apply (missing_width_accepted 2 0%nat). lia.
Defined.

(** ** The display *)

Lemma display_glyph (v cy : Z) :
  0 <= v ->
  (if 4 <? v then Ok [63; 63; 63]
   else if (v =? 0) && (cy mod 3 =? 1) then Ok [32; 66; 32]
   else array_get display v)
  = Ok (glyph (cy mod 3 =? 1) v).
Proof.
  intros Hv. unfold glyph. destruct (Z.ltb_spec 4 v); [done|].
  destruct ((v =? 0) && (cy mod 3 =? 1)); [done|].
  assert (v = 0 \/ v = 1 \/ v = 2 \/ v = 3 \/ v = 4) as Hcases by lia.
  by destruct Hcases as [->|[->|[->|[->| ->]]]].
Qed.

Lemma display_row_loop (soils : list (list Z)) (cy : Z) (row : list Z) :
  0 <= cy -> soils !! Z.to_nat (cy / 3) = Some row ->
  Forall (fun v => 0 <= v) row ->
  forall todo done out,
    row = done ++ todo ->
    for_each
      (fun out cx => try bytes := display_cell soils cy cx in Ok (out ++ bytes))
      (seqZ (Z.of_nat (length done)) (Z.of_nat (length todo))) out
    = Ok (out ++ (todo ≫= glyph (cy mod 3 =? 1))).
Proof.
  intros Hcy Hrow Hpos.
  induction todo as [|v todo IH]; intros done out Hsplit.
  { simpl. by rewrite app_nil_r. }
  rewrite length_cons, seqZ_next. cbn [for_each].
  assert (display_cell soils cy (Z.of_nat (length done))
          = Ok (glyph (cy mod 3 =? 1) v)) as ->.
  { unfold display_cell.
    assert (grid_get soils (mk_position (Z.of_nat (length done)) (cy / 3)) = Ok v)
      as ->.
    { apply grid_get_Ok. cbn [x y]. split; [lia|].
      split; [by apply Z.div_pos|]. exists row. split; [done|].
      rewrite Hsplit, Nat2Z.id. by rewrite list_lookup_middle. }
    cbn [bind]. apply display_glyph.
    rewrite Forall_forall in Hpos. apply Hpos. rewrite Hsplit.
    apply elem_of_app. right. by left. }
  cbn [bind].
  replace (S (length done)) with (length (done ++ [v]))
    by (rewrite length_app; simpl; lia).
  rewrite (IH (done ++ [v])); [|by rewrite <- app_assoc].
  rewrite bind_cons. by rewrite app_assoc.
Qed.

Lemma display_rows_loop (soils : list (list Z)) (w : nat) :
  Forall (fun row => length row = w /\ Forall (fun v => 0 <= v) row) soils ->
  forall todo pre out,
    soils = pre ++ todo ->
    for_each
      (fun out cy =>
         try out' :=
           for_each
             (fun out cx =>
                try bytes := display_cell soils cy cx in Ok (out ++ bytes))
             (seqZ 0 (Z.of_nat w)) out in
         Ok (out' ++ [10]))
      (seqZ (Z.of_nat (3 * length pre)) (Z.of_nat (3 * length todo))) out
    = Ok (out ++ render todo).
Proof.
  intros Hsoils.
  induction todo as [|row todo IH]; intros pre out Hsplit.
  { simpl. by rewrite app_nil_r. }
  assert (soils !! length pre = Some row) as Hrow.
  { by rewrite Hsplit, list_lookup_middle. }
  assert (length row = w /\ Forall (fun v => 0 <= v) row) as [Hlen Hpos].
  { rewrite Forall_forall in Hsoils. apply Hsoils.
    by eapply list_elem_of_lookup_2. }
  assert (forall j out', (j < 3)%nat ->
            for_each
              (fun out cx =>
                 try bytes := display_cell soils (Z.of_nat (3 * length pre + j)) cx in
                 Ok (out ++ bytes))
              (seqZ 0 (Z.of_nat w)) out'
            = Ok (out' ++ (row ≫= glyph (Z.of_nat j =? 1)))) as Hline.
  { intros j out' Hj.
    pose proof (display_row_loop soils (Z.of_nat (3 * length pre + j)) row) as Hloop.
    assert (Z.of_nat (3 * length pre + j) / 3 = Z.of_nat (length pre)) as Hdiv.
    { symmetry. apply (Z.div_unique _ _ _ (Z.of_nat j)); lia. }
    assert (Z.of_nat (3 * length pre + j) mod 3 = Z.of_nat j) as Hmod.
    { symmetry. apply (Z.mod_unique _ _ (Z.of_nat (length pre))); lia. }
    rewrite Hdiv, Hmod, Nat2Z.id in Hloop.
    specialize (Hloop ltac:(lia) Hrow Hpos row [] out' eq_refl).
    rewrite Hlen in Hloop. exact Hloop. }
  replace (3 * length (row :: todo))%nat with (S (S (S (3 * length todo))))
    by (rewrite length_cons; lia).
  rewrite !seqZ_next. cbn [for_each].
  replace (Z.of_nat (3 * length pre)) with (Z.of_nat (3 * length pre + 0)) by lia.
  rewrite (Hline 0%nat) by lia. cbn [bind].
  replace (Z.of_nat (S (3 * length pre))) with (Z.of_nat (3 * length pre + 1))
    by lia.
  rewrite (Hline 1%nat) by lia. cbn [bind].
  replace (Z.of_nat (S (S (3 * length pre))))
    with (Z.of_nat (3 * length pre + 2)) by lia.
  rewrite (Hline 2%nat) by lia. cbn [bind].
  replace (S (S (S (3 * length pre)))) with (3 * length (pre ++ [row]))%nat
    by (rewrite length_app; simpl; lia).
  rewrite (IH (pre ++ [row])); [|by rewrite <- app_assoc].
  f_equal. unfold render at 2. rewrite bind_cons. fold (render todo).
  unfold display_line. simpl. rewrite <- !app_assoc. reflexivity.
Qed.

Lemma length_glyph middle v : 0 <= v -> length (glyph middle v) = 3%nat.
Proof.
  intros Hv. unfold glyph. destruct (Z.ltb_spec 4 v); [done|].
  destruct ((v =? 0) && middle); [done|].
  assert (v = 0 \/ v = 1 \/ v = 2 \/ v = 3 \/ v = 4) as Hcases by lia.
  by destruct Hcases as [->|[->|[->|[->| ->]]]].
Qed.

Lemma length_display_line middle row :
  Forall (fun v => 0 <= v) row ->
  length (display_line middle row) = (3 * length row + 1)%nat.
Proof.
  intros Hpos. unfold display_line. rewrite length_app. simpl.
  induction Hpos as [|v row Hv Hrow IH]; [done|].
  rewrite bind_cons, length_app, length_glyph by done. simpl in *. lia.
Qed.

Lemma letters_B_line middle row :
  Forall (fun v => 0 <= v) row ->
  length (letters_B (display_line middle row))
  = if middle then length (base_stations row) else 0%nat.
Proof.
  intros Hpos. unfold display_line, letters_B, base_stations.
  rewrite filter_app, length_app. simpl.
  change (length (filter (fun b => b = 66) [10])) with 0%nat.
  rewrite Nat.add_0_r.
  induction Hpos as [|v row Hv Hrow IH]; [by destruct middle|].
  rewrite bind_cons, filter_app, length_app, IH. clear IH.
  rewrite filter_cons.
  assert (length (filter (fun b => b = 66) (glyph middle v))
          = if middle && (v =? 0) then 1%nat else 0%nat) as ->.
  { unfold glyph. destruct (Z.ltb_spec 4 v).
    { destruct (Z.eqb_spec v 0); [lia|]. by rewrite andb_false_r. }
    destruct (Z.eqb_spec v 0) as [->|Hne]; destruct middle; simpl; try done.
    - assert (v = 1 \/ v = 2 \/ v = 3 \/ v = 4) as Hcases by lia.
      by destruct Hcases as [->|[->|[->| ->]]].
    - assert (v = 1 \/ v = 2 \/ v = 3 \/ v = 4) as Hcases by lia.
      by destruct Hcases as [->|[->|[->| ->]]]. }
  destruct (decide (v = 0)) as [->|Hne]; destruct middle; simpl; try done.
  by destruct (Z.eqb_spec v 0).
Qed.

Lemma map_display_render (fm : file_map) (soils : list (list Z)) :
  fm_soils fm = Some soils ->
  0 <= fm_width fm -> 0 <= fm_height fm -> 3 * fm_height fm < 2 ^ 32 ->
  grid_dims soils (fm_width fm) (fm_height fm) ->
  Forall (Forall (fun v => 0 <= v)) soils ->
  map_display fm = Ok (render soils).
Proof.
  intros Hsoils Hw Hh Hfit [Hrows Hcols] Hpos.
  unfold map_display. rewrite Hsoils. cbn [default].
  rewrite u32_small by lia.
  replace (fm_height fm * 3) with (Z.of_nat (3 * length soils)) by lia.
  replace (fm_width fm) with (Z.of_nat (Z.to_nat (fm_width fm))) by lia.
  assert (Forall (fun row => length row = Z.to_nat (fm_width fm) /\
                            Forall (fun v => 0 <= v) row) soils) as Hall.
  { rewrite Forall_forall in Hcols, Hpos. apply Forall_forall. intros row Hrow.
    split; [by apply Hcols|by apply Hpos]. }
  exact (display_rows_loop soils (Z.to_nat (fm_width fm)) Hall soils [] [] eq_refl).
Qed.

Lemma length_render (soils : list (list Z)) (w : nat) :
  Forall (fun row => length row = w) soils ->
  Forall (Forall (fun v => 0 <= v)) soils ->
  length (render soils) = (3 * length soils * (3 * w + 1))%nat.
Proof.
  intros Hcols Hpos. unfold render.
  induction soils as [|row soils IH]; [done|].
  apply Forall_cons in Hcols as [Hrow Hcols].
  apply Forall_cons in Hpos as [Hprow Hpos].
  rewrite bind_cons, !length_app, !length_display_line, IH, Hrow by done.
  simpl. lia.
Qed.

Lemma letters_B_render (soils : list (list Z)) :
  Forall (Forall (fun v => 0 <= v)) soils ->
  length (letters_B (render soils)) = length (base_stations (concat soils)).
Proof.
  intros Hpos.
  assert (forall l1 l2, letters_B (l1 ++ l2) = letters_B l1 ++ letters_B l2)
    as Happ by (intros; apply filter_app).
  induction soils as [|row soils IH]; [done|].
  apply Forall_cons in Hpos as [Hprow Hpos].
  unfold render. rewrite bind_cons. fold (render soils).
  do 3 rewrite Happ. rewrite !length_app.
  rewrite (letters_B_line false row), (letters_B_line true row) by done.
  rewrite IH by done.
  simpl. unfold base_stations. rewrite filter_app, length_app. lia.
Qed.

(** X18.  For a loaded map of fewer than [2^32 / 3] rows [map_display]
    reads no cell outside of [soils] and writes
    [3 * height * (3 * width + 1)] bytes: for each map row, in order,
    three lines of three bytes a cell and a newline, the middle one
    drawn with the base-station mark. *)
Theorem map_display_shape (fm : file_map) (soils : list (list Z)) :
  fm_soils fm = Some soils ->
  0 <= fm_width fm -> 0 <= fm_height fm -> 3 * fm_height fm < 2 ^ 32 ->
  grid_dims soils (fm_width fm) (fm_height fm) ->
  Forall (Forall (fun v => 0 <= v)) soils ->
  map_display fm = Ok (render soils) /\
  Z.of_nat (length (render soils))
  = 3 * fm_height fm * (3 * fm_width fm + 1) /\
  forall cy row,
    soils !! cy = Some row ->
    take (3 * (3 * Z.to_nat (fm_width fm) + 1))
         (drop (cy * (3 * (3 * Z.to_nat (fm_width fm) + 1))) (render soils))
    = display_line false row ++ display_line true row ++ display_line false row.
Proof.
  intros Hsoils Hw Hh Hfit Hdims Hpos. split; [|split].
  - by apply map_display_render.
  - destruct Hdims as [Hrows Hcols].
    rewrite (length_render soils (Z.to_nat (fm_width fm))) by done. nia.
  - destruct Hdims as [_ Hcols]. clear Hsoils Hfit Hh.
    set (w := Z.to_nat (fm_width fm)) in *. clearbody w. clear Hw.
    induction soils as [|r soils IH]; intros cy row Hrow; [done|].
    apply Forall_cons in Hcols as [Hr Hcols].
    apply Forall_cons in Hpos as [Hpr Hpos].
    assert (length (display_line false r ++ display_line true r
                    ++ display_line false r) = (3 * (3 * w + 1))%nat) as Hlen.
    { rewrite !length_app, !length_display_line, Hr by done. lia. }
    unfold render. rewrite bind_cons. fold (render soils).
    destruct cy as [|cy].
    + injection Hrow as <-. simpl (0 * _)%nat. rewrite drop_0.
      rewrite take_app_length'; done.
    + simpl in Hrow.
      replace (S cy * (3 * (3 * w + 1)))%nat
        with (length (display_line false r ++ display_line true r
                      ++ display_line false r) + cy * (3 * (3 * w + 1)))%nat
        by (rewrite Hlen; lia).
      rewrite drop_app_add. by apply IH.
Qed.

Lemma lookup_bind_block {A B : Type} (f : A -> list B) (n : nat) (l : list A) :
  Forall (fun a => length (f a) = n) l ->
  forall i k a, l !! i = Some a -> (k < n)%nat ->
    (l ≫= f) !! (i * n + k)%nat = f a !! k.
Proof.
  induction 1 as [|a0 l Ha0 Hl IH]; intros i k a Hi Hk; [done|].
  rewrite bind_cons. destruct i as [|i].
  - injection Hi as <-. simpl. apply lookup_app_l. lia.
  - simpl in Hi. rewrite lookup_app_r by (simpl; lia).
    replace (S i * n + k - length (f a0))%nat with (i * n + k)%nat
      by (simpl; lia).
    by apply IH.
Qed.

Lemma lookup_display_line middle row cx v k :
  Forall (fun v => 0 <= v) row -> row !! cx = Some v -> (k < 3)%nat ->
  display_line middle row !! (3 * cx + k)%nat = glyph middle v !! k.
Proof.
  intros Hpos Hv Hk. unfold display_line.
  assert (Forall (fun v => length (glyph middle v) = 3%nat) row) as Hlen.
  { eapply Forall_impl; [exact Hpos|]. intros u Hu. by apply length_glyph. }
  pose proof (lookup_lt_Some _ _ _ Hv) as Hcx.
  rewrite lookup_app_l.
  - replace (3 * cx + k)%nat with (cx * 3 + k)%nat by lia.
    by apply (lookup_bind_block (glyph middle) 3 row Hlen).
  - pose proof (length_display_line middle row Hpos) as Hline.
    unfold display_line in Hline. rewrite length_app in Hline. simpl in Hline.
    lia.
Qed.

Lemma lookup_display_line_end middle row :
  Forall (fun v => 0 <= v) row ->
  display_line middle row !! (3 * length row)%nat = Some 10.
Proof.
  intros Hpos.
  pose proof (length_display_line middle row Hpos) as Hline.
  unfold display_line in *. rewrite length_app in Hline. simpl in Hline.
  rewrite lookup_app_r by lia.
  by replace (3 * length row - length (row ≫= glyph middle))%nat with 0%nat
    by lia.
Qed.

Lemma lookup_render_line (soils : list (list Z)) (w : nat) :
  Forall (fun row => length row = w) soils ->
  Forall (Forall (fun v => 0 <= v)) soils ->
  forall cy row line r,
    soils !! cy = Some row -> (line < 3)%nat -> (r < 3 * w + 1)%nat ->
    render soils !! ((3 * cy + line) * (3 * w + 1) + r)%nat
    = display_line (Nat.eqb line 1) row !! r.
Proof.
  intros Hcols Hpos cy row line r Hrow Hline Hr.
  assert (Forall (fun row => length (display_line false row
                                     ++ display_line true row
                                     ++ display_line false row)
                             = (3 * (3 * w + 1))%nat) soils) as Hblock.
  { rewrite Forall_forall in Hcols, Hpos. apply Forall_forall. intros r0 Hr0.
    rewrite !length_app, !length_display_line by by apply Hpos.
    rewrite (Hcols r0 Hr0). lia. }
  assert (length row = w) as Hw.
  { rewrite Forall_forall in Hcols. apply Hcols.
    by eapply list_elem_of_lookup_2. }
  assert (Forall (fun v => 0 <= v) row) as Hprow.
  { rewrite Forall_forall in Hpos. apply Hpos.
    by eapply list_elem_of_lookup_2. }
  assert (forall middle, length (display_line middle row) = (3 * w + 1)%nat)
    as Hlen by (intros; rewrite length_display_line, Hw; done).
  unfold render.
  replace ((3 * cy + line) * (3 * w + 1) + r)%nat
    with (cy * (3 * (3 * w + 1)) + (line * (3 * w + 1) + r))%nat by lia.
  rewrite (lookup_bind_block _ _ soils Hblock cy _ row Hrow) by nia.
  destruct line as [|[|[|line]]]; [| | |lia].
  - simpl. rewrite lookup_app_l by (rewrite Hlen; lia). done.
  - rewrite lookup_app_r by (rewrite Hlen; lia).
    rewrite lookup_app_l by (rewrite !Hlen; lia).
    rewrite Hlen. f_equal. lia.
  - rewrite lookup_app_r by (rewrite Hlen; lia).
    rewrite lookup_app_r by (rewrite !Hlen; lia).
    rewrite !Hlen. simpl. f_equal. lia.
Qed.

Lemma glyph_letter_B middle v k :
  0 <= v ->
  glyph middle v !! k = Some 66 <-> v = 0 /\ middle = true /\ k = 1%nat.
Proof.
  intros Hv. split.
  - unfold glyph. destruct (Z.ltb_spec 4 v).
    { by destruct k as [|[|[|k]]]. }
    destruct (Z.eqb_spec v 0) as [->|Hne]; destruct middle; simpl.
    + destruct k as [|[|[|k]]]; try discriminate. done.
    + by destruct k as [|[|[|k]]].
    + assert (v = 1 \/ v = 2 \/ v = 3 \/ v = 4) as Hcases by lia.
      by destruct Hcases as [->|[->|[->| ->]]]; destruct k as [|[|[|k]]].
    + assert (v = 1 \/ v = 2 \/ v = 3 \/ v = 4) as Hcases by lia.
      by destruct Hcases as [->|[->|[->| ->]]]; destruct k as [|[|[|k]]].
  - by intros (-> & -> & ->).
Qed.

Lemma render_letter_B (soils : list (list Z)) (w : nat) :
  Forall (fun row => length row = w) soils ->
  Forall (Forall (fun v => 0 <= v)) soils ->
  forall i,
    render soils !! i = Some 66 <->
    exists cx cy row,
      soils !! cy = Some row /\ row !! cx = Some 0 /\
      i = ((3 * cy + 1) * (3 * w + 1) + (3 * cx + 1))%nat.
Proof.
  intros Hcols Hpos i. split.
  - intros Hi.
    pose proof (lookup_lt_Some _ _ _ Hi) as Hlt.
    rewrite (length_render soils w Hcols Hpos) in Hlt.
    pose proof (Nat.div_mod_eq i (3 * w + 1)) as Hdiv.
    pose proof (Nat.mod_upper_bound i (3 * w + 1) ltac:(lia)) as Hmod.
    set (l := (i / (3 * w + 1))%nat) in *.
    set (r := (i mod (3 * w + 1))%nat) in *.
    pose proof (Nat.div_mod_eq l 3) as Hdiv3.
    pose proof (Nat.mod_upper_bound l 3 ltac:(lia)) as Hmod3.
    set (cy := (l / 3)%nat) in *. set (line := (l mod 3)%nat) in *.
    assert (cy < length soils)%nat as Hcy by nia.
    destruct (lookup_lt_is_Some_2 soils cy Hcy) as [row Hrow].
    assert (length row = w) as Hw.
    { rewrite Forall_forall in Hcols. apply Hcols.
      by eapply list_elem_of_lookup_2. }
    assert (Forall (fun v => 0 <= v) row) as Hprow.
    { rewrite Forall_forall in Hpos. apply Hpos.
      by eapply list_elem_of_lookup_2. }
    assert (i = ((3 * cy + line) * (3 * w + 1) + r)%nat) as Hsplit by lia.
    rewrite Hsplit in Hi.
    rewrite (lookup_render_line soils w Hcols Hpos cy row line r Hrow) in Hi
      by lia.
    destruct (decide (r = 3 * length row)%nat) as [Hend|Hcell].
    { rewrite Hend, lookup_display_line_end in Hi by done. discriminate. }
    pose proof (Nat.div_mod_eq r 3) as Hdivr.
    pose proof (Nat.mod_upper_bound r 3 ltac:(lia)) as Hmodr.
    set (cx := (r / 3)%nat) in *. set (k := (r mod 3)%nat) in *.
    assert (cx < length row)%nat as Hcx by lia.
    destruct (lookup_lt_is_Some_2 row cx Hcx) as [v Hv].
    rewrite Hdivr in Hi.
    rewrite (lookup_display_line _ row cx v k Hprow Hv) in Hi by lia.
    assert (0 <= v) as Hv0.
    { rewrite Forall_forall in Hprow. apply Hprow.
      by eapply list_elem_of_lookup_2. }
    apply (glyph_letter_B _ v k Hv0) in Hi as (-> & Hline & Hk).
    exists cx, cy, row. split; [done|]. split; [done|].
    apply Nat.eqb_eq in Hline. lia.
  - intros (cx & cy & row & Hrow & Hv & ->).
    assert (length row = w) as Hw.
    { rewrite Forall_forall in Hcols. apply Hcols.
      by eapply list_elem_of_lookup_2. }
    assert (Forall (fun v => 0 <= v) row) as Hprow.
    { rewrite Forall_forall in Hpos. apply Hpos.
      by eapply list_elem_of_lookup_2. }
    pose proof (lookup_lt_Some _ _ _ Hv) as Hcx.
    rewrite (lookup_render_line soils w Hcols Hpos cy row 1 _ Hrow) by lia.
    by rewrite (lookup_display_line _ row cx 0 1 Hprow Hv) by lia.
Qed.

(** X19.  Where in the output of [map_display] the marks are, for a loaded
    map of fewer than [2^32 / 3] rows whose width and soils are
    [unsigned int]s.  With [width] the width of the map, a line of the
    output has [3 * width + 1] bytes, and the byte at offset [i] of the
    output is the letter B exactly when [i] is
    [(3 * cy + 1) * (3 * width + 1) + 3 * cx + 1] for a cell [(cx, cy)]
    that holds [BASE_STATION]: the middle byte of the cell on the middle
    line of the three lines of its row.  So the letter occurs once for
    each such cell.  A cell whose value is above 4, no enumerator of
    [soil_e], is drawn as three question marks on each of its three
    lines, and each of the [3 * height] lines ends with a newline. *)
Theorem map_display_marks_base_stations (fm : file_map) (soils : list (list Z)) :
  fm_soils fm = Some soils ->
  0 <= fm_width fm < 2 ^ 32 -> 0 <= fm_height fm -> 3 * fm_height fm < 2 ^ 32 ->
  grid_dims soils (fm_width fm) (fm_height fm) ->
  Forall (Forall (fun v => 0 <= v < 2 ^ 32)) soils ->
  exists out,
    map_display fm = Ok out /\ out = render soils /\
    length (letters_B out) = length (base_stations (concat soils)) /\
    (forall i,
       array_get out i = Ok 66 <->
       exists cx cy,
         grid_get soils (mk_position cx cy) = Ok 0 /\
         i = (3 * cy + 1) * (3 * fm_width fm + 1) + (3 * cx + 1)) /\
    (forall cx cy v line k,
       grid_get soils (mk_position cx cy) = Ok v -> 4 < v ->
       0 <= line < 3 -> 0 <= k < 3 ->
       array_get out ((3 * cy + line) * (3 * fm_width fm + 1) + (3 * cx + k))
       = Ok 63) /\
    (forall cy line,
       0 <= cy < fm_height fm -> 0 <= line < 3 ->
       array_get out ((3 * cy + line) * (3 * fm_width fm + 1) + 3 * fm_width fm)
       = Ok 10).
Proof.
  intros Hsoils [Hw _] Hh Hfit Hdims Hfits.
  assert (Forall (Forall (fun v => 0 <= v)) soils) as Hpos.
  { eapply Forall_impl; [exact Hfits|]. intros row Hrow.
    eapply Forall_impl; [exact Hrow|]. intros v Hv. simpl in Hv. lia. }
  clear Hfits.
  exists (render soils). split; [by apply map_display_render|].
  split; [done|]. split; [by apply letters_B_render|].
  destruct Hdims as [Hrows Hcols].
  set (w := Z.to_nat (fm_width fm)) in *.
  assert (fm_width fm = Z.of_nat w) as Hwz by lia. rewrite Hwz. clear Hwz.
  split; [|split].
  - intros i. rewrite array_get_Ok, (render_letter_B soils w Hcols Hpos). split.
    + intros (Hi & cx & cy & row & Hrow & Hv & Heq).
      exists (Z.of_nat cx), (Z.of_nat cy). split; [|lia].
      apply grid_get_Ok. cbn [x y]. split; [lia|]. split; [lia|].
      exists row. by rewrite !Nat2Z.id.
    + intros (cx & cy & (Hx & Hy & row & Hrow & Hv)%grid_get_Ok & ->).
      cbn [x y] in *. split; [nia|].
      exists (Z.to_nat cx), (Z.to_nat cy), row. split; [done|]. split; [done|].
      nia.
  - intros cx cy v line k (Hx & Hy & row & Hrow & Hv)%grid_get_Ok Hbig Hline Hk.
    cbn [x y] in *. apply array_get_Ok. split; [nia|].
    assert (Forall (fun v => 0 <= v) row) as Hprow.
    { rewrite Forall_forall in Hpos. apply Hpos.
      by eapply list_elem_of_lookup_2. }
    assert (length row = w) as Hlen.
    { rewrite Forall_forall in Hcols. apply Hcols.
      by eapply list_elem_of_lookup_2. }
    pose proof (lookup_lt_Some _ _ _ Hv) as Hcx.
    replace (Z.to_nat ((3 * cy + line) * (3 * Z.of_nat w + 1) + (3 * cx + k)))
      with ((3 * Z.to_nat cy + Z.to_nat line) * (3 * w + 1)
            + (3 * Z.to_nat cx + Z.to_nat k))%nat by nia.
    rewrite (lookup_render_line soils w Hcols Hpos _ row _ _ Hrow) by lia.
    rewrite (lookup_display_line _ row _ v _ Hprow Hv) by lia.
    unfold glyph. destruct (Z.ltb_spec 4 v); [|lia].
    assert (Z.to_nat k = 0 \/ Z.to_nat k = 1 \/ Z.to_nat k = 2)%nat
      as [->|[->| ->]] by lia; done.
  - intros cy line Hcy Hline. apply array_get_Ok. split; [nia|].
    assert (Z.to_nat cy < length soils)%nat as Hlt by lia.
    destruct (lookup_lt_is_Some_2 soils _ Hlt) as [row Hrow].
    assert (Forall (fun v => 0 <= v) row) as Hprow.
    { rewrite Forall_forall in Hpos. apply Hpos.
      by eapply list_elem_of_lookup_2. }
    assert (length row = w) as Hlen.
    { rewrite Forall_forall in Hcols. apply Hcols.
      by eapply list_elem_of_lookup_2. }
    replace (Z.to_nat ((3 * cy + line) * (3 * Z.of_nat w + 1) + 3 * Z.of_nat w))
      with ((3 * Z.to_nat cy + Z.to_nat line) * (3 * w + 1) + 3 * w)%nat by nia.
    rewrite (lookup_render_line soils w Hcols Hpos _ row _ _ Hrow) by lia.
    rewrite <- Hlen. by apply lookup_display_line_end.
Qed.

Lemma map_display_shape_witness :
  map_display {| fm_width := 2; fm_height := 1;
                 fm_soils := Some [[0; 4]]; fm_costs := None |}
  = Ok (render [[0; 4]]) /\
  Z.of_nat (length (render [[0; 4]])) = 3 * 1 * (3 * 2 + 1) /\
  forall cy row,
    [[0; 4]] !! cy = Some row ->
    take (3 * (3 * Z.to_nat 2 + 1))
         (drop (cy * (3 * (3 * Z.to_nat 2 + 1))) (render [[0; 4]]))
    = display_line false row ++ display_line true row ++ display_line false row.
Proof.
  apply (map_display_shape
           {| fm_width := 2; fm_height := 1;
              fm_soils := Some [[0; 4]]; fm_costs := None |} [[0; 4]]).
  - reflexivity.
  - simpl. lia.
  - simpl. lia.
  - simpl. lia.
  - split; [reflexivity|repeat constructor].
  - repeat constructor; lia.
Defined.

Lemma map_display_marks_base_stations_witness :
  exists out,
    map_display {| fm_width := 2; fm_height := 1;
                   fm_soils := Some [[0; 7]]; fm_costs := None |} = Ok out /\
    out = render [[0; 7]] /\
    length (letters_B out) = length (base_stations (concat [[0; 7]])) /\
    (forall i,
       array_get out i = Ok 66 <->
       exists cx cy,
         grid_get [[0; 7]] (mk_position cx cy) = Ok 0 /\
         i = (3 * cy + 1) * (3 * 2 + 1) + (3 * cx + 1)) /\
    (forall cx cy v line k,
       grid_get [[0; 7]] (mk_position cx cy) = Ok v -> 4 < v ->
       0 <= line < 3 -> 0 <= k < 3 ->
       array_get out ((3 * cy + line) * (3 * 2 + 1) + (3 * cx + k)) = Ok 63) /\
    (forall cy line,
       0 <= cy < 1 -> 0 <= line < 3 ->
       array_get out ((3 * cy + line) * (3 * 2 + 1) + 3 * 2) = Ok 10).
Proof.
  apply (map_display_marks_base_stations
           {| fm_width := 2; fm_height := 1;
              fm_soils := Some [[0; 7]]; fm_costs := None |} [[0; 7]]).
  - reflexivity.
  - simpl. lia.
  - simpl. lia.
  - simpl. lia.
  - split; [reflexivity|repeat constructor].
  - repeat constructor; lia.
Defined.
